(** * Midnight fetcher bot: mining orchestrator, fee manager and nonces

    A shallow embedding of
      - [src/lib/mining/nonce.ts]                      (module [Nonce]),
      - the dev fee manager, class [DevFeeManager]      (module [DevFee]),
      - the mining orchestrator, class [MiningOrchestrator]
                                                        (module [Orchestrator]),
    followed by sample inputs (module [Samples]) and by the properties
    proved of them.

    Line numbers in the comments of [Orchestrator] are those of the file
    that holds the class, [src/unnamed/part_001].

    JavaScript numbers that the code uses as counters, indexes, status
    codes and timestamps are integers and are modelled in [Z].  Sets and
    maps of the orchestrator ([Set<string>], [Map<string, Set<string>>])
    are stdpp's [gset] and [gmap].

    The code is asynchronous.  A method is modelled as a computation on a
    [World]: the fields of the orchestrator, the fee manager, the clock
    and the trace of the operations performed.  What the environment
    answers to a call (the HTTP responses, the digests of the hash
    service, the receipt journal) is an argument of the model, and at
    every [await] of the mining path the writes of the other tasks are
    applied to the fields before the call resumes. *)

From Stdlib Require Import ZArith Lia Ascii String List.
From stdpp Require Import gmap strings list fin_maps pretty.

Local Open Scope Z_scope.
Set Warnings "-clear-no-such-hyp".

(* ===================================================================== *)
(** ** JavaScript string helpers                                          *)
(* ===================================================================== *)

Module JS.

(** The digit table of [Number.prototype.toString(radix)]: lowercase. *)
Definition digits : string := "0123456789abcdefghijklmnopqrstuvwxyz".

Definition digitChar (d : Z) : ascii :=
  match String.get (Z.to_nat d) digits with
  | Some c => c
  | None => "0"%char
  end.

(** Integer digits, most significant first, as the do-while loop of the
    engine emits them: one digit always, then as long as the quotient is
    not zero. *)
Fixpoint radixDigits (fuel : nat) (radix n : Z) (acc : string) : string :=
  match fuel with
  | O => acc
  | S fuel' =>
      let acc' := String (digitChar (n mod radix)) acc in
      if n / radix =? 0 then acc' else radixDigits fuel' radix (n / radix) acc'
  end.

(** [n.toString(16)] for an integer-valued number [n]. *)
Definition toString16 (n : Z) : string :=
  if n <? 0
  then String "-"%char (radixDigits (S (Z.to_nat (Z.log2 (- n)))) 16 (- n) EmptyString)
  else radixDigits (S (Z.to_nat (Z.log2 n))) 16 n EmptyString.

Fixpoint repeatChar (k : nat) (c : ascii) : string :=
  match k with
  | O => EmptyString
  | S k' => String c (repeatChar k' c)
  end.

(** [s.padStart(target, fill)] with a one-character fill string. *)
Definition padStart (target : nat) (fill : ascii) (s : string) : string :=
  (repeatChar (target - String.length s) fill +:+ s)%string.

(** [parts.join('')]. *)
Fixpoint join (parts : list string) : string :=
  match parts with
  | [] => EmptyString
  | p :: ps => (p +:+ join ps)%string
  end.

(** [s.startsWith(p)]. *)
Fixpoint startsWith (p s : string) : bool :=
  match p, s with
  | EmptyString, _ => true
  | String a p', String b s' => if Ascii.eqb a b then startsWith p' s' else false
  | String _ _, EmptyString => false
  end.

(** Truthiness of a string: the empty string is falsy. *)
Definition truthy (s : string) : bool :=
  match s with EmptyString => false | String _ _ => true end.




(** Value of one hexadecimal character, and of a hexadecimal string read
    as [BigInt('0x' + s)] reads it. *)
Definition hexCharValue (c : ascii) : Z :=
  let n := Z.of_nat (nat_of_ascii c) in
  if (48 <=? n) && (n <=? 57) then n - 48
  else if (97 <=? n) && (n <=? 102) then n - 87
  else if (65 <=? n) && (n <=? 70) then n - 55
  else 0.

Fixpoint hexValueFrom (acc : Z) (s : string) : Z :=
  match s with
  | EmptyString => acc
  | String c s' => hexValueFrom (16 * acc + hexCharValue c) s'
  end.

Definition hexValue (s : string) : Z := hexValueFrom 0 s.

End JS.

(* ===================================================================== *)
(** ** Errors                                                             *)
(* ===================================================================== *)

(** A JavaScript call either returns or throws an [Error] with a
    message. *)
Inductive result (A : Type) : Type :=
| Ok (a : A)
| Throw (message : string).
Arguments Ok {A} a.
Arguments Throw {A} message.

Definition isOk {A} (r : result A) : bool :=
  match r with Ok _ => true | Throw _ => false end.

(* ===================================================================== *)
(** ** src/lib/mining/nonce.ts                                            *)
(* ===================================================================== *)

Module Nonce.
Import JS.

(** Storing a number in a [Uint8Array] keeps its low eight bits. *)
Definition uint8 (v : Z) : Z := v mod 256.

(** The eight bytes of [generateNonce]: [bytes[0] = workerId & 0xFF], and
    [bytes[i] = Math.floor(Math.random() * 256)] for [i] from 1 to 7.
    [random i] is the value of that expression at loop index [i]. *)
Definition nonceBytes (random : nat -> Z) (workerId : Z) : list Z :=
  uint8 (Z.land workerId 255) :: map (fun i => uint8 (random i)) (seq 1 7).

Definition byteHex (b : Z) : string := padStart 2 "0" (toString16 b).

Definition generateNonce (random : nat -> Z) (workerId : Z) : result string :=
  let nonce := join (map byteHex (nonceBytes random workerId)) in
  if negb (String.length nonce =? 16)%nat
  then Throw "Generated nonce has invalid length"
  else Ok nonce.

(** The default argument, [workerId = 0]. *)
Definition generateNonce_default (random : nat -> Z) : result string :=
  generateNonce random 0.

Definition numberToNonce (num : Z) : string :=
  padStart 16 "0" (toString16 num).


End Nonce.

(* ===================================================================== *)
(** ** The dev fee manager ([DevFeeManager])                              *)
(* ===================================================================== *)

Module DevFee.
Import JS.

Record DevFeeConfig := {
  enabled : bool;
  apiUrl : string;
  ratio : Z;
  cacheFile : string;
  clientId : string;
}.

(** [Partial<DevFeeConfig>], the constructor's argument. *)
Record PartialConfig := {
  given_enabled : option bool;
  given_apiUrl : option string;
  given_ratio : option Z;
  given_cacheFile : option string;
}.

Definition noConfig : PartialConfig :=
  {| given_enabled := None; given_apiUrl := None;
     given_ratio := None; given_cacheFile := None |}.

Record DevFeeAddress := {
  address : string;
  addressIndex : Z;
  fetchedAt : Z;
  usedCount : Z;
}.

Record DevFeeCache := {
  currentAddress : option DevFeeAddress;
  totalDevFeeSolutions : Z;
  lastFetchError : option string;
  cachedClientId : option string;
}.

Record DevFeeApiResponse := {
  devAddress : string;
  devAddressIndex : Z;
  isNewAssignment : bool;
}.

Record DevFeeManager := {
  config : DevFeeConfig;
  cache : DevFeeCache;
}.

Definition emptyCache : DevFeeCache :=
  {| currentAddress := None; totalDevFeeSolutions := 0;
     lastFetchError := None; cachedClientId := None |}.

(** [loadCache] reads [this.config.cacheFile] inside its [try]; when
    [this.config] is still unassigned the read throws and the [catch]
    falls through to the default cache.  [disk path] is the parsed content
    of the file at [path], when it exists and parses. *)
Definition loadCache (assigned : option DevFeeConfig)
    (disk : string -> option DevFeeCache) : DevFeeCache :=
  match assigned with
  | None => emptyCache
  | Some c =>
      match disk (cacheFile c) with
      | Some stored => stored
      | None => emptyCache
      end
  end.

Definition orDefault (given : option string) (default : string) : string :=
  match given with
  | Some s => if truthy s then s else default
  | None => default
  end.

(** The constructor.  It calls [loadCache] before [this.config] is
    assigned.  [generated] is what [generateClientId] returns;
    [cwdCacheFile] is [path.join(process.cwd(), '.devfee_cache.json')]. *)
Definition construct (given : PartialConfig)
    (disk : string -> option DevFeeCache)
    (generated cwdCacheFile : string) : DevFeeManager :=
  let loaded := loadCache None disk in
  let id := orDefault (cachedClientId loaded) generated in
  {| config :=
       {| enabled := default true (given_enabled given);
          apiUrl := orDefault (given_apiUrl given)
                      "https://miner.ada.markets/api/get-dev-address";
          ratio := default 25 (given_ratio given);
          cacheFile := orDefault (given_cacheFile given) cwdCacheFile;
          clientId := id |};
     cache :=
       match cachedClientId loaded with
       | Some s =>
           if truthy s then loaded
           else {| currentAddress := currentAddress loaded;
                   totalDevFeeSolutions := totalDevFeeSolutions loaded;
                   lastFetchError := lastFetchError loaded;
                   cachedClientId := Some id |}
       | None =>
           {| currentAddress := currentAddress loaded;
              totalDevFeeSolutions := totalDevFeeSolutions loaded;
              lastFetchError := lastFetchError loaded;
              cachedClientId := Some id |}
       end |}.

(** [export const devFeeManager = new DevFeeManager()]. *)
Definition devFeeManager (disk : string -> option DevFeeCache)
    (generated cwdCacheFile : string) : DevFeeManager :=
  construct noConfig disk generated cwdCacheFile.

Definition isEnabled (m : DevFeeManager) : bool :=
  enabled (config m) && (0 <? String.length (apiUrl (config m)))%nat.

Definition getRatio (m : DevFeeManager) : Z := ratio (config m).

Definition getTotalDevFeeSolutions (m : DevFeeManager) : Z :=
  totalDevFeeSolutions (cache m).

Definition withCache (m : DevFeeManager) (c : DevFeeCache) : DevFeeManager :=
  {| config := config m; cache := c |}.

(** What the assignment service answers to the POST of
    [fetchDevFeeAddress]: a response body, or a failure of the call with
    the message the [catch] extracts from it. *)
Inductive ApiOutcome :=
| ApiResponse (data : DevFeeApiResponse)
| ApiFailure (errorMsg : string).

Definition validFormat (a : string) : bool :=
  startsWith "tnight1" a || startsWith "addr1" a.

(** The body of the [try] block up to the validation: the address
    fetched, or the message of the error thrown. *)
Definition fetched (api : ApiOutcome) : result DevFeeApiResponse :=
  match api with
  | ApiResponse data =>
      if negb (validFormat (devAddress data))
      then Throw ("Invalid address format: " +:+ devAddress data)
      else Ok data
  | ApiFailure errorMsg => Throw errorMsg
  end.

(** [fetchDevFeeAddress] at time [now]. The writes of [saveCache] to the
    cache file are not part of the manager's memory and are left out. *)
Definition fetchDevFeeAddress (now : Z) (api : ApiOutcome) (m : DevFeeManager)
  : result string * DevFeeManager :=
  if negb (isEnabled m)
  then (Throw "Dev fee is not enabled or configured", m)
  else
    match fetched api with
    | Ok data =>
        (Ok (devAddress data),
         withCache m
           {| currentAddress :=
                Some {| address := devAddress data;
                        addressIndex := devAddressIndex data;
                        fetchedAt := now;
                        usedCount := 0 |};
              totalDevFeeSolutions := totalDevFeeSolutions (cache m);
              lastFetchError := None;
              cachedClientId := cachedClientId (cache m) |})
    | Throw errorMsg =>
        let m' :=
          withCache m
            {| currentAddress := currentAddress (cache m);
               totalDevFeeSolutions := totalDevFeeSolutions (cache m);
               lastFetchError := Some errorMsg;
               cachedClientId := cachedClientId (cache m) |} in
        match currentAddress (cache m') with
        | Some cached => (Ok (address cached), m')
        | None => (Throw ("Failed to fetch dev fee address: " +:+ errorMsg), m')
        end
    end.

Definition ONE_HOUR : Z := 60 * 60 * 1000.

(** Is the cached address, if any, less than one hour old at [now]? *)
Definition freshAddress (now : Z) (m : DevFeeManager) : option string :=
  match currentAddress (cache m) with
  | Some cached =>
      if now - fetchedAt cached <? ONE_HOUR then Some (address cached) else None
  | None => None
  end.

Definition getDevFeeAddress (now : Z) (api : ApiOutcome) (m : DevFeeManager)
  : result string * DevFeeManager :=
  match freshAddress now m with
  | Some a => (Ok a, m)
  | None => fetchDevFeeAddress now api m
  end.

Definition recordDevFeeSolution (m : DevFeeManager) : DevFeeManager :=
  withCache m
    {| currentAddress :=
         match currentAddress (cache m) with
         | Some a => Some {| address := address a;
                             addressIndex := addressIndex a;
                             fetchedAt := fetchedAt a;
                             usedCount := usedCount a + 1 |}
         | None => None
         end;
       totalDevFeeSolutions := totalDevFeeSolutions (cache m) + 1;
       lastFetchError := lastFetchError (cache m);
       cachedClientId := cachedClientId (cache m) |}.

End DevFee.

(* ===================================================================== *)
(** ** The mining orchestrator ([MiningOrchestrator])                     *)
(* ===================================================================== *)

Module Orchestrator.
Import JS.

(** *** Data

    The types [Challenge], [ChallengeResponse], [DerivedAddress] and the
    journal entries are declared in modules that the orchestrator imports
    ([./types], [@/lib/wallet/manager], [@/lib/storage/receipts-logger]).
    The records below have the fields that the orchestrator reads and
    writes: those of the object literals at lines 750-758, 797-805 and
    914-919, and of the property reads of [pollAndMine]. *)

Record Challenge := {
  challenge_id : string;
  difficulty : string;
  no_pre_mine : bool;
}.

Inductive Code := before | active | after.

Record ChallengeResponse := {
  code : Code;
  challenge : option Challenge;
  starts_at : option string;
}.

Record DerivedAddress := {
  index : Z;
  bech32 : string;
  publicKeyHex : string;
  registered : bool;
}.

(** An entry of the receipt journal. [isDevFee] is optional in the
    journal; the code only tests its truthiness, so an absent flag is
    [false]. *)
Record Receipt := {
  r_ts : Z;
  r_address : string;
  r_challenge_id : string;
  r_nonce : string;
  r_hash : string;
  r_crypto_receipt : option string;
  r_isDevFee : bool;
}.

Record ErrorEntry := {
  e_ts : Z;
  e_address : string;
  e_challenge_id : option string;
  e_nonce : string;
  e_hash : string;
  e_error : string;
  e_response : option string;
}.

Inductive MiningEvent :=
| EvStatus (isActive : bool) (challengeId : option string)
| EvMiningStart (address : string) (addressIndex : Z) (challengeId : string)
| EvHashProgress (address : string) (addressIndex : Z) (hashesComputed : Z)
| EvStats
| EvSolutionSubmit (address : string) (addressIndex : Z) (challengeId nonce : string)
| EvSolutionResult (address : string) (addressIndex : Z) (success : bool)
    (message : string)
| EvSolution (address : string) (challengeId : option string) (nonce : string)
| EvRegistrationProgress (addressIndex : Z) (address : string)
    (current total : Z) (success : bool)
| EvError (message : string).

(** What a call does, in the order it does it: the writes to the dedup
    structures, the events published, the calls to collaborators, and the
    tasks started without [await]. *)
Inductive Op :=
| OpEmit (e : MiningEvent)
| OpSubmittedAdd (hash : string)
| OpSubmittedClear
| OpProcessedClear
| OpSolvedAdd (address challengeId : string)
| OpMineForAddress (address : string) (isDevFee : bool)
| OpSubmitSolution (address nonce hash : string) (isDevFee : bool)
    (** POST [apiBase/solution/{address}/{challenge_id}/{nonce}] *)
| OpPost (address challengeId nonce : string)
| OpLogReceipt (r : Receipt)
| OpLogError (e : ErrorEntry)
| OpLoggerError (message : string)
| OpConsole (line : string)
| OpHashBatch (size : nat)
| OpInitRom (noPreMine : bool)
| OpSleep (ms : Z)
| OpGetDevFeeAddress
| OpRegister (addressIndex : Z)
| OpLoadWallet
    (** [this.checkAndMineDevFee()], [this.startMining()] and
        [this.pollLoop()] called and not awaited, [setTimeout] of the next
        poll, [clearTimeout] *)
| OpSpawnDevFeeCheck
| OpSpawnMining
| OpSpawnPollLoop
| OpSetTimeout
| OpClearTimeout.

(** The orchestrator's fields ([cpuUsage], [lastCpuCheck] and the three
    constants [apiBase], [pollInterval] and [workerThreads] apart). *)
Record State := {
  isRunning : bool;
  currentChallengeId : option string;
  pollTimer : bool;
  walletManager : bool;
  addresses : list DerivedAddress;
  solutionsFound : Z;
  startTime : option Z;
  isMining : bool;
  currentChallenge : option Challenge;
  totalHashesComputed : Z;
  lastHashRateUpdate : Z;
  addressesProcessedCurrentChallenge : gset Z;
  solutionTimestamps : list Z;
  submittedSolutions : gset string;
  solvedAddressChallenges : gmap string (gset string);
  userSolutionsCount : Z;
}.

Definition workerThreads : nat := 10.

Definition initial : State := {|
  isRunning := false; currentChallengeId := None; pollTimer := false;
  walletManager := false; addresses := []; solutionsFound := 0;
  startTime := None; isMining := false; currentChallenge := None;
  totalHashesComputed := 0; lastHashRateUpdate := 0;
  addressesProcessedCurrentChallenge := ∅; solutionTimestamps := [];
  submittedSolutions := ∅; solvedAddressChallenges := ∅;
  userSolutionsCount := 0 |}.

(** Field updates. *)
Definition set_isRunning (v : bool) (s : State) : State :=
  Build_State v (currentChallengeId s) (pollTimer s) (walletManager s)
    (addresses s) (solutionsFound s) (startTime s) (isMining s)
    (currentChallenge s) (totalHashesComputed s) (lastHashRateUpdate s)
    (addressesProcessedCurrentChallenge s) (solutionTimestamps s)
    (submittedSolutions s) (solvedAddressChallenges s) (userSolutionsCount s).

Definition set_currentChallengeId (v : option string) (s : State) : State :=
  Build_State (isRunning s) v (pollTimer s) (walletManager s)
    (addresses s) (solutionsFound s) (startTime s) (isMining s)
    (currentChallenge s) (totalHashesComputed s) (lastHashRateUpdate s)
    (addressesProcessedCurrentChallenge s) (solutionTimestamps s)
    (submittedSolutions s) (solvedAddressChallenges s) (userSolutionsCount s).

Definition set_pollTimer (v : bool) (s : State) : State :=
  Build_State (isRunning s) (currentChallengeId s) v (walletManager s)
    (addresses s) (solutionsFound s) (startTime s) (isMining s)
    (currentChallenge s) (totalHashesComputed s) (lastHashRateUpdate s)
    (addressesProcessedCurrentChallenge s) (solutionTimestamps s)
    (submittedSolutions s) (solvedAddressChallenges s) (userSolutionsCount s).

Definition set_walletManager (v : bool) (s : State) : State :=
  Build_State (isRunning s) (currentChallengeId s) (pollTimer s) v
    (addresses s) (solutionsFound s) (startTime s) (isMining s)
    (currentChallenge s) (totalHashesComputed s) (lastHashRateUpdate s)
    (addressesProcessedCurrentChallenge s) (solutionTimestamps s)
    (submittedSolutions s) (solvedAddressChallenges s) (userSolutionsCount s).

Definition set_addresses (v : list DerivedAddress) (s : State) : State :=
  Build_State (isRunning s) (currentChallengeId s) (pollTimer s)
    (walletManager s) v (solutionsFound s) (startTime s) (isMining s)
    (currentChallenge s) (totalHashesComputed s) (lastHashRateUpdate s)
    (addressesProcessedCurrentChallenge s) (solutionTimestamps s)
    (submittedSolutions s) (solvedAddressChallenges s) (userSolutionsCount s).

Definition set_solutionsFound (v : Z) (s : State) : State :=
  Build_State (isRunning s) (currentChallengeId s) (pollTimer s)
    (walletManager s) (addresses s) v (startTime s) (isMining s)
    (currentChallenge s) (totalHashesComputed s) (lastHashRateUpdate s)
    (addressesProcessedCurrentChallenge s) (solutionTimestamps s)
    (submittedSolutions s) (solvedAddressChallenges s) (userSolutionsCount s).

Definition set_startTime (v : option Z) (s : State) : State :=
  Build_State (isRunning s) (currentChallengeId s) (pollTimer s)
    (walletManager s) (addresses s) (solutionsFound s) v (isMining s)
    (currentChallenge s) (totalHashesComputed s) (lastHashRateUpdate s)
    (addressesProcessedCurrentChallenge s) (solutionTimestamps s)
    (submittedSolutions s) (solvedAddressChallenges s) (userSolutionsCount s).

Definition set_isMining (v : bool) (s : State) : State :=
  Build_State (isRunning s) (currentChallengeId s) (pollTimer s)
    (walletManager s) (addresses s) (solutionsFound s) (startTime s) v
    (currentChallenge s) (totalHashesComputed s) (lastHashRateUpdate s)
    (addressesProcessedCurrentChallenge s) (solutionTimestamps s)
    (submittedSolutions s) (solvedAddressChallenges s) (userSolutionsCount s).

Definition set_currentChallenge (v : option Challenge) (s : State) : State :=
  Build_State (isRunning s) (currentChallengeId s) (pollTimer s)
    (walletManager s) (addresses s) (solutionsFound s) (startTime s)
    (isMining s) v (totalHashesComputed s) (lastHashRateUpdate s)
    (addressesProcessedCurrentChallenge s) (solutionTimestamps s)
    (submittedSolutions s) (solvedAddressChallenges s) (userSolutionsCount s).

Definition set_totalHashesComputed (v : Z) (s : State) : State :=
  Build_State (isRunning s) (currentChallengeId s) (pollTimer s)
    (walletManager s) (addresses s) (solutionsFound s) (startTime s)
    (isMining s) (currentChallenge s) v (lastHashRateUpdate s)
    (addressesProcessedCurrentChallenge s) (solutionTimestamps s)
    (submittedSolutions s) (solvedAddressChallenges s) (userSolutionsCount s).

Definition set_lastHashRateUpdate (v : Z) (s : State) : State :=
  Build_State (isRunning s) (currentChallengeId s) (pollTimer s)
    (walletManager s) (addresses s) (solutionsFound s) (startTime s)
    (isMining s) (currentChallenge s) (totalHashesComputed s) v
    (addressesProcessedCurrentChallenge s) (solutionTimestamps s)
    (submittedSolutions s) (solvedAddressChallenges s) (userSolutionsCount s).

Definition set_addressesProcessed (v : gset Z) (s : State) : State :=
  Build_State (isRunning s) (currentChallengeId s) (pollTimer s)
    (walletManager s) (addresses s) (solutionsFound s) (startTime s)
    (isMining s) (currentChallenge s) (totalHashesComputed s)
    (lastHashRateUpdate s) v (solutionTimestamps s)
    (submittedSolutions s) (solvedAddressChallenges s) (userSolutionsCount s).

Definition set_solutionTimestamps (v : list Z) (s : State) : State :=
  Build_State (isRunning s) (currentChallengeId s) (pollTimer s)
    (walletManager s) (addresses s) (solutionsFound s) (startTime s)
    (isMining s) (currentChallenge s) (totalHashesComputed s)
    (lastHashRateUpdate s) (addressesProcessedCurrentChallenge s) v
    (submittedSolutions s) (solvedAddressChallenges s) (userSolutionsCount s).

Definition set_submittedSolutions (v : gset string) (s : State) : State :=
  Build_State (isRunning s) (currentChallengeId s) (pollTimer s)
    (walletManager s) (addresses s) (solutionsFound s) (startTime s)
    (isMining s) (currentChallenge s) (totalHashesComputed s)
    (lastHashRateUpdate s) (addressesProcessedCurrentChallenge s)
    (solutionTimestamps s) v (solvedAddressChallenges s)
    (userSolutionsCount s).

Definition set_solved (v : gmap string (gset string)) (s : State) : State :=
  Build_State (isRunning s) (currentChallengeId s) (pollTimer s)
    (walletManager s) (addresses s) (solutionsFound s) (startTime s)
    (isMining s) (currentChallenge s) (totalHashesComputed s)
    (lastHashRateUpdate s) (addressesProcessedCurrentChallenge s)
    (solutionTimestamps s) (submittedSolutions s) v (userSolutionsCount s).

Definition set_userSolutionsCount (v : Z) (s : State) : State :=
  Build_State (isRunning s) (currentChallengeId s) (pollTimer s)
    (walletManager s) (addresses s) (solutionsFound s) (startTime s)
    (isMining s) (currentChallenge s) (totalHashesComputed s)
    (lastHashRateUpdate s) (addressesProcessedCurrentChallenge s)
    (solutionTimestamps s) (submittedSolutions s)
    (solvedAddressChallenges s) v.

(** [solvedAddressChallenges.get(address)?.has(challengeId)]. *)
Definition hasSolved (address challengeId : string) (s : State) : bool :=
  match solvedAddressChallenges s !! address with
  | Some solved => bool_decide (challengeId ∈ solved)
  | None => false
  end.

(** Lines 625-628 and 860-863: create the address's set when the map has
    none, then add the challenge id to it. *)
Definition markSolved (address challengeId : string) (s : State) : State :=
  let m :=
    match solvedAddressChallenges s !! address with
    | Some _ => solvedAddressChallenges s
    | None => <[address := ∅]> (solvedAddressChallenges s)
    end in
  set_solved
    (<[address := {[challengeId]} ∪ default ∅ (m !! address)]> m) s.

Definition addSubmitted (hash : string) (s : State) : State :=
  set_submittedSolutions ({[hash]} ∪ submittedSolutions s) s.

(** *** The world a call runs in

    The orchestrator's fields, the dev fee manager it imports, the wall
    clock, and the operations performed so far. *)
Record World := {
  self : State;
  fee : DevFee.DevFeeManager;
  clock : Z;
  trace : list Op;
}.

Definition onSelf (f : State -> State) (w : World) : World :=
  {| self := f (self w); fee := fee w; clock := clock w; trace := trace w |}.

Definition onFee (f : DevFee.DevFeeManager -> DevFee.DevFeeManager)
    (w : World) : World :=
  {| self := self w; fee := f (fee w); clock := clock w; trace := trace w |}.

Definition setClock (t : Z) (w : World) : World :=
  {| self := self w; fee := fee w; clock := t; trace := trace w |}.

Definition record (o : Op) (w : World) : World :=
  {| self := self w; fee := fee w; clock := clock w;
     trace := trace w ++ [o] |}.

(** A thrown value: the [message] of the error and, for a rejected HTTP
    call, the response's status and the [message] of its body. *)
Record JsError := {
  message : string;
  response_status : option Z;
  response_message : option string;
}.

Definition plainError (msg : string) : JsError :=
  {| message := msg; response_status := None; response_message := None |}.

(** A call returns, throws, or is still waiting for an answer that the
    environment has not given. *)
Inductive Outcome (A : Type) : Type :=
| Done (a : A)
| Raised (e : JsError)
| Suspended.
Arguments Done {A} a.
Arguments Raised {A} e.
Arguments Suspended {A}.

Definition M (A : Type) : Type := World -> Outcome A * World.

Definition ret {A} (a : A) : M A := fun w => (Done a, w).

Definition bind {A B} (m : M A) (k : A -> M B) : M B :=
  fun w =>
    match m w with
    | (Done a, w') => k a w'
    | (Raised e, w') => (Raised e, w')
    | (Suspended, w') => (Suspended, w')
    end.

Definition raise {A} (e : JsError) : M A := fun w => (Raised e, w).

(** [try { body } catch (error) { handler }]. *)
Definition tryCatch {A} (body : M A) (handler : JsError -> M A) : M A :=
  fun w =>
    match body w with
    | (Raised e, w') => handler e w'
    | other => other
    end.

Definition get : M State := fun w => (Done (self w), w).
Definition modify (f : State -> State) : M unit :=
  fun w => (Done tt, onSelf f w).
Definition perform (o : Op) : M unit := fun w => (Done tt, record o w).
Definition emit (e : MiningEvent) : M unit := perform (OpEmit e).
Definition now : M Z := fun w => (Done (clock w), w).

Notation "x <- m ;; k" := (bind m (fun x => k))
  (at level 100, m at next level, right associativity).
Notation "m ;; k" := (bind m (fun _ => k))
  (at level 100, right associativity).

(** *** Other tasks

    While a call is suspended in an [await], the other tasks of the
    process run.  These are their writes to the orchestrator's fields. *)
Inductive Concurrent :=
| CStop                                      (** [stop()] *)
| CMiningOff                                 (** lines 410 and 514 *)
| CNewChallenge (c : Challenge)              (** lines 416-439, then 464 *)
| CSubmitted (hash : string)                 (** line 620 *)
| CSolved (address challengeId : string)     (** lines 625-628 *)
| CAccepted (isDevFee : bool)                (** lines 726-733 *)
| CClock (t : Z).                            (** time passes *)

Definition concurrent (c : Concurrent) (w : World) : World :=
  match c with
  | CStop => onSelf (fun s => set_pollTimer false (set_isRunning false s)) w
  | CMiningOff => onSelf (set_isMining false) w
  | CNewChallenge ch =>
      onSelf (fun s =>
        set_isMining true
          (set_currentChallenge (Some ch)
            (set_currentChallengeId (Some (challenge_id ch))
              (set_submittedSolutions ∅ (set_addressesProcessed ∅ s))))) w
  | CSubmitted h => onSelf (addSubmitted h) w
  | CSolved a c => onSelf (markSolved a c) w
  | CAccepted true =>
      onFee DevFee.recordDevFeeSolution
        (onSelf (fun s => set_solutionsFound (solutionsFound s + 1) s) w)
  | CAccepted false =>
      onSelf (fun s =>
        set_userSolutionsCount (userSolutionsCount s + 1)
          (set_solutionsFound (solutionsFound s + 1) s)) w
  | CClock t => setClock t w
  end.

(** An [await]: the other tasks run, then the call resumes. *)
Definition resume (during : list Concurrent) (w : World) : World :=
  fold_left (fun w c => concurrent c w) during w.

Definition await (during : list Concurrent) : M unit :=
  fun w => (Done tt, resume during w).

Fixpoint forEach {A} (l : list A) (body : A -> M unit) : M unit :=
  match l with
  | [] => ret tt
  | x :: l' => body x ;; forEach l' body
  end.

(** [this.submittedSolutions.add(hash)] *)
Definition submittedSolutions_add (hash : string) : M unit :=
  modify (addSubmitted hash) ;; perform (OpSubmittedAdd hash).

(** [if (!solved.has(a)) solved.set(a, new Set()); solved.get(a)!.add(c)] *)
Definition solvedAddressChallenges_add (address challengeId : string) : M unit :=
  modify (markSolved address challengeId) ;;
  perform (OpSolvedAdd address challengeId).

(** Truthiness of [this.currentChallengeId]: neither [null] nor empty. *)
Definition truthyId (id : option string) : bool :=
  match id with Some s => truthy s | None => false end.

(** *** [loadSubmittedSolutions] (lines 836-871)

    [journal] is what [receiptsLogger.readReceipts()] returns or throws. *)
Definition userReceiptsOf (allReceipts : list Receipt) : list Receipt :=
  List.filter (fun r => negb (r_isDevFee r)) allReceipts.

Definition devFeeReceiptsOf (allReceipts : list Receipt) : list Receipt :=
  List.filter (fun r => r_isDevFee r) allReceipts.

Definition loadReceipt (receipt : Receipt) : M unit :=
  (if truthy (r_hash receipt)
   then submittedSolutions_add (r_hash receipt)
   else ret tt) ;;
  solvedAddressChallenges_add (r_address receipt) (r_challenge_id receipt).

Definition loadSubmittedSolutions (journal : result (list Receipt)) : M unit :=
  tryCatch
    (match journal with
     | Throw msg => raise (plainError msg)
     | Ok allReceipts =>
         let userReceipts := userReceiptsOf allReceipts in
         modify (set_userSolutionsCount (Z.of_nat (length userReceipts))) ;;
         forEach userReceipts loadReceipt
     end)
    (fun error =>
       perform (OpConsole "Failed to load submitted solutions")).

(** *** [submitSolution] (lines 685-830) *)

(** The answer to the POST: a response with its status, status text, and
    the [crypto_receipt] and [message] of its body, or no response at all
    (timeout, connection failure). *)
Inductive PostOutcome :=
| Responded (status : Z) (statusText : string)
    (crypto_receipt body_message : option string)
| NoResponse (errorMessage : string).

Record SubmitEnv := {
  post : PostOutcome;
  during_post : list Concurrent;
}.

Record Response := {
  status : Z;
  statusText : string;
  crypto_receipt : option string;
}.

(** [await axios.post(url, {}, { validateStatus: status => status < 500 })]:
    resolves with the response when the status passes [validateStatus],
    rejects otherwise. *)
Definition axiosPost (env : SubmitEnv) : M Response :=
  await (during_post env) ;;
  match post env with
  | Responded st text receipt msg =>
      if st <? 500
      then ret {| status := st; statusText := text; crypto_receipt := receipt |}
      else raise {| message := "Request failed with status code " +:+ pretty st;
                    response_status := Some st;
                    response_message := msg |}
  | NoResponse msg => raise (plainError msg)
  end.

(** [error.response?.data?.message || error.message] *)
Definition errorText (error : JsError) : string :=
  match response_message error with
  | Some m => if truthy m then m else message error
  | None => message error
  end.

(** The message of the failure event; the response body is rendered by
    its [message]. *)
Definition detailedMessage (error : JsError) : string :=
  errorText error +:+ " [Status: " +:+
  match response_status error with
  | Some st => if st =? 0 then "N/A" else pretty st
  | None => "N/A"
  end +:+ ", Response: " +:+ default "N/A" (response_message error) +:+ "]".

Definition accepted (st : Z) : bool := (200 <=? st) && (st <? 300).

Definition submitSolution (env : SubmitEnv) (addr : DerivedAddress)
    (nonce hash preimage : string) (isDevFee : bool) : M unit :=
  perform (OpSubmitSolution (bech32 addr) nonce hash isDevFee) ;;
  s <- get ;;
  if negb (truthyId (currentChallengeId s)) || negb (walletManager s)
  then ret tt
  else
    tryCatch
      (perform (OpPost (bech32 addr) (default "" (currentChallengeId s)) nonce) ;;
       response <- axiosPost env ;;
       (if accepted (status response)
        then ret tt
        else raise (plainError ("Server rejected solution: " +:+
                      pretty (status response) +:+ " " +:+
                      statusText response))) ;;
       modify (fun s => set_solutionsFound (solutionsFound s + 1) s) ;;
       (if isDevFee
        then fun w => (Done tt, onFee DevFee.recordDevFeeSolution w)
        else
          modify (fun s => set_userSolutionsCount (userSolutionsCount s + 1) s) ;;
          perform OpSpawnDevFeeCheck) ;;
       t <- now ;;
       modify (fun s => set_solutionTimestamps (solutionTimestamps s ++ [t]) s) ;;
       s' <- get ;;
       perform (OpLogReceipt
                  {| r_ts := t; r_address := bech32 addr;
                     r_challenge_id := default "" (currentChallengeId s');
                     r_nonce := nonce; r_hash := hash;
                     r_crypto_receipt := crypto_receipt response;
                     r_isDevFee := isDevFee |}) ;;
       emit (EvSolutionResult (bech32 addr) (index addr) true "Solution accepted") ;;
       emit (EvSolution (bech32 addr) (currentChallengeId s') nonce))
      (fun error =>
         s' <- get ;;
         t <- now ;;
         perform (OpLogError
                    {| e_ts := t; e_address := bech32 addr;
                       e_challenge_id := currentChallengeId s';
                       e_nonce := nonce; e_hash := hash;
                       e_error := errorText error;
                       e_response := response_message error |}) ;;
         perform (OpLoggerError "Solution submission failed") ;;
         emit (EvSolutionResult (bech32 addr) (index addr) false
                 (detailedMessage error))).

(** *** [mineForAddress] (lines 523-679)

    The difficulty test and the preimage builder are imported from
    modules of the miner that the orchestrator only calls. *)
Section Mining.

Variable matchesDifficulty : string -> string -> bool.
Variable buildPreimage : string -> string -> option Challenge -> string.

Record Candidate := {
  nonce : string;
  preimage : string;
}.

(** One round of the mining loop, as the environment answers it: the
    random draws of the batch ([random k i] is byte [i] of candidate [k]),
    what the other tasks do while the hash service computes, and the
    digests it returns or the error it throws. *)
Record MineStep := {
  random : nat -> nat -> Z;
  during_hash : list Concurrent;
  hashes : result (list string);
}.

Record MineEnv := {
  romReady : bool;
  steps : list MineStep;
  submission : SubmitEnv;
}.

Definition BATCH_SIZE : nat := 1000.

(** [this.isRunning && this.isMining && this.currentChallengeId === challengeId] *)
Definition stillMining (challengeId : string) (s : State) : bool :=
  isRunning s && isMining s &&
  bool_decide (currentChallengeId s = Some challengeId).

(** Lines 562-577: candidates [i], [i+1], ... of the batch. *)
Fixpoint buildBatch (draws : nat -> nat -> Z) (addr : DerivedAddress)
    (challengeId : string) (s : State) (i remaining : nat)
  : result (list Candidate) :=
  match remaining with
  | O => Ok []
  | S remaining' =>
      if negb (stillMining challengeId s) then Ok []
      else
        match Nonce.generateNonce_default (draws i) with
        | Throw msg => Throw msg
        | Ok nonceHex =>
            match buildBatch draws addr challengeId s (S i) remaining' with
            | Throw msg => Throw msg
            | Ok rest =>
                Ok ({| nonce := nonceHex;
                       preimage := buildPreimage nonceHex (bech32 addr)
                                     (currentChallenge s) |} :: rest)
            end
        end
  end.

(** Lines 599-649: [true] when a solution was submitted and the function
    returns, [false] when the digests are exhausted.  Reading
    [batchData[i]] past the end of the batch throws. *)
Fixpoint scanHashes (env : SubmitEnv) (addr : DerivedAddress)
    (challengeId difficulty : string) (isDevFee : bool)
    (digests : list string) (batchData : list Candidate) : M bool :=
  match digests with
  | [] => ret false
  | hash :: digests' =>
      match batchData with
      | [] => raise (plainError "Cannot destructure property of undefined")
      | candidate :: batchData' =>
          if matchesDifficulty hash difficulty
          then
            s <- get ;;
            if bool_decide (hash ∈ submittedSolutions s)
            then scanHashes env addr challengeId difficulty isDevFee
                   digests' batchData'
            else
              submittedSolutions_add hash ;;
              solvedAddressChallenges_add (bech32 addr) challengeId ;;
              emit (EvSolutionSubmit (bech32 addr) (index addr) challengeId
                      (nonce candidate)) ;;
              submitSolution env addr (nonce candidate) hash
                (preimage candidate) isDevFee ;;
              ret true
          else scanHashes env addr challengeId difficulty isDevFee
                 digests' batchData'
      end
  end.

(** [hashCount] after the round. *)
Definition countAfter (hashCount : Z) (answer : result (list string)) : Z :=
  match answer with
  | Ok digests => hashCount + Z.of_nat (length digests)
  | Throw _ => hashCount
  end.

(** The [try] block of one round, lines 581-649. *)
Definition hashAndScan (env : SubmitEnv) (addr : DerivedAddress)
    (challengeId difficulty : string) (isDevFee : bool)
    (step : MineStep) (hashCount : Z) (batchData : list Candidate) : M bool :=
  perform (OpHashBatch (length batchData)) ;;
  await (during_hash step) ;;
  match hashes step with
  | Throw msg => raise (plainError msg)
  | Ok digests =>
      modify (fun s => set_totalHashesComputed
                         (totalHashesComputed s + Z.of_nat (length digests)) s) ;;
      (if countAfter hashCount (hashes step) =? Z.of_nat (length digests)
       then match digests with
            | [] => raise (plainError "Cannot read properties of undefined")
            | _ => ret tt
            end
       else ret tt) ;;
      scanHashes env addr challengeId difficulty isDevFee digests batchData
  end.

(** The [while] loop, lines 558-678. With no answer left from the
    environment the call is still waiting. *)
Fixpoint mineLoop (env : SubmitEnv) (addr : DerivedAddress)
    (challengeId difficulty : string) (isDevFee : bool)
    (rounds : list MineStep) (hashCount : Z) : M unit :=
  s <- get ;;
  if negb (stillMining challengeId s) then ret tt
  else
    match rounds with
    | [] => fun w => (Suspended, w)
    | step :: rounds' =>
        match buildBatch (random step) addr challengeId s 0 BATCH_SIZE with
        | Throw msg => raise (plainError msg)
        | Ok batchData =>
            if (length batchData =? 0)%nat then ret tt
            else
              returned <-
                tryCatch
                  (hashAndScan env addr challengeId difficulty isDevFee
                     step hashCount batchData)
                  (fun error =>
                     perform (OpLoggerError "Batch hash computation error") ;;
                     ret false) ;;
              if returned : bool then ret tt
              else
                emit (EvHashProgress (bech32 addr) (index addr)
                        (countAfter hashCount (hashes step))) ;;
                emit EvStats ;;
                mineLoop env addr challengeId difficulty isDevFee rounds'
                  (countAfter hashCount (hashes step))
        end
    end.

Definition mineForAddress (env : MineEnv) (addr : DerivedAddress)
    (isDevFee : bool) : M unit :=
  perform (OpMineForAddress (bech32 addr) isDevFee) ;;
  s <- get ;;
  match currentChallenge s with
  | None => ret tt
  | Some current =>
      if negb (truthyId (currentChallengeId s)) then ret tt
      else if negb (romReady env)
      then perform (OpConsole "ROM not ready")
      else
        let challengeId := default "" (currentChallengeId s) in
        modify (fun s => set_addressesProcessed
                  ({[index addr]} ∪ addressesProcessedCurrentChallenge s) s) ;;
        emit (EvMiningStart (bech32 addr) (index addr) challengeId) ;;
        mineLoop (submission env) addr challengeId (difficulty current)
          isDevFee (steps env) 0
  end.

(** *** [checkAndMineDevFee] (lines 876-940) *)

Record FeeRound := {
  fee_api : DevFee.ApiOutcome;
  fee_mining : MineEnv;
}.

(** [await devFeeManager.getDevFeeAddress()] *)
Definition getDevFeeAddress (api : DevFee.ApiOutcome) : M string :=
  perform OpGetDevFeeAddress ;;
  fun w =>
    match DevFee.getDevFeeAddress (clock w) api (fee w) with
    | (Ok a, m) => (Done a, onFee (fun _ => m) w)
    | (Throw msg, m) => (Raised (plainError msg), onFee (fun _ => m) w)
    end.

Definition devFeeAddr (devFeeAddress : string) : DerivedAddress :=
  {| index := -1; bech32 := devFeeAddress; publicKeyHex := "";
     registered := true |}.

(** Rounds [i], [i+1], ... of the [for] loop at line 905. *)
Fixpoint feeRounds (rounds : nat -> FeeRound) (i remaining : nat) : M unit :=
  match remaining with
  | O => ret tt
  | S remaining' =>
      tryCatch
        (devFeeAddress <- getDevFeeAddress (fee_api (rounds i)) ;;
         mineForAddress (fee_mining (rounds i)) (devFeeAddr devFeeAddress) true)
        (fun error => perform (OpConsole "[DEV FEE] Failed")) ;;
      feeRounds rounds (S i) remaining'
  end.

(** [Math.floor(userSolutionsCount / ratio)], for a ratio that is not
    zero. *)
Definition expectedDevFees (userSolutions ratio : Z) : Z :=
  userSolutions / ratio.

Definition devFeesNeeded (w : World) : Z :=
  expectedDevFees (userSolutionsCount (self w)) (DevFee.getRatio (fee w))
  - DevFee.getTotalDevFeeSolutions (fee w).

Definition checkAndMineDevFee (rounds : nat -> FeeRound) : M unit :=
  fun w =>
    if negb (DevFee.isEnabled (fee w))
    then (Done tt, w)
    else
      let needed := devFeesNeeded w in
      if needed >? 0
      then (perform (OpConsole "Dev fee payment needed") ;;
            feeRounds rounds 0 (Z.to_nat needed)) w
      else if needed =? 0
      then perform (OpConsole "Dev fees are up to date, no payment needed") w
      else perform (OpConsole "Dev fees ahead of schedule") w.

End Mining.

(** *** [startMining]: the identities it dispatches (lines 479-509) *)

(** Registered addresses that have not solved the current challenge. *)
Definition addressesToMine (currentChallengeId : string) (s : State)
  : list DerivedAddress :=
  List.filter
    (fun addr => negb (hasSolved (bech32 addr) currentChallengeId s))
    (List.filter registered (addresses s)).

(** [addressesToMine.slice(i, i + workerThreads)] for
    [i = 0, workerThreads, 2 * workerThreads, ...]. *)
Fixpoint batchesFrom (fuel : nat) (l : list DerivedAddress)
  : list (list DerivedAddress) :=
  match fuel with
  | O => []
  | S fuel' =>
      match l with
      | [] => []
      | _ => take workerThreads l :: batchesFrom fuel' (drop workerThreads l)
      end
  end.

Definition batches (l : list DerivedAddress) : list (list DerivedAddress) :=
  batchesFrom (length l) l.

(** *** [stop] (lines 236-249) *)
Definition stop : M unit :=
  modify (set_isRunning false) ;;
  s <- get ;;
  (if pollTimer s
   then perform OpClearTimeout ;; modify (set_pollTimer false)
   else ret tt) ;;
  emit (EvStatus false None).

(** *** [pollAndMine] (lines 386-454) *)

(** What the poll tick meets: the answer of the challenge endpoint, the
    outcome of [hashEngine.initRom], and the answers of the successive
    calls of [hashEngine.isRomReady()]. *)
Record PollEnv := {
  fetched : result ChallengeResponse;
  initRom : result unit;
  isRomReady : nat -> bool;
}.

Definition maxWait : Z := 60000.

(** Lines 428-430. Each turn probes the ROM once and sleeps 500 ms; [k]
    counts the probes made, and [500 * k] is the time waited so far.
    Returns the number of probes made when the loop is left. *)
Fixpoint waitForRom (probe : nat -> bool) (fuel k : nat) : M nat :=
  match fuel with
  | O => ret (S k)
  | S fuel' =>
      if negb (probe k) && (500 * Z.of_nat k <? maxWait)
      then perform (OpSleep 500) ;; waitForRom probe fuel' (S k)
      else ret (S k)
  end.

Definition newChallengeTransition (env : PollEnv) (found : Challenge) : M unit :=
  s <- get ;;
  (if isMining s
   then modify (set_isMining false) ;; perform (OpSleep 1000)
   else ret tt) ;;
  modify (set_addressesProcessed ∅) ;; perform OpProcessedClear ;;
  modify (set_submittedSolutions ∅) ;; perform OpSubmittedClear ;;
  perform (OpInitRom (no_pre_mine found)) ;;
  match initRom env with
  | Throw msg => raise (plainError msg)
  | Ok _ =>
      probes <- waitForRom (isRomReady env) 121 0 ;;
      if negb (isRomReady env probes)
      then raise (plainError "ROM initialization timeout")
      else
        modify (set_currentChallengeId (Some (challenge_id found))) ;;
        modify (set_currentChallenge (Some found)) ;;
        emit (EvStatus true (Some (challenge_id found))) ;;
        s' <- get ;;
        if negb (isMining s') then perform OpSpawnMining else ret tt
  end.

Definition pollAndMine (env : PollEnv) : M unit :=
  match fetched env with
  | Throw msg => raise (plainError msg)
  | Ok response =>
      match code response with
      | before => ret tt
      | after => stop
      | active =>
          match challenge response with
          | None => ret tt
          | Some found =>
              s <- get ;;
              if bool_decide (Some (challenge_id found) = currentChallengeId s)
              then ret tt
              else newChallengeTransition env found
          end
      end
  end.

(** *** [pollLoop] (lines 366-381): one tick *)
Definition pollLoop (env : PollEnv) : M unit :=
  s <- get ;;
  if negb (isRunning s) then ret tt
  else
    tryCatch (pollAndMine env)
      (fun error =>
         perform (OpLoggerError "Poll error") ;;
         emit (EvError (message error))) ;;
    perform OpSetTimeout ;;
    modify (set_pollTimer true).

(** *** [start] (lines 201-231) *)

(** What [start] meets: the wallet that [loadWallet(password)] returns or
    the error it throws, the receipt journal, and for the address at each
    position of the wallet whether its registration succeeds. *)
Record StartEnv := {
  loadWallet : string -> result (list DerivedAddress);
  journal : result (list Receipt);
  registration : nat -> result unit;
}.

Definition markRegistered (addr : DerivedAddress) : DerivedAddress :=
  {| index := index addr; bech32 := bech32 addr;
     publicKeyHex := publicKeyHex addr; registered := true |}.

(** [registerAddress] for the address object at position [p] of
    [this.addresses]; [addr.registered = true] writes to that object. *)
Definition registerAddress (outcome : result unit) (p : nat)
    (addr : DerivedAddress) : M unit :=
  s <- get ;;
  if negb (walletManager s)
  then raise (plainError "Wallet manager not initialized")
  else
    perform (OpRegister (index addr)) ;;
    match outcome with
    | Throw msg => raise (plainError msg)
    | Ok _ =>
        modify (fun s => set_addresses (<[p := markRegistered addr]> (addresses s)) s)
    end.

(** The positions and objects of the addresses that are not registered. *)
Fixpoint unregisteredFrom (p : nat) (l : list DerivedAddress)
  : list (nat * DerivedAddress) :=
  match l with
  | [] => []
  | a :: l' =>
      if registered a then unregisteredFrom (S p) l'
      else (p, a) :: unregisteredFrom (S p) l'
  end.

Fixpoint registerAll (env : StartEnv) (total : Z)
    (todo : list (nat * DerivedAddress)) (registeredCount : Z) : M unit :=
  match todo with
  | [] => ret tt
  | (p, addr) :: todo' =>
      count <-
        tryCatch
          (emit (EvRegistrationProgress (index addr) (bech32 addr)
                   registeredCount total false) ;;
           registerAddress (registration env p) p addr ;;
           emit (EvRegistrationProgress (index addr) (bech32 addr)
                   (registeredCount + 1) total true) ;;
           perform (OpSleep 1500) ;;
           ret (registeredCount + 1))
          (fun error =>
             perform (OpLoggerError "Failed to register address") ;;
             emit (EvRegistrationProgress (index addr) (bech32 addr)
                     registeredCount total false) ;;
             ret registeredCount) ;;
      registerAll env total todo' count
  end.

Definition ensureAddressesRegistered (env : StartEnv) : M unit :=
  s <- get ;;
  let unregistered := unregisteredFrom 0 (addresses s) in
  if (length unregistered =? 0)%nat then ret tt
  else registerAll env (Z.of_nat (length unregistered)) unregistered 0.

Definition start (env : StartEnv) (password : string) : M unit :=
  s <- get ;;
  if isRunning s then ret tt
  else
    modify (set_walletManager true) ;;
    perform OpLoadWallet ;;
    match loadWallet env password with
    | Throw msg => raise (plainError msg)
    | Ok loaded =>
        modify (set_addresses loaded) ;;
        loadSubmittedSolutions (journal env) ;;
        ensureAddressesRegistered env ;;
        modify (set_isRunning true) ;;
        t <- now ;;
        modify (set_startTime (Some t)) ;;
        modify (set_solutionsFound 0) ;;
        perform OpSpawnPollLoop ;;
        s' <- get ;;
        emit (EvStatus true (currentChallengeId s'))
    end.

(** *** Reading a trace *)

(** The operations a call added to the trace. *)
Definition performed {A} (m : M A) (w : World) : list Op :=
  drop (length (trace w)) (trace (snd (m w))).

Definition isSubmitCall (o : Op) : bool :=
  match o with OpSubmitSolution _ _ _ _ => true | _ => false end.

Definition isPost (o : Op) : bool :=
  match o with OpPost _ _ _ => true | _ => false end.

(** The network submissions for one (identity, challenge) pair. *)
Definition isPostFor (address challengeId : string) (o : Op) : bool :=
  match o with
  | OpPost a c _ => bool_decide (a = address) && bool_decide (c = challengeId)
  | _ => false
  end.


(** Operations of a miner that has not found a solution: hash batches,
    progress events, log lines. *)
Definition searching (o : Op) : bool :=
  match o with
  | OpHashBatch _ | OpLoggerError _ | OpConsole _ => true
  | OpEmit (EvHashProgress _ _ _) | OpEmit EvStats
  | OpEmit (EvMiningStart _ _ _) => true
  | _ => false
  end.

(** Operations of the body of [submitSolution]. *)
Definition submitting (o : Op) : bool :=
  match o with
  | OpPost _ _ _ | OpLogReceipt _ | OpLogError _ | OpLoggerError _
  | OpSpawnDevFeeCheck => true
  | OpEmit (EvSolutionResult _ _ _ _) | OpEmit (EvSolution _ _ _) => true
  | _ => false
  end.


(** The four operations of lines 620-641, in the order of the source. *)
Definition solutionFound (addr : DerivedAddress) (challengeId nonce hash : string)
    (isDevFee : bool) : list Op :=
  [ OpSubmittedAdd hash;
    OpSolvedAdd (bech32 addr) challengeId;
    OpEmit (EvSolutionSubmit (bech32 addr) (index addr) challengeId nonce);
    OpSubmitSolution (bech32 addr) nonce hash isDevFee ].

(** The error that the [try] block of [submitSolution] throws for an
    answer of the server, if it throws. *)
Definition rejection (answer : PostOutcome) : option JsError :=
  match answer with
  | Responded st text _ msg =>
      if st <? 500
      then if accepted st then None
           else Some (plainError ("Server rejected solution: " +:+ pretty st
                                  +:+ " " +:+ text))
      else Some {| message := "Request failed with status code " +:+ pretty st;
                   response_status := Some st;
                   response_message := msg |}
  | NoResponse msg => Some (plainError msg)
  end.

End Orchestrator.


(* ===================================================================== *)
(** ** The scheduler's entry, the statistics and the dashboard log        *)
(* ===================================================================== *)

Module Scheduler.
Import JS Orchestrator.

(** [startMining] up to its batch loop (lines 459-496). The result is the
    list of slices that the loop of lines 498-509 walks, in order, as long
    as it is not left by its [break]; an empty list when the method
    returns at one of its two early exits. *)
Definition startMining_begin : M (list (list DerivedAddress)) :=
  s <- get ;;
  if isMining s
     || negb (match currentChallenge s with Some _ => true | None => false end)
     || negb (truthyId (currentChallengeId s))
  then ret []
  else
    modify (set_isMining true) ;;
    emit (EvStatus true (currentChallengeId s)) ;;
    modify (set_totalHashesComputed 0) ;;
    t <- now ;;
    modify (set_lastHashRateUpdate t) ;;
    s' <- get ;;
    let toMine := addressesToMine (default "" (currentChallengeId s')) s' in
    if (length toMine =? 0)%nat
    then modify (set_isMining false) ;; ret []
    else ret (batches toMine).

End Scheduler.

Module Stats.
Import Orchestrator.

Record TimePeriodSolutions := {
  thisHour : Z;
  previousHour : Z;
  today : Z;
  yesterday : Z;
}.

Definition oneHour : Z := 60 * 60 * 1000.

(** One turn of the loop of lines 304-324. *)
Definition countSolution (currentHourStart previousHourStart todayStart
    yesterdayStart : Z) (acc : TimePeriodSolutions) (ts : Z)
  : TimePeriodSolutions :=
  let acc1 :=
    if currentHourStart <=? ts
    then {| thisHour := thisHour acc + 1; previousHour := previousHour acc;
            today := today acc; yesterday := yesterday acc |}
    else if (previousHourStart <=? ts) && (ts <? currentHourStart)
    then {| thisHour := thisHour acc; previousHour := previousHour acc + 1;
            today := today acc; yesterday := yesterday acc |}
    else acc in
  if todayStart <=? ts
  then {| thisHour := thisHour acc1; previousHour := previousHour acc1;
          today := today acc1 + 1; yesterday := yesterday acc1 |}
  else if (yesterdayStart <=? ts) && (ts <? todayStart)
  then {| thisHour := thisHour acc1; previousHour := previousHour acc1;
          today := today acc1; yesterday := yesterday acc1 + 1 |}
  else acc1.

(** [calculateTimePeriodSolutions] at time [now]. [todayStart] is the
    local midnight that [new Date(y, m, d).getTime()] returns for the
    date of [now]; it depends on the time zone of the host. *)
Definition calculateTimePeriodSolutions (now todayStart : Z)
    (solutionTimestamps : list Z) : TimePeriodSolutions :=
  let currentHourStart := now / oneHour * oneHour in
  let previousHourStart := currentHourStart - oneHour in
  let yesterdayStart := todayStart - 24 * 60 * 60 * 1000 in
  fold_left
    (countSolution currentHourStart previousHourStart todayStart yesterdayStart)
    solutionTimestamps
    {| thisHour := 0; previousHour := 0; today := 0; yesterday := 0 |}.

End Stats.

Module Dashboard.





(** The numbers that [formatUptime] prints (lines 558-570). *)
Inductive Shown :=
| HoursMinutes (hours minutes : Z)
| MinutesSeconds (minutes seconds : Z)
| Seconds (seconds : Z).

(** [minutes % 60] and [seconds % 60] are computed for a positive
    left-hand side only, where JavaScript's remainder is the modulus. *)
Definition uptimeShown (ms : Z) : Shown :=
  let seconds := ms / 1000 in
  let minutes := seconds / 60 in
  let hours := minutes / 60 in
  if hours >? 0 then HoursMinutes hours (minutes mod 60)
  else if minutes >? 0 then MinutesSeconds minutes (seconds mod 60)
  else Seconds seconds.

Definition render (shown : Shown) : string :=
  match shown with
  | HoursMinutes hours minutes => pretty hours +:+ "h " +:+ pretty minutes +:+ "m"
  | MinutesSeconds minutes seconds =>
      pretty minutes +:+ "m " +:+ pretty seconds +:+ "s"
  | Seconds seconds => pretty seconds +:+ "s"
  end.

Definition formatUptime (ms : Z) : string := render (uptimeShown ms).

End Dashboard.

(* ===================================================================== *)
(** ** What every method preserves                                        *)
(* ===================================================================== *)

Module Frame.
Import Orchestrator.

(** From one world to a later one: the trace is extended, no solved pair
    is lost, the configuration of the fee manager is the same and its
    count of paid fee solutions has not decreased. *)
Definition grows (w w' : World) : Prop :=
  (exists ops, trace w' = trace w ++ ops) /\
  (forall a c, hasSolved a c (self w) = true -> hasSolved a c (self w') = true) /\
  DevFee.config (fee w') = DevFee.config (fee w) /\
  DevFee.getTotalDevFeeSolutions (fee w) <= DevFee.getTotalDevFeeSolutions (fee w').

Definition keeps {A} (m : M A) : Prop := forall w, grows w (snd (m w)).

(** The call comes to an end, with a result or an exception. *)
Definition settles {A} (m : M A) : Prop := forall w, fst (m w) <> Suspended.


Definition isRegister (o : Op) : bool :=
  match o with OpRegister _ => true | _ => false end.

(** A cached address used [n] times more. *)
Definition usedMore (n : nat) (c : DevFee.DevFeeAddress) : DevFee.DevFeeAddress :=
  {| DevFee.address := DevFee.address c;
     DevFee.addressIndex := DevFee.addressIndex c;
     DevFee.fetchedAt := DevFee.fetchedAt c;
     DevFee.usedCount := DevFee.usedCount c + Z.of_nat n |}.

End Frame.

(* ===================================================================== *)
(** ** Sample inputs                                                      *)
(* ===================================================================== *)

Module Samples.
Import DevFee Orchestrator.

Definition staleManager (isOn : bool) : DevFeeManager :=
  {| config := {| enabled := isOn;
                  apiUrl := "https://miner.ada.markets/api/get-dev-address";
                  ratio := 25; cacheFile := ".devfee_cache.json";
                  clientId := "desktop-00" |};
     cache := {| currentAddress :=
                   Some {| address := "addr1cached"; addressIndex := 3;
                           fetchedAt := 0; usedCount := 1 |};
                 totalDevFeeSolutions := 1;
                 lastFetchError := None;
                 cachedClientId := Some "desktop-00"%string |} |}.


Definition alice : DerivedAddress :=
  {| index := 0; bech32 := "addr1alice"; publicKeyHex := "a0"; registered := true |}.

Definition bob : DerivedAddress :=
  {| index := 1; bech32 := "addr1bob"; publicKeyHex := "b0"; registered := false |}.

Definition challengeC10 : Challenge :=
  {| challenge_id := "**D07C10"; difficulty := "000FFFFF"; no_pre_mine := false |}.

Definition challengeC11 : Challenge :=
  {| challenge_id := "**D07C11"; difficulty := "000FFFFF"; no_pre_mine := false |}.

Definition userReceipt : Receipt :=
  {| r_ts := 1000; r_address := "addr1alice"; r_challenge_id := "**D07C10";
     r_nonce := "00a1b2c3d4e5f607"; r_hash := "hash-1";
     r_crypto_receipt := Some "receipt-1"%string; r_isDevFee := false |}.

Definition feeReceipt : Receipt :=
  {| r_ts := 2000; r_address := "addr1fee"; r_challenge_id := "**D07C10";
     r_nonce := "00ffeeddccbbaa99"; r_hash := "hash-fee";
     r_crypto_receipt := Some "receipt-2"%string; r_isDevFee := true |}.

Definition sampleStartEnv : StartEnv :=
  {| loadWallet := fun _ => Ok [alice; bob];
     journal := Ok [userReceipt; feeReceipt];
     registration := fun _ => Ok tt |}.

(** The manager as the module creates it. *)
Definition freshManager : DevFeeManager :=
  devFeeManager (fun _ => None) "desktop-00" ".devfee_cache.json".

Definition stoppedWorld : World :=
  {| self := initial; fee := freshManager; clock := 5000; trace := [] |}.

(** An orchestrator that runs and mines challenge [**D07C10]. *)
Definition miningState : State :=
  set_isMining true
    (set_currentChallenge (Some challengeC10)
      (set_currentChallengeId (Some "**D07C10"%string)
        (set_walletManager true
          (set_addresses [alice; markRegistered bob]
            (set_isRunning true initial))))).

Definition runningWorld : World :=
  {| self := miningState; fee := freshManager; clock := 5000; trace := [] |}.

(** The same orchestrator after [alice] solved [**D07C10] with digest
    [hash-1]. *)
Definition solvedState : State :=
  set_addressesProcessed {[0]}
    (markSolved "addr1alice" "**D07C10" (addSubmitted "hash-1" miningState)).

Definition solvedWorld : World :=
  {| self := solvedState; fee := freshManager; clock := 9000; trace := [] |}.


(** The server answers 409 to the POST. *)
Definition conflictAnswer : SubmitEnv :=
  {| post := Responded 409 "Conflict" None (Some "Solution already exists"%string);
     during_post := [] |}.

(** The POST times out; meanwhile the poller has seen a new challenge. *)
Definition timeoutAnswer : SubmitEnv :=
  {| post := NoResponse "timeout of 30000ms exceeded";
     during_post := [CClock 39000; CNewChallenge challengeC11] |}.

Definition acceptedAnswer : SubmitEnv :=
  {| post := Responded 201 "Created" (Some "receipt-9"%string) None;
     during_post := [CClock 5100] |}.

(** A difficulty test and a preimage builder to run the miner with. *)
Definition leadingZeros (hash difficulty : string) : bool :=
  JS.startsWith "000" hash.

Definition concatPreimage (nonce address : string) (current : option Challenge)
  : string :=
  nonce +:+ address +:+
  match current with Some c => challenge_id c | None => "" end.

(** Round [i] of a fee catch-up: the assignment service names
    [addr1fee]; of the thousand digests of the first batch the second
    one meets the difficulty; the server accepts the submission. *)
Definition feeRound (i : nat) : FeeRound :=
  {| fee_api :=
       DevFee.ApiResponse
         {| DevFee.devAddress := "addr1fee"; DevFee.devAddressIndex := 7;
            DevFee.isNewAssignment := false |};
     fee_mining :=
       {| romReady := true;
          steps := [ {| random := fun k _ => Z.of_nat (S i + k);
                        during_hash := [];
                        hashes := Ok ("9f3e"%string :: ("000c" +:+ pretty i)
                                        :: repeat "77aa"%string 998) |} ];
          submission := acceptedAnswer |} |}.

(** Fifty user solutions and no fee solution paid: two fee solutions are
    owed. *)
Definition owingWorld : World :=
  {| self := set_userSolutionsCount 50 miningState; fee := freshManager;
     clock := 5000; trace := [] |}.

(** The same catch-up when the assignment service is down in the first
    round (and nothing is cached yet). *)
Definition feeRoundAfterOutage (i : nat) : FeeRound :=
  match i with
  | O => {| fee_api := DevFee.ApiFailure "connect ECONNREFUSED";
            fee_mining := fee_mining (feeRound 0) |}
  | S _ => feeRound i
  end.

Definition assignmentAnswer : DevFee.ApiOutcome :=
  DevFee.ApiResponse
    {| DevFee.devAddress := "addr1fee"; DevFee.devAddressIndex := 7;
       DevFee.isNewAssignment := false |}.

(** A miner that finds nothing in its first batch and, in the second, a
    digest that meets the difficulty; the server rejects it with 409. *)
Definition rejectedMining : MineEnv :=
  {| romReady := true;
     steps :=
       [ {| random := fun k _ => Z.of_nat (1 + k);
            during_hash := [];
            hashes := Ok (repeat "77aa"%string 1000) |};
         {| random := fun k _ => Z.of_nat (2 + k);
            during_hash := [];
            hashes := Ok ("9f3e"%string :: "000a77"%string
                            :: repeat "77aa"%string 998) |} ];
     submission := conflictAnswer |}.


(** A poll tick that finds challenge [**D07C11] while the hash engine
    fails to build its ROM. *)
Definition brokenRomPoll : PollEnv :=
  {| fetched := Ok {| code := active; challenge := Some challengeC11;
                      starts_at := None |};
     initRom := Throw "ROM allocation failed";
     isRomReady := fun _ => false |}.

(** A round of hashing during which the poller switches to challenge
    [**D07C11]; the first digest returned meets the difficulty. *)
Definition lateStep : MineStep :=
  {| random := fun k _ => Z.of_nat (1 + k);
     during_hash := [CNewChallenge challengeC11];
     hashes := Ok ("000a77"%string :: repeat "77aa"%string 999) |}.

(** A round in which the hash service is unreachable. *)
Definition failingStep : MineStep :=
  {| random := fun k _ => Z.of_nat (1 + k);
     during_hash := [CClock 5200];
     hashes := Throw "connect ECONNREFUSED 127.0.0.1:9001" |}.
End Samples.

(* ===================================================================== *)
(** * Properties                                                          *)
(* ===================================================================== *)

(** ** Nonces *)

Section NonceFacts.
Import JS Nonce.

Lemma length_append (s t : string) :
  String.length (s +:+ t) = (String.length s + String.length t)%nat.
Proof. induction s as [|c s IH]; simpl; [reflexivity | now rewrite IH]. Qed.










Lemma uint8_range v : 0 <= uint8 v < 256.
Proof. unfold uint8. apply Z.mod_pos_bound. lia. Qed.

Lemma byteHex_shape b :
  0 <= b < 256 ->
  byteHex b = String (digitChar (b / 16)) (String (digitChar (b mod 16)) EmptyString).
Proof.
  intros Hb.
  assert (Htable :
    forallb (fun n => String.eqb (byteHex (Z.of_nat n))
               (String (digitChar (Z.of_nat n / 16))
                  (String (digitChar (Z.of_nat n mod 16)) EmptyString)))
      (seq 0 256) = true) by (vm_compute; reflexivity).
  rewrite forallb_forall in Htable.
  specialize (Htable (Z.to_nat b)).
  rewrite Z2Nat.id in Htable by lia.
  apply String.eqb_eq, Htable, in_seq. lia.
Qed.

Lemma nonceBytes_range random workerId :
  Forall (fun b => 0 <= b < 256) (nonceBytes random workerId).
Proof.
  unfold nonceBytes. constructor; [apply uint8_range |].
  apply Forall_map, Forall_forall. intros i _. apply uint8_range.
Qed.

Lemma nonceBytes_length random workerId :
  length (nonceBytes random workerId) = 8%nat.
Proof. reflexivity. Qed.

Lemma join_byteHex_length bytes :
  Forall (fun b => 0 <= b < 256) bytes ->
  String.length (join (map byteHex bytes)) = (2 * length bytes)%nat.
Proof.
  induction 1 as [|b bytes Hb _ IH]; [reflexivity |].
  cbn [map join length]. rewrite length_append, IH, (byteHex_shape b Hb).
  simpl. lia.
Qed.


(** [generateNonce] never takes its guard: it returns the sixteen
    characters of its eight bytes. *)
Lemma generateNonce_returns random workerId :
  generateNonce random workerId
  = Ok (join (map byteHex (nonceBytes random workerId))).
Proof.
  unfold generateNonce.
  rewrite (join_byteHex_length _ (nonceBytes_range random workerId)).
  reflexivity.
Qed.

Lemma hexCharValue_digitChar d :
  0 <= d < 16 -> hexCharValue (digitChar d) = d.
Proof.
  intros Hd.
  assert (Htable : forallb (fun n => hexCharValue (digitChar (Z.of_nat n))
                                    =? Z.of_nat n) (seq 0 16) = true)
    by (vm_compute; reflexivity).
  rewrite forallb_forall in Htable.
  specialize (Htable (Z.to_nat d)).
  rewrite Z2Nat.id in Htable by lia.
  apply Z.eqb_eq, Htable, in_seq. lia.
Qed.

Lemma hexValueFrom_append acc s t :
  hexValueFrom acc (s +:+ t) = hexValueFrom (hexValueFrom acc s) t.
Proof. revert acc. induction s as [|c s IH]; intros acc; simpl; [reflexivity | apply IH]. Qed.

Lemma hexValueFrom_byteHex acc b :
  0 <= b < 256 -> hexValueFrom acc (byteHex b) = 256 * acc + b.
Proof.
  intros Hb. rewrite (byteHex_shape b Hb). simpl.
  rewrite !hexCharValue_digitChar.
  - pose proof (Z.div_mod b 16 ltac:(lia)). lia.
  - apply Z.mod_pos_bound. lia.
  - split; [apply Z.div_pos; lia | apply Z.div_lt_upper_bound; lia].
Qed.

(** Eight hexadecimal bytes read back as a number: the bytes in
    big-endian order. *)
Lemma hexValueFrom_bytes bytes : forall acc bound,
  Forall (fun b => 0 <= b < 256) bytes ->
  0 <= acc < bound ->
  0 <= hexValueFrom acc (join (map byteHex bytes))
     < bound * 256 ^ Z.of_nat (length bytes).
Proof.
  induction bytes as [|b bytes IH]; intros acc bound Hall Hacc.
  - simpl. lia.
  - inversion Hall as [|? ? Hb Hrest]; subst.
    cbn [map join]. rewrite hexValueFrom_append, hexValueFrom_byteHex by assumption.
    cbn [length]. rewrite Nat2Z.inj_succ, Z.pow_succ_r by lia.
    specialize (IH (256 * acc + b) (bound * 256) Hrest ltac:(lia)). lia.
Qed.

End NonceFacts.

Lemma land_255_range workerId : 0 <= Z.land workerId 255 < 256.
Proof.
  split.
  - apply Z.land_nonneg. right. lia.
  - change 255 with (Z.ones 8). rewrite Z.land_ones by lia.
    apply Z.mod_pos_bound. lia.
Qed.

Lemma generateNonce_first_byte random workerId :
  exists tail,
    Nonce.generateNonce random workerId
    = Ok (Nonce.byteHex (Z.land workerId 255) +:+ tail)
    /\ String.length tail = 14%nat.
Proof.
  rewrite generateNonce_returns. unfold Nonce.nonceBytes.
  set (rest := map (fun i => Nonce.uint8 (random i)) (seq 1 7)).
  exists (JS.join (map Nonce.byteHex rest)). split.
  - cbn [map JS.join]. unfold Nonce.uint8 at 1.
    rewrite Z.mod_small by apply land_255_range. reflexivity.
  - rewrite join_byteHex_length; [reflexivity |].
    apply Forall_map, Forall_forall. intros i _. apply uint8_range.
Qed.

(** With the default worker id the nonce starts with [00] and, read as a
    number, is below [2^56]. *)
Lemma generateNonce_default_shape random :
  exists nonce,
    Nonce.generateNonce_default random = Ok nonce /\
    JS.startsWith "00" nonce = true /\
    0 <= JS.hexValue nonce < 2 ^ 56.
Proof.
  unfold Nonce.generateNonce_default. rewrite generateNonce_returns.
  eexists. split; [reflexivity |]. unfold Nonce.nonceBytes.
  set (rest := map (fun i => Nonce.uint8 (random i)) (seq 1 7)).
  assert (Hrest : Forall (fun b => 0 <= b < 256) rest).
  { apply Forall_map, Forall_forall. intros i _. apply uint8_range. }
  change (Nonce.uint8 (Z.land 0 255)) with 0.
  change (map Nonce.byteHex (0 :: rest))
    with (Nonce.byteHex 0 :: map Nonce.byteHex rest).
  cbn [JS.join]. change (Nonce.byteHex 0) with "00"%string.
  split; [reflexivity |].
  unfold JS.hexValue. rewrite hexValueFrom_append.
  change (JS.hexValueFrom 0 "00") with 0.
  pose proof (hexValueFrom_bytes rest 0 1 Hrest ltac:(lia)) as Hv.
  change (1 * 256 ^ Z.of_nat (length rest)) with (2 ^ 56) in Hv.
  exact Hv.
Qed.



(** Beyond sixty-four bits the rendering is longer than sixteen. *)
Example numberToNonce_2_64 :
  Nonce.numberToNonce (2 ^ 64) = "10000000000000000"%string.
Proof. vm_compute. reflexivity. Qed.

Example generateNonce_sample :
  Nonce.generateNonce (fun i => Z.of_nat i * 37) 3 = Ok "03254a6f94b9de03"%string.
Proof. vm_compute. reflexivity. Qed.

(** Building a batch never fails, and each of its nonces has the default
    worker byte. *)
Lemma buildBatch_returns buildPreimage draws addr challengeId s remaining :
  forall i,
  exists batch,
    Orchestrator.buildBatch buildPreimage draws addr challengeId s i remaining
    = Ok batch /\
    Forall (fun candidate =>
              JS.startsWith "00" (Orchestrator.nonce candidate) = true /\
              0 <= JS.hexValue (Orchestrator.nonce candidate) < 2 ^ 56)
           batch.
Proof.
  induction remaining as [|remaining IH]; intros i.
  - exists []. split; [reflexivity | constructor].
  - cbn [Orchestrator.buildBatch].
    destruct (negb (Orchestrator.stillMining challengeId s)).
    + exists []. split; [reflexivity | constructor].
    + destruct (generateNonce_default_shape (draws i)) as (nonce & -> & H00 & Hv).
      destruct (IH (S i)) as (rest & -> & Hrest).
      eexists. split; [reflexivity |]. constructor; [split; assumption | assumption].
Qed.

(** C8. The per-identity miner builds its candidates with
    [generateNonce()], the worker id defaulting to 0, and [generateNonce]
    sets the first byte of the nonce to the worker id; so every nonce of
    every batch begins with the two characters [00], and read as a number
    it stays below [2^56]: only the low 56 bits are drawn. *)
Theorem mining_nonces_begin_with_00 :
  (forall (random : nat -> Z) (workerId : Z),
     exists tail,
       Nonce.generateNonce random workerId
       = Ok (Nonce.byteHex (Z.land workerId 255) +:+ tail) /\
       String.length tail = 14%nat) /\
  (forall buildPreimage draws addr challengeId s i remaining,
     exists batch,
       Orchestrator.buildBatch buildPreimage draws addr challengeId s i remaining
       = Ok batch /\
       Forall (fun candidate =>
                 JS.startsWith "00" (Orchestrator.nonce candidate) = true /\
                 0 <= JS.hexValue (Orchestrator.nonce candidate) < 2 ^ 56)
              batch).
Proof.
  split; [apply generateNonce_first_byte |].
  intros. apply buildBatch_returns.
Qed.

(** ** The dev fee manager *)

Section DevFeeFacts.
Import DevFee Samples.

(** The manager that the orchestrator imports is built with no
    configuration: it is enabled and its ratio is 25. *)
Lemma devFeeManager_defaults disk generated cwdCacheFile :
  isEnabled (devFeeManager disk generated cwdCacheFile) = true /\
  getRatio (devFeeManager disk generated cwdCacheFile) = 25 /\
  getTotalDevFeeSolutions (devFeeManager disk generated cwdCacheFile) = 0.
Proof. repeat split. Qed.


Lemma freshAddress_cached now m a :
  freshAddress now m = Some a ->
  exists cached, currentAddress (cache m) = Some cached /\ address cached = a.
Proof.
  unfold freshAddress. destruct (currentAddress (cache m)) as [cached|]; [|discriminate].
  destruct (now - fetchedAt cached <? ONE_HOUR); [|discriminate].
  intros [= <-]. eauto.
Qed.




End DevFeeFacts.

(** ** The orchestrator *)

Section OrchestratorFacts.
Import Orchestrator Samples.

(** Membership in an explicit list. *)
Ltac find_in :=
  cbn [In app]; repeat first [left; reflexivity | right].

(** The equations of the monad. *)
Lemma bind_get {B} (k : State -> M B) w : bind get k w = k (self w) w.
Proof. reflexivity. Qed.

Lemma bind_perform {B} o (k : unit -> M B) w :
  bind (perform o) k w = k tt (record o w).
Proof. reflexivity. Qed.

Lemma bind_emit {B} e (k : unit -> M B) w :
  bind (emit e) k w = k tt (record (OpEmit e) w).
Proof. reflexivity. Qed.

Lemma bind_modify {B} f (k : unit -> M B) w :
  bind (modify f) k w = k tt (onSelf f w).
Proof. reflexivity. Qed.

Lemma bind_ret {A B} (a : A) (k : A -> M B) w : bind (ret a) k w = k a w.
Proof. reflexivity. Qed.

Lemma bind_bind {A B C} (m : M A) (k : A -> M B) (k' : B -> M C) w :
  bind (bind m k) k' w = bind m (fun a => bind (k a) k') w.
Proof. unfold bind. destruct (m w) as [[a|e|] w1]; reflexivity. Qed.

Lemma bind_run {A B} (m : M A) (k : A -> M B) w a w1 :
  m w = (Done a, w1) -> bind m k w = k a w1.
Proof. unfold bind. now intros ->. Qed.

Lemma bind_now {B} (k : Z -> M B) w : bind now k w = k (clock w) w.
Proof. reflexivity. Qed.

Lemma bind_raise {A B} e (k : A -> M B) w : bind (raise e) k w = (Raised e, w).
Proof. reflexivity. Qed.

Lemma tryCatch_done {A} (body : M A) handler w a w1 :
  body w = (Done a, w1) -> tryCatch body handler w = (Done a, w1).
Proof. unfold tryCatch. now intros ->. Qed.

Lemma tryCatch_raised {A} (body : M A) handler w e w1 :
  body w = (Raised e, w1) -> tryCatch body handler w = handler e w1.
Proof. unfold tryCatch. now intros ->. Qed.

(** Evaluate the straight-line prefix of a computation. *)
Ltac mrun :=
  repeat (cbv beta;
          first [ rewrite bind_bind | rewrite bind_perform | rewrite bind_emit
                | rewrite bind_modify | rewrite bind_get | rewrite bind_ret
                | rewrite bind_now | rewrite bind_raise ]).

Lemma bind_tryCatch_done {A B} (body : M A) handler (k : A -> M B) w a w1 :
  body w = (Done a, w1) -> bind (tryCatch body handler) k w = k a w1.
Proof. unfold bind, tryCatch. now intros ->. Qed.

Lemma bind_tryCatch_raised {A B} (body : M A) handler (k : A -> M B) w e w1 :
  body w = (Raised e, w1) ->
  bind (tryCatch body handler) k w = bind (handler e) k w1.
Proof. unfold bind, tryCatch. now intros ->. Qed.


Lemma performed_app {A} (m : M A) (w : World) (ops : list Op) :
  trace (snd (m w)) = trace w ++ ops -> performed m w = ops.
Proof. intros H. unfold performed. rewrite H. apply drop_app_length. Qed.

(** *** The dedup structures only grow by additions *)

Lemma hasSolved_markSolved a c a' c' s :
  hasSolved a c (markSolved a' c' s) = true <->
  (a = a' /\ c = c') \/ hasSolved a c s = true.
Proof.
  unfold hasSolved, markSolved. cbn [solvedAddressChallenges set_solved].
  destruct (decide (a = a')) as [->|Hne].
  - rewrite lookup_insert_eq, bool_decide_eq_true.
    destruct (solvedAddressChallenges s !! a') as [solved|] eqn:Hlook.
    + rewrite Hlook. cbn [default]. rewrite bool_decide_eq_true. set_solver.
    + rewrite lookup_insert_eq. cbn [default]. set_solver.
  - rewrite lookup_insert_ne by congruence.
    destruct (solvedAddressChallenges s !! a') as [solved|] eqn:Hlook.
    + naive_solver.
    + rewrite lookup_insert_ne by congruence. naive_solver.
Qed.

Lemma hasSolved_markSolved_same a c s : hasSolved a c (markSolved a c s) = true.
Proof. apply hasSolved_markSolved. now left. Qed.

Lemma hasSolved_markSolved_mono a c a' c' s :
  hasSolved a c s = true -> hasSolved a c (markSolved a' c' s) = true.
Proof. intros H. apply hasSolved_markSolved. now right. Qed.

Lemma elem_of_addSubmitted h h' s :
  h ∈ submittedSolutions (addSubmitted h' s) <->
  h = h' \/ h ∈ submittedSolutions s.
Proof. unfold addSubmitted. cbn [submittedSolutions set_submittedSolutions]. set_solver. Qed.

(** No write of another task removes a solved pair. *)
Lemma hasSolved_concurrent a c other w :
  hasSolved a c (self w) = true -> hasSolved a c (self (concurrent other w)) = true.
Proof.
  intros H. destruct other as [| |ch|h|a' c'|[]|t]; cbn; try assumption.
  now apply hasSolved_markSolved_mono.
Qed.

Lemma hasSolved_resume a c during : forall w,
  hasSolved a c (self w) = true -> hasSolved a c (self (resume during w)) = true.
Proof.
  unfold resume. induction during as [|other during IH]; intros w H; cbn [fold_left].
  - assumption.
  - apply IH. now apply hasSolved_concurrent.
Qed.

Lemma trace_concurrent other w : trace (concurrent other w) = trace w.
Proof. destruct other as [| |ch|h|a' c'|[]|t]; reflexivity. Qed.

Lemma trace_resume during : forall w, trace (resume during w) = trace w.
Proof.
  unfold resume. induction during as [|other during IH]; intros w; cbn [fold_left].
  - reflexivity.
  - rewrite IH. apply trace_concurrent.
Qed.


(** *** [start] *)

(** C9. Calling [start] while the orchestrator is running returns without
    error and does nothing: the wallet is not reloaded, polling is not
    restarted, and every field of the orchestrator (current challenge,
    counters, dedup sets) is left as it was. *)
Theorem start_while_running_is_noop (env : StartEnv) (password : string)
    (w : World) (Hrunning : isRunning (self w) = true) :
  start env password w = (Done tt, w).
Proof. unfold start, bind, get. rewrite Hrunning. reflexivity. Qed.

Lemma start_while_running_is_noop_witness :
  start sampleStartEnv "hunter2" runningWorld = (Done tt, runningWorld).
Proof. exact (start_while_running_is_noop sampleStartEnv "hunter2" runningWorld eq_refl). Defined.

(** When it is not running, [start] does load the wallet and start the
    poll loop. *)
Example start_when_stopped :
  performed (start sampleStartEnv "hunter2") stoppedWorld
  = [ OpLoadWallet;
      OpSubmittedAdd "hash-1"; OpSolvedAdd "addr1alice" "**D07C10";
      OpEmit (EvRegistrationProgress 1 "addr1bob" 0 1 false);
      OpRegister 1;
      OpEmit (EvRegistrationProgress 1 "addr1bob" 1 1 true);
      OpSleep 1500;
      OpSpawnPollLoop;
      OpEmit (EvStatus true None) ]
  /\ isRunning (self (snd (start sampleStartEnv "hunter2" stoppedWorld))) = true
  /\ map registered (addresses (self (snd (start sampleStartEnv "hunter2" stoppedWorld))))
     = [true; true].
Proof. vm_compute. repeat split. Qed.

(** *** [loadSubmittedSolutions] *)

Lemma loadReceipt_run receipt w :
  exists w1,
    loadReceipt receipt w = (Done tt, w1) /\
    self w1 =
      markSolved (r_address receipt) (r_challenge_id receipt)
        (if JS.truthy (r_hash receipt)
         then addSubmitted (r_hash receipt) (self w) else self w).
Proof.
  unfold loadReceipt, submittedSolutions_add, solvedAddressChallenges_add.
  destruct (JS.truthy (r_hash receipt)); eexists; split; reflexivity.
Qed.

Lemma forEach_loadReceipt receipts : forall w,
  exists w',
    forEach receipts loadReceipt w = (Done tt, w') /\
    (forall h, h ∈ submittedSolutions (self w') <->
       h ∈ submittedSolutions (self w) \/
       exists r, In r receipts /\ JS.truthy (r_hash r) = true /\ r_hash r = h) /\
    (forall a c, hasSolved a c (self w') = true <->
       hasSolved a c (self w) = true \/
       exists r, In r receipts /\ r_address r = a /\ r_challenge_id r = c) /\
    userSolutionsCount (self w') = userSolutionsCount (self w).
Proof.
  induction receipts as [|receipt receipts IH]; intros w.
  - exists w. cbn [forEach In]. repeat split; try tauto.
    + intros [?|(r & [] & _)]. assumption.
    + intros [?|(r & [] & _)]. assumption.
  - destruct (loadReceipt_run receipt w) as (w1 & Hrun & Hself).
    destruct (IH w1) as (w' & Hrest & Hsub & Hsol & Hcount).
    exists w'. cbn [forEach]. unfold bind at 1. rewrite Hrun.
    split; [exact Hrest |]. split; [| split].
    + intros h. rewrite Hsub, Hself.
      cbn [submittedSolutions markSolved set_solved].
      destruct (JS.truthy (r_hash receipt)) eqn:Htruthy.
      * rewrite elem_of_addSubmitted. cbn [In]. split.
        -- intros [[->|?]|(r & ? & ? & ?)]; eauto 8.
        -- intros [?|(r & [<-|?] & ? & ?)]; eauto 8.
      * cbn [In]. split.
        -- intros [?|(r & ? & ? & ?)]; eauto 8.
        -- intros [?|(r & [<-|?] & ? & ?)]; [eauto | congruence | eauto 8].
    + intros a c. rewrite Hsol, Hself, hasSolved_markSolved.
      assert (Hsame : hasSolved a c
                (if JS.truthy (r_hash receipt)
                 then addSubmitted (r_hash receipt) (self w) else self w)
              = hasSolved a c (self w))
        by (destruct (JS.truthy (r_hash receipt)); reflexivity).
      rewrite Hsame. cbn [In]. split.
      * intros [[[-> ->]|?]|(r & ? & ? & ?)].
        -- right. exists receipt. auto.
        -- now left.
        -- right. exists r. auto.
      * intros [?|(r & [<-|?] & <- & <-)].
        -- left. now right.
        -- left. left. split; reflexivity.
        -- right. exists r. auto.
    + rewrite Hcount, Hself.
      destruct (JS.truthy (r_hash receipt)); reflexivity.
Qed.

Lemma In_userReceiptsOf r allReceipts :
  In r (userReceiptsOf allReceipts) <-> In r allReceipts /\ r_isDevFee r = false.
Proof.
  unfold userReceiptsOf. rewrite filter_In.
  destruct (r_isDevFee r); cbn [negb]; intuition congruence.
Qed.

(** C2, as the code has it. After the startup load of the receipt
    journal the Submitted-Hash Set holds, besides what it held, exactly
    the non-empty hashes of the non-fee receipts, and the Solved-Pairs Map
    holds, besides what it held, exactly the (identity, challenge id)
    pairs of the non-fee receipts: fee receipts add nothing to either.
    The user-solutions counter equals the number of non-fee receipts. *)
Theorem load_rebuilds_from_user_receipts (allReceipts : list Receipt) (w : World) :
  exists w',
    loadSubmittedSolutions (Ok allReceipts) w = (Done tt, w') /\
    (forall h, h ∈ submittedSolutions (self w') <->
       h ∈ submittedSolutions (self w) \/
       exists r, In r allReceipts /\ r_isDevFee r = false /\
                 JS.truthy (r_hash r) = true /\ r_hash r = h) /\
    (forall a c, hasSolved a c (self w') = true <->
       hasSolved a c (self w) = true \/
       exists r, In r allReceipts /\ r_isDevFee r = false /\
                 r_address r = a /\ r_challenge_id r = c) /\
    userSolutionsCount (self w')
    = Z.of_nat (length (List.filter (fun r => negb (r_isDevFee r)) allReceipts)).
Proof.
  unfold loadSubmittedSolutions, tryCatch, bind, modify.
  destruct (forEach_loadReceipt (userReceiptsOf allReceipts)
              (onSelf (set_userSolutionsCount
                         (Z.of_nat (length (userReceiptsOf allReceipts)))) w))
    as (w' & Hrun & Hsub & Hsol & Hcount).
  exists w'. rewrite Hrun. split; [reflexivity |]. split; [| split].
  - intros h. rewrite Hsub. cbn. split.
    + intros [?|(r & [? ?]%In_userReceiptsOf & ? & ?)]; eauto 8.
    + intros [?|(r & ? & ? & ? & ?)]; [eauto |].
      right. exists r. rewrite In_userReceiptsOf. eauto.
  - intros a c. rewrite Hsol. cbn. split.
    + intros [?|(r & [? ?]%In_userReceiptsOf & ? & ?)]; eauto 8.
    + intros [?|(r & ? & ? & ? & ?)]; [eauto |].
      right. exists r. rewrite In_userReceiptsOf. eauto.
  - rewrite Hcount. reflexivity.
Qed.

(** A fee receipt of the journal leaves no trace in the rebuilt
    structures: C2 as written fails on it. *)
Lemma load_skips_fee_receipts :
  let w' := snd (loadSubmittedSolutions (Ok [userReceipt; feeReceipt]) stoppedWorld) in
  In feeReceipt [userReceipt; feeReceipt] /\
  bool_decide (r_hash feeReceipt ∈ submittedSolutions (self w')) = false /\
  hasSolved (r_address feeReceipt) (r_challenge_id feeReceipt) (self w') = false /\
  userSolutionsCount (self w') = 1.
Proof. vm_compute. repeat split. right. now left. Qed.

(** A journal that cannot be read leaves the orchestrator as it was. *)
Lemma load_failure_is_swallowed msg w :
  loadSubmittedSolutions (Throw msg) w
  = (Done tt, record (OpConsole "Failed to load submitted solutions") w).
Proof. reflexivity. Qed.

(** *** [pollAndMine] *)



Lemma pollAndMine_new_challenge env response found w :
  fetched env = Ok response -> code response = active ->
  challenge response = Some found ->
  Some (challenge_id found) <> currentChallengeId (self w) ->
  pollAndMine env w = newChallengeTransition env found w.
Proof.
  intros Hfetched Hactive Hchallenge Hnew.
  unfold pollAndMine. rewrite Hfetched, Hactive, Hchallenge.
  unfold bind at 1, get. now rewrite bool_decide_eq_false_2 by exact Hnew.
Qed.




(** On every other tick the sets are left as they were. *)
Lemma poll_without_new_challenge_keeps_sets env w :
  match fetched env with
  | Ok response =>
      match code response, challenge response with
      | active, Some found =>
          Some (challenge_id found) = currentChallengeId (self w)
      | _, _ => True
      end
  | Throw _ => True
  end ->
  let w' := snd (pollAndMine env w) in
  addressesProcessedCurrentChallenge (self w')
  = addressesProcessedCurrentChallenge (self w) /\
  submittedSolutions (self w') = submittedSolutions (self w) /\
  solvedAddressChallenges (self w') = solvedAddressChallenges (self w).
Proof.
  unfold pollAndMine. destruct (fetched env) as [response|msg]; [| cbn; auto].
  destruct (code response); [cbn; auto | | ].
  - destruct (challenge response) as [found|]; [| cbn; auto].
    intros Hsame. unfold bind, get. rewrite bool_decide_eq_true_2 by exact Hsame.
    cbn. auto.
  - intros _. unfold stop, bind, get, modify, perform, emit, ret.
    cbn [fst snd onSelf self]. destruct (pollTimer _); cbn; auto.
Qed.

(** *** [submitSolution] *)

Lemma concurrent_record other o w :
  concurrent other (record o w) = record o (concurrent other w).
Proof. destruct other as [| |ch|h|a' c'|[]|t]; reflexivity. Qed.

Lemma resume_record during o : forall w,
  resume during (record o w) = record o (resume during w).
Proof.
  unfold resume. induction during as [|other during IH]; intros w; cbn [fold_left].
  - reflexivity.
  - now rewrite concurrent_record, IH.
Qed.

Lemma accepted_range st : accepted st = true <-> 200 <= st < 300.
Proof. unfold accepted. rewrite andb_true_iff, Z.leb_le, Z.ltb_lt. tauto. Qed.

Lemma rejection_None answer :
  rejection answer = None <->
  exists st text receipt msg,
    answer = Responded st text receipt msg /\ 200 <= st < 300.
Proof.
  destruct answer as [st text receipt msg|msg]; cbn [rejection].
  - destruct (Z.ltb_spec st 500) as [Hlt|Hge].
    + destruct (accepted st) eqn:Hacc.
      * apply accepted_range in Hacc. split; [eauto 8 | reflexivity].
      * split; [discriminate |]. intros (? & ? & ? & ? & [= -> _ _ _] & Hr).
        apply accepted_range in Hr. congruence.
    + split; [discriminate |]. intros (? & ? & ? & ? & [= -> _ _ _] & Hr). lia.
  - split; [discriminate | intros (? & ? & ? & ? & [=] & _)].
Qed.

Lemma axiosPost_run env w :
  axiosPost env w =
  match post env with
  | Responded st text receipt msg =>
      if st <? 500
      then (Done {| status := st; statusText := text; crypto_receipt := receipt |},
            resume (during_post env) w)
      else (Raised {| message := "Request failed with status code " +:+ pretty st;
                      response_status := Some st;
                      response_message := msg |},
            resume (during_post env) w)
  | NoResponse msg => (Raised (plainError msg), resume (during_post env) w)
  end.
Proof.
  unfold axiosPost, bind, await.
  destruct (post env) as [st text receipt msg|msg]; [destruct (st <? 500) |];
    reflexivity.
Qed.

(** The [try] block of [submitSolution] when the answer is a failure. *)
Lemma submit_try_rejected env (rest : Response -> M unit) w error :
  rejection (post env) = Some error ->
  bind (axiosPost env)
    (fun response =>
       bind (if accepted (status response) then ret tt
             else raise (plainError ("Server rejected solution: " +:+
                           pretty (status response) +:+ " " +:+
                           statusText response)))
         (fun _ => rest response)) w
  = (Raised error, resume (during_post env) w).
Proof.
  intros Hrej. unfold bind at 1. rewrite axiosPost_run.
  destruct (post env) as [st text receipt msg|msg]; cbn [rejection] in Hrej.
  - destruct (st <? 500).
    + cbn [status statusText]. destruct (accepted st); [discriminate |].
      injection Hrej as <-. reflexivity.
    + injection Hrej as <-. reflexivity.
  - injection Hrej as <-. reflexivity.
Qed.

(** A submission that fails: the error is caught inside [submitSolution];
    an error entry and a failure event are its only effects, and no field
    of the orchestrator is written. *)
Lemma submitSolution_rejected env addr nonce hash preimage isDevFee w error :
  truthyId (currentChallengeId (self w)) = true ->
  walletManager (self w) = true ->
  rejection (post env) = Some error ->
  let w1 := resume (during_post env) w in
  submitSolution env addr nonce hash preimage isDevFee w =
  (Done tt,
   {| self := self w1; fee := fee w1; clock := clock w1;
      trace := trace w ++
        [ OpSubmitSolution (bech32 addr) nonce hash isDevFee;
          OpPost (bech32 addr) (default "" (currentChallengeId (self w))) nonce;
          OpLogError {| e_ts := clock w1; e_address := bech32 addr;
                        e_challenge_id := currentChallengeId (self w1);
                        e_nonce := nonce; e_hash := hash;
                        e_error := errorText error;
                        e_response := response_message error |};
          OpLoggerError "Solution submission failed";
          OpEmit (EvSolutionResult (bech32 addr) (index addr) false
                    (detailedMessage error)) ] |}).
Proof.
  intros Hid Hwallet Hrej w1.
  unfold submitSolution. rewrite bind_perform, bind_get.
  cbn [self record]. rewrite Hid, Hwallet. cbn [negb orb].
  erewrite tryCatch_raised.
  2:{ rewrite bind_perform. apply submit_try_rejected. exact Hrej. }
  rewrite !resume_record. fold w1. mrun.
  unfold emit, perform. cbn [self clock record]. f_equal.
  unfold record. cbn [self fee clock trace]. f_equal.
  unfold w1. rewrite trace_resume, <- !app_assoc. reflexivity.
Qed.

(** A submission that is accepted. *)
Lemma submitSolution_accepted env addr nonce hash preimage isDevFee w
    st text receipt msg :
  truthyId (currentChallengeId (self w)) = true ->
  walletManager (self w) = true ->
  post env = Responded st text receipt msg ->
  accepted st = true ->
  let w1 := resume (during_post env) w in
  exists w',
    submitSolution env addr nonce hash preimage isDevFee w = (Done tt, w') /\
    trace w' = trace w ++
      [ OpSubmitSolution (bech32 addr) nonce hash isDevFee;
        OpPost (bech32 addr) (default "" (currentChallengeId (self w))) nonce ]
      ++ (if isDevFee then [] else [OpSpawnDevFeeCheck]) ++
      [ OpLogReceipt {| r_ts := clock w1; r_address := bech32 addr;
                        r_challenge_id := default "" (currentChallengeId (self w1));
                        r_nonce := nonce; r_hash := hash;
                        r_crypto_receipt := receipt;
                        r_isDevFee := isDevFee |};
        OpEmit (EvSolutionResult (bech32 addr) (index addr) true
                  "Solution accepted");
        OpEmit (EvSolution (bech32 addr) (currentChallengeId (self w1)) nonce) ] /\
    solutionsFound (self w') = solutionsFound (self w1) + 1 /\
    userSolutionsCount (self w')
    = userSolutionsCount (self w1) + (if isDevFee then 0 else 1) /\
    DevFee.getTotalDevFeeSolutions (fee w')
    = DevFee.getTotalDevFeeSolutions (fee w1) + (if isDevFee then 1 else 0) /\
    solvedAddressChallenges (self w') = solvedAddressChallenges (self w1) /\
    submittedSolutions (self w') = submittedSolutions (self w1).
Proof.
  intros Hid Hwallet Hpost Hacc w1.
  assert (Hvalid : (st <? 500) = true).
  { apply accepted_range in Hacc. apply Z.ltb_lt. lia. }
  unfold submitSolution. rewrite bind_perform, bind_get.
  cbn [self record]. rewrite Hid, Hwallet. cbn [negb orb].
  pose (w0 := record (OpPost (bech32 addr)
                            (default "" (currentChallengeId (self w))) nonce)
                 (record (OpSubmitSolution (bech32 addr) nonce hash isDevFee) w)).
  assert (Hw0 : resume (during_post env) w0
                = record (OpPost (bech32 addr)
                            (default "" (currentChallengeId (self w))) nonce)
                    (record (OpSubmitSolution (bech32 addr) nonce hash isDevFee) w1)).
  { unfold w0. now rewrite !resume_record. }
  destruct isDevFee.
  - eexists. split.
    + erewrite tryCatch_done; [reflexivity |].
      rewrite bind_perform. fold w0. unfold bind at 1.
      rewrite axiosPost_run, Hpost, Hvalid, Hw0.
      cbn [status statusText crypto_receipt]. rewrite Hacc.
      mrun. unfold bind at 1. mrun. reflexivity.
    + cbn [trace self fee clock record onSelf onFee emit perform snd].
      split; [unfold w1; rewrite trace_resume, <- !app_assoc; reflexivity |].
      cbn. repeat split; lia.
  - eexists. split.
    + erewrite tryCatch_done; [reflexivity |].
      rewrite bind_perform. fold w0. unfold bind at 1.
      rewrite axiosPost_run, Hpost, Hvalid, Hw0.
      cbn [status statusText crypto_receipt]. rewrite Hacc.
      mrun. reflexivity.
    + cbn [trace self fee clock record onSelf onFee emit perform snd].
      split; [unfold w1; rewrite trace_resume, <- !app_assoc; reflexivity |].
      cbn. repeat split; lia.
Qed.

Lemma submitSolution_skipped env addr nonce hash preimage isDevFee w :
  truthyId (currentChallengeId (self w)) = false \/ walletManager (self w) = false ->
  submitSolution env addr nonce hash preimage isDevFee w
  = (Done tt, record (OpSubmitSolution (bech32 addr) nonce hash isDevFee) w).
Proof.
  intros H. unfold submitSolution, bind at 1, perform at 1, bind at 1, get.
  cbn [self record].
  destruct H as [-> | ->]; [reflexivity |].
  now destruct (truthyId _).
Qed.

(** C5. For every HTTP status returned by the submission call, the
    submission is treated as accepted (success receipt, success event,
    counters incremented) if and only if the status is in the 2xx range;
    any other status, every 4xx included, is a rejection surfaced as an
    error (error entry in the journal, failure event, no counter touched);
    in both cases the call makes exactly one POST for the nonce. *)
Theorem submission_accepted_iff_2xx (env : SubmitEnv) (addr : DerivedAddress)
    (nonce hash preimage : string) (isDevFee : bool) (w : World)
    (st : Z) (text : string) (receipt msg : option string)
    (Hid : truthyId (currentChallengeId (self w)) = true)
    (Hwallet : walletManager (self w) = true)
    (Hpost : post env = Responded st text receipt msg) :
  let run := submitSolution env addr nonce hash preimage isDevFee in
  let ops := performed run w in
  let w1 := resume (during_post env) w in
  fst (run w) = Done tt /\
  List.filter isPost ops
  = [OpPost (bech32 addr) (default "" (currentChallengeId (self w))) nonce] /\
  (200 <= st < 300 ->
     In (OpEmit (EvSolutionResult (bech32 addr) (index addr) true
                   "Solution accepted")) ops /\
     (exists r, In (OpLogReceipt r) ops /\ r_address r = bech32 addr /\
                r_nonce r = nonce /\ r_hash r = hash /\
                r_isDevFee r = isDevFee) /\
     (forall entry, ~ In (OpLogError entry) ops) /\
     solutionsFound (self (snd (run w))) = solutionsFound (self w1) + 1) /\
  (~ 200 <= st < 300 ->
     (exists error,
        rejection (post env) = Some error /\
        In (OpLogError {| e_ts := clock w1; e_address := bech32 addr;
                          e_challenge_id := currentChallengeId (self w1);
                          e_nonce := nonce; e_hash := hash;
                          e_error := errorText error;
                          e_response := response_message error |}) ops /\
        In (OpEmit (EvSolutionResult (bech32 addr) (index addr) false
                      (detailedMessage error))) ops) /\
     (forall r, ~ In (OpLogReceipt r) ops) /\
     (forall m, ~ In (OpEmit (EvSolutionResult (bech32 addr) (index addr) true m)) ops) /\
     self (snd (run w)) = self w1 /\ fee (snd (run w)) = fee w1).
Proof.
  intros run ops w1. subst run ops.
  destruct (rejection (post env)) as [error|] eqn:Hrej.
  - pose proof (submitSolution_rejected env addr nonce hash preimage isDevFee
                  w error Hid Hwallet Hrej) as Hrun.
    cbv zeta in Hrun. fold w1 in Hrun.
    rewrite (performed_app _ w _ ltac:(rewrite Hrun; reflexivity)).
    rewrite Hrun. cbn [fst snd self fee].
    split; [reflexivity |]. split; [reflexivity |]. split.
    + intros Hrange. exfalso.
      assert (Hnone : rejection (post env) = None)
        by (apply rejection_None; eauto 8).
      congruence.
    + intros _. split; [| split; [| split; [| split]]]; try reflexivity.
      * exists error. split; [reflexivity |]. split; find_in.
      * intros r Hin. cbn [In] in Hin.
        repeat (destruct Hin as [Hin|Hin]; [discriminate |]). exact Hin.
      * intros m Hin. cbn [In] in Hin.
        repeat (destruct Hin as [Hin|Hin]; [discriminate |]). exact Hin.
  - apply rejection_None in Hrej as (st' & text' & receipt' & msg' & Heq & Hrange).
    rewrite Hpost in Heq. injection Heq as <- <- <- <-.
    destruct (submitSolution_accepted env addr nonce hash preimage isDevFee w
                st text receipt msg Hid Hwallet Hpost
                (proj2 (accepted_range st) Hrange))
      as (w' & Hrun & Htrace & Hfound & _).
    fold w1 in Htrace, Hfound.
    rewrite (performed_app _ w _ ltac:(rewrite Hrun; exact Htrace)).
    rewrite Hrun. cbn [fst snd].
    split; [reflexivity |]. split; [destruct isDevFee; reflexivity |]. split.
    + intros _. split; [| split; [| split]].
      * destruct isDevFee; find_in.
      * eexists. split; [destruct isDevFee; find_in |]. cbn. auto.
      * intros entry Hin. destruct isDevFee; cbn [In app] in Hin;
          repeat (destruct Hin as [Hin|Hin]; [discriminate |]); exact Hin.
      * exact Hfound.
    + intros Hout. contradiction.
Qed.

Lemma submission_accepted_iff_2xx_witness :
  let run := submitSolution conflictAnswer alice "00a1b2c3d4e5f607" "000a77" "preimage" false in
  fst (run runningWorld) = Done tt /\
  performed run runningWorld =
    [ OpSubmitSolution "addr1alice" "00a1b2c3d4e5f607" "000a77" false;
      OpPost "addr1alice" "**D07C10" "00a1b2c3d4e5f607";
      OpLogError {| e_ts := 5000; e_address := "addr1alice";
                    e_challenge_id := Some "**D07C10"%string;
                    e_nonce := "00a1b2c3d4e5f607"; e_hash := "000a77";
                    e_error := "Server rejected solution: 409 Conflict";
                    e_response := None |};
      OpLoggerError "Solution submission failed";
      OpEmit (EvSolutionResult "addr1alice" 0 false
                "Server rejected solution: 409 Conflict [Status: N/A, Response: N/A]") ].
Proof.
  split.
  - exact (proj1 (submission_accepted_iff_2xx conflictAnswer alice
                    "00a1b2c3d4e5f607" "000a77" "preimage" false runningWorld
                    409 "Conflict" None (Some "Solution already exists"%string)
                    eq_refl eq_refl eq_refl)).
  - vm_compute. reflexivity.
Defined.

(** C6. Whenever a solution submission fails, by rejection or by a
    network error, the submitter appends an error entry with the
    diagnostic context (address, challenge, nonce, hash, error text,
    response) to the journal and publishes a [solution_result] event with
    [success = false]; no field of the orchestrator is rolled back, so a
    pair marked solved before the submission is still marked solved after
    the failure. *)
Theorem failed_submission_is_recorded_and_stays_solved (env : SubmitEnv)
    (addr : DerivedAddress) (nonce hash preimage : string) (isDevFee : bool)
    (w : World) (error : JsError) (challengeId : string)
    (Hid : truthyId (currentChallengeId (self w)) = true)
    (Hwallet : walletManager (self w) = true)
    (Hfails : rejection (post env) = Some error)
    (Hsolved : hasSolved (bech32 addr) challengeId (self w) = true) :
  let run := submitSolution env addr nonce hash preimage isDevFee in
  let ops := performed run w in
  let w1 := resume (during_post env) w in
  fst (run w) = Done tt /\
  In (OpLogError {| e_ts := clock w1; e_address := bech32 addr;
                    e_challenge_id := currentChallengeId (self w1);
                    e_nonce := nonce; e_hash := hash;
                    e_error := errorText error;
                    e_response := response_message error |}) ops /\
  In (OpEmit (EvSolutionResult (bech32 addr) (index addr) false
                (detailedMessage error))) ops /\
  self (snd (run w)) = self w1 /\
  hasSolved (bech32 addr) challengeId (self (snd (run w))) = true.
Proof.
  intros run ops w1. subst run ops.
  pose proof (submitSolution_rejected env addr nonce hash preimage isDevFee
                w error Hid Hwallet Hfails) as Hrun.
  cbv zeta in Hrun. fold w1 in Hrun.
  rewrite (performed_app _ w _ ltac:(rewrite Hrun; reflexivity)).
  rewrite Hrun. cbn [fst snd self].
  split; [reflexivity |]. split; [find_in |]. split; [find_in |].
  split; [reflexivity |]. now apply hasSolved_resume.
Qed.

Lemma failed_submission_is_recorded_and_stays_solved_witness :
  let run := submitSolution timeoutAnswer alice "00a1b2c3d4e5f607" "hash-1" "preimage" false in
  hasSolved "addr1alice" "**D07C10" (self solvedWorld) = true /\
  hasSolved "addr1alice" "**D07C10" (self (snd (run solvedWorld))) = true /\
  In (OpEmit (EvSolutionResult "addr1alice" 0 false
                (detailedMessage (plainError "timeout of 30000ms exceeded"))))
     (performed run solvedWorld).
Proof.
  pose proof (failed_submission_is_recorded_and_stays_solved timeoutAnswer alice
                "00a1b2c3d4e5f607" "hash-1" "preimage" false solvedWorld
                (plainError "timeout of 30000ms exceeded") "**D07C10"
                eq_refl eq_refl eq_refl eq_refl) as (_ & _ & Hevent & _ & Hsolved).
  split; [reflexivity |]. split; [exact Hsolved | exact Hevent].
Defined.

(** *** [mineForAddress] *)

Lemma hasSolved_ext a c s s' :
  solvedAddressChallenges s = solvedAddressChallenges s' ->
  hasSolved a c s = hasSolved a c s'.
Proof. unfold hasSolved. now intros ->. Qed.

(** Whatever the server answers, [submitSolution] returns; it performs
    only operations of its own body, at most one POST among them, and
    removes no solved pair. *)
Lemma submitSolution_shape env addr nonce hash preimage isDevFee w :
  exists post w',
    submitSolution env addr nonce hash preimage isDevFee w = (Done tt, w') /\
    trace w' = trace w ++ OpSubmitSolution (bech32 addr) nonce hash isDevFee :: post /\
    forallb submitting post = true /\
    (length (List.filter isPost post) <= 1)%nat /\
    (forall a c, hasSolved a c (self w) = true -> hasSolved a c (self w') = true).
Proof.
  destruct (truthyId (currentChallengeId (self w))) eqn:Hid;
    [destruct (walletManager (self w)) eqn:Hwallet |].
  - destruct (rejection (post env)) as [error|] eqn:Hrej.
    + pose proof (submitSolution_rejected env addr nonce hash preimage isDevFee
                    w error Hid Hwallet Hrej) as Hrun. cbv zeta in Hrun.
      eexists _, _. split; [exact Hrun |]. cbn [trace self].
      split; [reflexivity |]. split; [reflexivity |]. split; [cbn; lia |].
      intros a c. apply hasSolved_resume.
    + apply rejection_None in Hrej as (st & text & receipt & msg & Hpost & Hrange).
      destruct (submitSolution_accepted env addr nonce hash preimage isDevFee w
                  st text receipt msg Hid Hwallet Hpost
                  (proj2 (accepted_range st) Hrange))
        as (w' & Hrun & Htrace & _ & _ & _ & Hsolved & _).
      eexists _, w'. split; [exact Hrun |].
      split; [rewrite Htrace; reflexivity |].
      split; [destruct isDevFee; reflexivity |].
      split; [destruct isDevFee; cbn; lia |].
      intros a c Hac. rewrite (hasSolved_ext a c _ _ Hsolved).
      now apply hasSolved_resume.
  - exists [], (record (OpSubmitSolution (bech32 addr) nonce hash isDevFee) w).
    split; [apply submitSolution_skipped; now right |].
    split; [reflexivity |]. split; [reflexivity |]. split; [cbn; lia |]. auto.
  - exists [], (record (OpSubmitSolution (bech32 addr) nonce hash isDevFee) w).
    split; [apply submitSolution_skipped; now left |].
    split; [reflexivity |]. split; [reflexivity |]. split; [cbn; lia |]. auto.
Qed.

Section MiningFacts.

Variable matchesDifficulty : string -> string -> bool.
Variable buildPreimage : string -> string -> option Challenge -> string.

(** The scan of one batch of digests either finds nothing and does
    nothing, or fails on a missing candidate and does nothing, or finds a
    matching digest that is not in the Submitted-Hash Set and performs the
    four operations of a solution in order, followed by the body of
    [submitSolution]. *)
Lemma scanHashes_cases env addr challengeId difficulty isDevFee digests :
  forall batchData w,
  exists out w',
    scanHashes matchesDifficulty env addr challengeId difficulty isDevFee
      digests batchData w = (out, w') /\
    ((out = Done false /\ w' = w) \/
     (exists error, out = Raised error /\ w' = w) \/
     (out = Done true /\
      exists hash candidate post,
        trace w' = trace w ++
          solutionFound addr challengeId (nonce candidate) hash isDevFee ++ post /\
        forallb submitting post = true /\
        (length (List.filter isPost post) <= 1)%nat /\
        hasSolved (bech32 addr) challengeId (self w') = true /\
        In hash digests /\ In candidate batchData /\
        matchesDifficulty hash difficulty = true /\
        hash ∉ submittedSolutions (self w))).
Proof.
  induction digests as [|hash digests IH]; intros batchData w.
  - exists (Done false), w. split; [reflexivity | now left].
  - cbn [scanHashes]. destruct batchData as [|candidate batchData].
    + eexists _, w. split; [reflexivity |]. right. left. eauto.
    + assert (Hnext : exists out w',
        scanHashes matchesDifficulty env addr challengeId difficulty isDevFee
          digests batchData w = (out, w') /\
        ((out = Done false /\ w' = w) \/
         (exists error, out = Raised error /\ w' = w) \/
         (out = Done true /\
          exists hash0 candidate0 post,
            trace w' = trace w ++
              solutionFound addr challengeId (nonce candidate0) hash0 isDevFee
              ++ post /\
            forallb submitting post = true /\
            (length (List.filter isPost post) <= 1)%nat /\
            hasSolved (bech32 addr) challengeId (self w') = true /\
            In hash0 (hash :: digests) /\ In candidate0 (candidate :: batchData) /\
            matchesDifficulty hash0 difficulty = true /\
            hash0 ∉ submittedSolutions (self w)))).
      { destruct (IH batchData w) as (out & w' & Hrun & Hcases).
        exists out, w'. split; [exact Hrun |].
        destruct Hcases
          as [H|[H|(H & h0 & c0 & post & ? & ? & ? & ? & ? & ? & ? & ?)]];
          [now left | now right; left |].
        right. right. split; [exact H |]. exists h0, c0, post. cbn [In]. auto 12. }
      destruct (matchesDifficulty hash difficulty) eqn:Hmatch; [| exact Hnext].
      rewrite bind_get.
      destruct (bool_decide (hash ∈ submittedSolutions (self w))) eqn:Hseen;
        [exact Hnext |].
      apply bool_decide_eq_false in Hseen.
      unfold submittedSolutions_add, solvedAddressChallenges_add.
      rewrite !bind_bind, bind_modify, bind_perform.
      rewrite !bind_bind, bind_modify, bind_perform, bind_emit.
      set (w3 := record _ (record _ (onSelf _ (record _ (onSelf _ w))))).
      destruct (submitSolution_shape env addr (nonce candidate) hash
                  (preimage candidate) isDevFee w3)
        as (post & w' & Hrun & Htrace & Hpost & Hone & Hkeep).
      rewrite (bind_run _ _ _ _ _ Hrun). unfold ret.
      exists (Done true), w'. split; [reflexivity |].
      right. right. split; [reflexivity |].
      exists hash, candidate, post.
      split.
      { rewrite Htrace. unfold w3, record, onSelf. cbn [trace solutionFound].
        rewrite <- !app_assoc. reflexivity. }
      split; [exact Hpost |]. split; [exact Hone |].
      split.
      { apply Hkeep. unfold w3, record, onSelf. cbn [self].
        apply hasSolved_markSolved_same. }
      cbn [In]. auto.
Qed.

Lemma bind_await {B} during (k : unit -> M B) w :
  bind (await during) k w = k tt (resume during w).
Proof. reflexivity. Qed.

(** The [try] block of one round: either no solution, and the hash batch
    is its only operation, or a solution. *)
Lemma hashAndScan_cases env addr challengeId difficulty isDevFee step
    hashCount batchData w :
  exists out w',
    hashAndScan matchesDifficulty env addr challengeId difficulty isDevFee
      step hashCount batchData w = (out, w') /\
    (((out = Done false \/ exists error, out = Raised error) /\
      trace w' = trace w ++ [OpHashBatch (length batchData)]) \/
     (out = Done true /\
      exists hash candidate post,
        trace w' = trace w ++
          OpHashBatch (length batchData) ::
          solutionFound addr challengeId (nonce candidate) hash isDevFee ++ post /\
        forallb submitting post = true /\
        (length (List.filter isPost post) <= 1)%nat /\
        hasSolved (bech32 addr) challengeId (self w') = true /\
        matchesDifficulty hash difficulty = true)).
Proof.
  unfold hashAndScan. rewrite bind_perform, bind_await.
  set (w1 := resume (during_hash step) (record (OpHashBatch (length batchData)) w)).
  assert (Htrace1 : trace w1 = trace w ++ [OpHashBatch (length batchData)]).
  { unfold w1. now rewrite trace_resume. }
  destruct (hashes step) as [digests|msg].
  - rewrite bind_modify.
    set (w2 := onSelf _ w1).
    assert (Htrace2 : trace w2 = trace w ++ [OpHashBatch (length batchData)])
      by exact Htrace1.
    assert (Hscan : exists out w',
      scanHashes matchesDifficulty env addr challengeId difficulty isDevFee
        digests batchData w2 = (out, w') /\
      (((out = Done false \/ exists error, out = Raised error) /\
        trace w' = trace w ++ [OpHashBatch (length batchData)]) \/
       (out = Done true /\
        exists hash candidate post,
          trace w' = trace w ++
            OpHashBatch (length batchData) ::
            solutionFound addr challengeId (nonce candidate) hash isDevFee
            ++ post /\
          forallb submitting post = true /\
          (length (List.filter isPost post) <= 1)%nat /\
          hasSolved (bech32 addr) challengeId (self w') = true /\
          matchesDifficulty hash difficulty = true))).
    { destruct (scanHashes_cases env addr challengeId difficulty isDevFee
                  digests batchData w2) as (out & w' & Hrun & Hcases).
      exists out, w'. split; [exact Hrun |].
      destruct Hcases
        as [[-> ->]|[(error & -> & ->)
           |(-> & hash & candidate & post & Htr & ? & ? & ? & _ & _ & ? & _)]].
      - left. split; [now left | exact Htrace2].
      - left. split; [right; eauto | exact Htrace2].
      - right. split; [reflexivity |]. exists hash, candidate, post.
        split; [| auto]. rewrite Htr, Htrace2, <- app_assoc. reflexivity. }
    destruct (countAfter hashCount (Ok digests) =? Z.of_nat (length digests)).
    + destruct digests as [|digest digests].
      * exists (Raised (plainError "Cannot read properties of undefined")), w2.
        split; [reflexivity |]. left. split; [right; eauto | exact Htrace2].
      * rewrite bind_ret. exact Hscan.
    + rewrite bind_ret. exact Hscan.
  - exists (Raised (plainError msg)), w1. split; [reflexivity |].
    left. split; [right; eauto | exact Htrace1].
Qed.

(** The mining loop searches; if it finds a solution it performs the four
    operations in order, then the body of [submitSolution], and returns. *)
Lemma mineLoop_shape env addr challengeId difficulty isDevFee rounds :
  forall hashCount w,
  exists out w' ops,
    mineLoop matchesDifficulty buildPreimage env addr challengeId difficulty
      isDevFee rounds hashCount w = (out, w') /\
    trace w' = trace w ++ ops /\
    (forall error, out <> Raised error) /\
    (forallb searching ops = true \/
     (out = Done tt /\
      exists pre nonce hash post,
        ops = pre ++ solutionFound addr challengeId nonce hash isDevFee ++ post /\
        forallb searching pre = true /\
        forallb submitting post = true /\
        (length (List.filter isPost post) <= 1)%nat /\
        hasSolved (bech32 addr) challengeId (self w') = true /\
        matchesDifficulty hash difficulty = true)).
Proof.
  induction rounds as [|step rounds IH]; intros hashCount w.
  - cbn [mineLoop]. rewrite bind_get.
    destruct (negb (stillMining challengeId (self w)));
      eexists _, w, []; (split; [reflexivity |]);
      (split; [now rewrite app_nil_r |]); (split; [discriminate | now left]).
  - cbn [mineLoop]. rewrite bind_get.
    destruct (negb (stillMining challengeId (self w))).
    { exists (Done tt), w, []. split; [reflexivity |].
      split; [now rewrite app_nil_r |]. split; [discriminate | now left]. }
    destruct (buildBatch_returns buildPreimage (random step) addr challengeId
                (self w) BATCH_SIZE 0) as (batchData & -> & _).
    destruct (length batchData =? 0)%nat.
    { exists (Done tt), w, []. split; [reflexivity |].
      split; [now rewrite app_nil_r |]. split; [discriminate | now left]. }
    destruct (hashAndScan_cases env addr challengeId difficulty isDevFee step
                hashCount batchData w) as (out1 & w1 & Hrun & Hcases).
    assert (Hrest : forall w2 prefix,
      trace w2 = trace w ++ prefix -> forallb searching prefix = true ->
      exists out w' ops,
        mineLoop matchesDifficulty buildPreimage env addr challengeId difficulty
          isDevFee rounds (countAfter hashCount (hashes step))
          (record (OpEmit EvStats)
             (record (OpEmit (EvHashProgress (bech32 addr) (index addr)
                                (countAfter hashCount (hashes step)))) w2))
        = (out, w') /\
        trace w' = trace w ++ ops /\
        (forall error, out <> Raised error) /\
        (forallb searching ops = true \/
         (out = Done tt /\
          exists pre nonce hash post,
            ops = pre ++ solutionFound addr challengeId nonce hash isDevFee
                  ++ post /\
            forallb searching pre = true /\
            forallb submitting post = true /\
            (length (List.filter isPost post) <= 1)%nat /\
            hasSolved (bech32 addr) challengeId (self w') = true /\
            matchesDifficulty hash difficulty = true))).
    { intros w2 prefix Hw2 Hprefix.
      destruct (IH (countAfter hashCount (hashes step))
                  (record (OpEmit EvStats)
                     (record (OpEmit (EvHashProgress (bech32 addr) (index addr)
                                        (countAfter hashCount (hashes step))))
                        w2)))
        as (out & w' & ops & Hloop & Htrace & Hraise & Hshape).
      set (progress := [OpEmit (EvHashProgress (bech32 addr) (index addr)
                                  (countAfter hashCount (hashes step)));
                        OpEmit EvStats]).
      assert (Hsearch : forallb searching (prefix ++ progress) = true)
        by (rewrite forallb_app, Hprefix; reflexivity).
      exists out, w', ((prefix ++ progress) ++ ops).
      split; [exact Hloop |]. split.
      { rewrite Htrace. unfold record. cbn [trace]. rewrite Hw2.
        unfold progress. rewrite <- !app_assoc. reflexivity. }
      split; [exact Hraise |].
      destruct Hshape as [Hall|(Hout & pre & nonce & hash & post & -> & Hpre & Hrest')].
      - left. now rewrite forallb_app, Hsearch, Hall.
      - right. split; [exact Hout |].
        exists ((prefix ++ progress) ++ pre), nonce, hash, post.
        split; [now rewrite <- !app_assoc |].
        split; [now rewrite forallb_app, Hsearch, Hpre | exact Hrest']. }
    destruct Hcases as [[[->|[error ->]] Htrace1]
                       |(-> & hash & candidate & post & Htrace1 & Hpost & Hone & Hsolved & Hmatch)].
    + rewrite (bind_tryCatch_done _ _ _ _ _ _ Hrun), bind_emit, bind_emit.
      exact (Hrest w1 _ Htrace1 eq_refl).
    + rewrite (bind_tryCatch_raised _ _ _ _ _ _ Hrun).
      rewrite bind_bind, bind_perform, bind_ret, bind_emit, bind_emit.
      apply (Hrest (record (OpLoggerError "Batch hash computation error") w1)
               [OpHashBatch (length batchData);
                OpLoggerError "Batch hash computation error"]); [| reflexivity].
      unfold record. cbn [trace]. rewrite Htrace1, <- app_assoc. reflexivity.
    + rewrite (bind_tryCatch_done _ _ _ _ _ _ Hrun).
      eexists (Done tt), w1, _. split; [reflexivity |].
      split; [exact Htrace1 |]. split; [discriminate |].
      right. split; [reflexivity |].
      exists [OpHashBatch (length batchData)], (nonce candidate), hash, post.
      split; [reflexivity |]. auto.
Qed.

(** Counting operations of one kind in a trace. *)
Lemma filter_none (p q : Op -> bool) ops :
  (forall o, p o = true -> q o = false) ->
  forallb p ops = true -> List.filter q ops = [].
Proof.
  intros Hpq. induction ops as [|o ops IH]; [reflexivity |].
  cbn [forallb List.filter]. intros [Ho Hops]%andb_prop.
  rewrite (Hpq o Ho). now apply IH.
Qed.


Lemma searching_not_submitCall o : searching o = true -> isSubmitCall o = false.
Proof. destruct o as [[]| | | | | | | | | | | | | | | | | | | | | |]; cbn; congruence. Qed.

Lemma searching_not_post o : searching o = true -> isPost o = false.
Proof. destruct o as [[]| | | | | | | | | | | | | | | | | | | | | |]; cbn; congruence. Qed.



Lemma submitting_not_submitCall o : submitting o = true -> isSubmitCall o = false.
Proof. destruct o as [[]| | | | | | | | | | | | | | | | | | | | | |]; cbn; congruence. Qed.



(** What a call of [mineForAddress] does: after the call itself it only
    searches, or it searches, performs the four operations of a solution
    for the challenge that was current at the call, runs the body of
    [submitSolution], and returns with the pair marked solved. It never
    throws. *)
Lemma mineForAddress_shape env addr isDevFee w :
  exists out w' ops,
    mineForAddress matchesDifficulty buildPreimage env addr isDevFee w
    = (out, w') /\
    trace w' = trace w ++ OpMineForAddress (bech32 addr) isDevFee :: ops /\
    (forall error, out <> Raised error) /\
    (forallb searching ops = true \/
     (out = Done tt /\
      exists pre challengeId nonce hash post,
        ops = pre ++ solutionFound addr challengeId nonce hash isDevFee ++ post /\
        currentChallengeId (self w) = Some challengeId /\
        forallb searching pre = true /\
        forallb submitting post = true /\
        (length (List.filter isPost post) <= 1)%nat /\
        hasSolved (bech32 addr) challengeId (self w') = true)).
Proof.
  unfold mineForAddress. rewrite bind_perform, bind_get. cbn [self record].
  set (w0 := record (OpMineForAddress (bech32 addr) isDevFee) w).
  destruct (currentChallenge (self w)) as [current|].
  2:{ exists (Done tt), w0, []. split; [reflexivity |]. split; [reflexivity |].
      split; [discriminate | now left]. }
  destruct (currentChallengeId (self w)) as [challengeId|] eqn:Hid.
  2:{ exists (Done tt), w0, []. split; [reflexivity |]. split; [reflexivity |].
      split; [discriminate | now left]. }
  cbn [truthyId default].
  destruct (JS.truthy challengeId).
  2:{ exists (Done tt), w0, []. split; [reflexivity |]. split; [reflexivity |].
      split; [discriminate | now left]. }
  cbn [negb]. destruct (romReady env); cbn [negb].
  2:{ exists (Done tt), (record (OpConsole "ROM not ready") w0),
        [OpConsole "ROM not ready"].
      split; [reflexivity |]. split; [unfold w0, record; cbn [trace];
                                      now rewrite <- app_assoc |].
      split; [discriminate | now left]. }
  rewrite bind_modify, bind_emit.
  set (w1 := record _ (onSelf _ w0)).
  destruct (mineLoop_shape (submission env) addr challengeId (difficulty current)
              isDevFee (steps env) 0 w1)
    as (out & w' & ops & Hrun & Htrace & Hraise & Hshape).
  exists out, w', (OpEmit (EvMiningStart (bech32 addr) (index addr) challengeId) :: ops).
  split; [exact Hrun |]. split.
  { rewrite Htrace. unfold w1, w0, record, onSelf. cbn [trace].
    rewrite <- !app_assoc. reflexivity. }
  split; [exact Hraise |].
  destruct Hshape as [Hall|(Hout & pre & nonce & hash & post & -> & Hpre & Hpost & Hone & Hsolved & _)].
  - left. cbn [forallb searching]. exact Hall.
  - right. split; [exact Hout |].
    exists (OpEmit (EvMiningStart (bech32 addr) (index addr) challengeId) :: pre),
      challengeId, nonce, hash, post.
    split; [reflexivity |]. split; [reflexivity |].
    split; [cbn [forallb searching]; exact Hpre |]. auto.
Qed.

(** One run of the per-identity mining loop. When the first accepted
    digest not already in the Submitted-Hash Set is found, the hash is
    added to the Submitted-Hash Set, then the (identity, challenge) pair
    is added to the Solved-Pairs Map, then the solution-found event is
    published, then the Solution Submitter is invoked, then the loop
    terminates; so one run invokes the submitter at most once and makes
    at most one POST, with the pair marked solved before the network call
    and still marked when the run returns. *)
Theorem mining_marks_then_submits_once (env : MineEnv) (addr : DerivedAddress)
    (isDevFee : bool) (w : World) :
  let run := mineForAddress matchesDifficulty buildPreimage env addr isDevFee in
  exists ops,
    trace (snd (run w)) = trace w ++ OpMineForAddress (bech32 addr) isDevFee :: ops /\
    (length (List.filter isSubmitCall ops) <= 1)%nat /\
    (length (List.filter isPost ops) <= 1)%nat /\
    (forallb searching ops = true \/
     exists pre challengeId nonce hash post,
       ops = pre ++
             [ OpSubmittedAdd hash;
               OpSolvedAdd (bech32 addr) challengeId;
               OpEmit (EvSolutionSubmit (bech32 addr) (index addr) challengeId nonce);
               OpSubmitSolution (bech32 addr) nonce hash isDevFee ] ++ post /\
       currentChallengeId (self w) = Some challengeId /\
       forallb searching pre = true /\
       forallb submitting post = true /\
       fst (run w) = Done tt /\
       hasSolved (bech32 addr) challengeId (self (snd (run w))) = true).
Proof.
  intros run. subst run.
  destruct (mineForAddress_shape env addr isDevFee w)
    as (out & w' & ops & Hrun & Htrace & _ & Hshape).
  exists ops. rewrite Hrun. cbn [fst snd]. split; [exact Htrace |].
  destruct Hshape as [Hall|(Hout & pre & challengeId & nonce & hash & post & -> & Hid & Hpre & Hpost & Hone & Hsolved)].
  - rewrite (filter_none searching isSubmitCall ops searching_not_submitCall Hall).
    rewrite (filter_none searching isPost ops searching_not_post Hall).
    split; [cbn; lia |]. split; [cbn; lia |]. now left.
  - split; [| split].
    + rewrite !List.filter_app.
      rewrite (filter_none searching isSubmitCall pre searching_not_submitCall Hpre).
      rewrite (filter_none submitting isSubmitCall post submitting_not_submitCall Hpost).
      cbn. lia.
    + rewrite !List.filter_app.
      rewrite (filter_none searching isPost pre searching_not_post Hpre).
      cbn [solutionFound List.filter isPost app]. exact Hone.
    + right. exists pre, challengeId, nonce, hash, post. auto 10.
Qed.

(** *** [checkAndMineDevFee] *)







(** A disabled manager stops the scheduler at once. *)
Lemma checkAndMineDevFee_disabled rounds w :
  DevFee.isEnabled (fee w) = false ->
  checkAndMineDevFee matchesDifficulty buildPreimage rounds w = (Done tt, w).
Proof. intros Hen. unfold checkAndMineDevFee. now rewrite Hen. Qed.


End MiningFacts.


(** A round whose address fetch fails does not stop the next one. *)
Example fee_round_failure_does_not_stop_the_next :
  performed (checkAndMineDevFee leadingZeros concatPreimage feeRoundAfterOutage)
    owingWorld
  = [ OpConsole "Dev fee payment needed";
      OpGetDevFeeAddress; OpConsole "[DEV FEE] Failed";
      OpGetDevFeeAddress; OpMineForAddress "addr1fee" true;
      OpEmit (EvMiningStart "addr1fee" (-1) "**D07C10");
      OpHashBatch 1000;
      OpSubmittedAdd "000c1"; OpSolvedAdd "addr1fee" "**D07C10";
      OpEmit (EvSolutionSubmit "addr1fee" (-1) "**D07C10" "0003030303030303");
      OpSubmitSolution "addr1fee" "0003030303030303" "000c1" true;
      OpPost "addr1fee" "**D07C10" "0003030303030303";
      OpLogReceipt {| r_ts := 5100; r_address := "addr1fee";
                      r_challenge_id := "**D07C10";
                      r_nonce := "0003030303030303"; r_hash := "000c1";
                      r_crypto_receipt := Some "receipt-9"%string;
                      r_isDevFee := true |};
      OpEmit (EvSolutionResult "addr1fee" (-1) true "Solution accepted");
      OpEmit (EvSolution "addr1fee" (Some "**D07C10"%string) "0003030303030303") ].
Proof. vm_compute. reflexivity. Qed.

(** C3. The order of the operations of a solution holds in every run of
    the miner (see [mining_marks_then_submits_once]), but "at most one
    submission is ever invoked per (identity, challenge) pair" does not:
    here the fee scheduler owes two rounds, both rounds get the recipient
    [addr1fee] under challenge [**D07C10], the pair is marked solved in
    the first round, and the second round mines and submits for it
    again. The miner never reads the Solved-Pairs Map; only the Worker
    Batch Scheduler filters by it. *)
Lemma fee_rounds_submit_twice_for_one_pair :
  performed (checkAndMineDevFee leadingZeros concatPreimage feeRound) owingWorld
  = [ OpConsole "Dev fee payment needed";
      OpGetDevFeeAddress; OpMineForAddress "addr1fee" true;
      OpEmit (EvMiningStart "addr1fee" (-1) "**D07C10");
      OpHashBatch 1000;
      OpSubmittedAdd "000c0"; OpSolvedAdd "addr1fee" "**D07C10";
      OpEmit (EvSolutionSubmit "addr1fee" (-1) "**D07C10" "0002020202020202");
      OpSubmitSolution "addr1fee" "0002020202020202" "000c0" true;
      OpPost "addr1fee" "**D07C10" "0002020202020202";
      OpLogReceipt {| r_ts := 5100; r_address := "addr1fee";
                      r_challenge_id := "**D07C10";
                      r_nonce := "0002020202020202"; r_hash := "000c0";
                      r_crypto_receipt := Some "receipt-9"%string;
                      r_isDevFee := true |};
      OpEmit (EvSolutionResult "addr1fee" (-1) true "Solution accepted");
      OpEmit (EvSolution "addr1fee" (Some "**D07C10"%string) "0002020202020202");
      OpGetDevFeeAddress; OpMineForAddress "addr1fee" true;
      OpEmit (EvMiningStart "addr1fee" (-1) "**D07C10");
      OpHashBatch 1000;
      OpSubmittedAdd "000c1"; OpSolvedAdd "addr1fee" "**D07C10";
      OpEmit (EvSolutionSubmit "addr1fee" (-1) "**D07C10" "0003030303030303");
      OpSubmitSolution "addr1fee" "0003030303030303" "000c1" true;
      OpPost "addr1fee" "**D07C10" "0003030303030303";
      OpLogReceipt {| r_ts := 5100; r_address := "addr1fee";
                      r_challenge_id := "**D07C10";
                      r_nonce := "0003030303030303"; r_hash := "000c1";
                      r_crypto_receipt := Some "receipt-9"%string;
                      r_isDevFee := true |};
      OpEmit (EvSolutionResult "addr1fee" (-1) true "Solution accepted");
      OpEmit (EvSolution "addr1fee" (Some "**D07C10"%string) "0003030303030303") ]
  /\ length (List.filter (isPostFor "addr1fee" "**D07C10")
               (performed (checkAndMineDevFee leadingZeros concatPreimage feeRound)
                  owingWorld)) = 2%nat.
Proof. vm_compute. split; reflexivity. Qed.

(** A miner whose submission the server rejects with 409: the error is
    recorded, the miner returns, and the pair stays marked solved. *)
Example rejected_solution_stays_solved :
  let run := mineForAddress leadingZeros concatPreimage rejectedMining alice false in
  fst (run runningWorld) = Done tt /\
  performed run runningWorld
  = [ OpMineForAddress "addr1alice" false;
      OpEmit (EvMiningStart "addr1alice" 0 "**D07C10");
      OpHashBatch 1000;
      OpEmit (EvHashProgress "addr1alice" 0 1000); OpEmit EvStats;
      OpHashBatch 1000;
      OpSubmittedAdd "000a77"; OpSolvedAdd "addr1alice" "**D07C10";
      OpEmit (EvSolutionSubmit "addr1alice" 0 "**D07C10" "0003030303030303");
      OpSubmitSolution "addr1alice" "0003030303030303" "000a77" false;
      OpPost "addr1alice" "**D07C10" "0003030303030303";
      OpLogError {| e_ts := 5000; e_address := "addr1alice";
                    e_challenge_id := Some "**D07C10"%string;
                    e_nonce := "0003030303030303"; e_hash := "000a77";
                    e_error := "Server rejected solution: 409 Conflict";
                    e_response := None |};
      OpLoggerError "Solution submission failed";
      OpEmit (EvSolutionResult "addr1alice" 0 false
                "Server rejected solution: 409 Conflict [Status: N/A, Response: N/A]") ] /\
  hasSolved "addr1alice" "**D07C10" (self (snd (run runningWorld))) = true /\
  userSolutionsCount (self (snd (run runningWorld))) = 0.
Proof. vm_compute. repeat split. Qed.

(** The identities that the Worker Batch Scheduler dispatches are
    registered and have not solved the challenge. *)
Lemma addressesToMine_unsolved challengeId s addr :
  In addr (addressesToMine challengeId s) ->
  In addr (addresses s) /\ registered addr = true /\
  hasSolved (bech32 addr) challengeId s = false.
Proof.
  unfold addressesToMine. rewrite !filter_In, negb_true_iff. tauto.
Qed.

End OrchestratorFacts.

(* ===================================================================== *)
(** * Further properties of the code                                      *)
(* ===================================================================== *)

(** ** Nonces, read back *)

Section NonceRoundTrip.
Import JS Nonce.









Lemma hexValueFrom_bytes_between bytes : forall acc,
  Forall (fun b => 0 <= b < 256) bytes ->
  acc * 256 ^ Z.of_nat (length bytes)
  <= hexValueFrom acc (join (map byteHex bytes))
  < (acc + 1) * 256 ^ Z.of_nat (length bytes).
Proof.
  induction bytes as [|b bytes IH]; intros acc Hall.
  - cbn. lia.
  - inversion Hall as [|? ? Hb Hrest]; subst.
    cbn [map join]. rewrite hexValueFrom_append, hexValueFrom_byteHex by assumption.
    cbn [length]. rewrite Nat2Z.inj_succ, Z.pow_succ_r by lia.
    specialize (IH (256 * acc + b) Hrest).
    assert (0 < 256 ^ Z.of_nat (length bytes)) by (apply Z.pow_pos_nonneg; lia).
    nia.
Qed.

(** The worker byte of a nonce. *)
Lemma generateNonce_worker_byte random workerId :
  exists nonce,
    generateNonce random workerId = Ok nonce /\
    hexValue nonce / 2 ^ 56 = Z.land workerId 255.
Proof.
  rewrite generateNonce_returns. eexists. split; [reflexivity |].
  unfold nonceBytes.
  set (rest := map (fun i => uint8 (random i)) (seq 1 7)).
  assert (Hrest : Forall (fun b => 0 <= b < 256) rest).
  { apply Forall_map, Forall_forall. intros i _. apply uint8_range. }
  pose proof (land_255_range workerId) as Hb.
  unfold uint8 at 1. rewrite Z.mod_small by exact Hb.
  cbn [map join]. unfold hexValue.
  rewrite hexValueFrom_append, hexValueFrom_byteHex by exact Hb.
  pose proof (hexValueFrom_bytes_between rest (256 * 0 + Z.land workerId 255) Hrest)
    as Hv.
  change (256 ^ Z.of_nat (length rest)) with (2 ^ 56) in Hv.
  symmetry. apply Z.div_unique with
    (r := hexValueFrom (256 * 0 + Z.land workerId 255) (join (map byteHex rest))
          - Z.land workerId 255 * 2 ^ 56); lia.
Qed.

(** X2. The first byte of a generated nonce is the worker id's low eight
    bits: read as a number, the nonce divided by [2^56] gives
    [workerId & 0xFF]. Workers whose ids differ in their low eight bits
    never generate the same nonce, whatever the random source gives;
    worker ids equal modulo 256 share one nonce space. *)
Theorem generateNonce_partitions_by_worker (random1 random2 : nat -> Z)
    (worker1 worker2 : Z) :
  (exists nonce,
     generateNonce random1 worker1 = Ok nonce /\
     hexValue nonce / 2 ^ 56 = Z.land worker1 255) /\
  (Z.land worker1 255 <> Z.land worker2 255 ->
   generateNonce random1 worker1 <> generateNonce random2 worker2) /\
  generateNonce random1 (worker1 + 256) = generateNonce random1 worker1.
Proof.
  split; [apply generateNonce_worker_byte |]. split.
  - intros Hdiff Heq.
    destruct (generateNonce_worker_byte random1 worker1) as (n1 & H1 & Hv1).
    destruct (generateNonce_worker_byte random2 worker2) as (n2 & H2 & Hv2).
    rewrite H1, H2 in Heq. injection Heq as ->. congruence.
  - rewrite !generateNonce_returns. unfold nonceBytes. do 3 f_equal.
    change 255 with (Z.ones 8). rewrite !Z.land_ones by lia.
    change (2 ^ 8) with 256.
    rewrite <- Zplus_mod_idemp_r, Z_mod_same_full, Z.add_0_r. reflexivity.
Qed.

Lemma generateNonce_partitions_by_worker_witness :
  generateNonce (fun i => Z.of_nat i) 3 <> generateNonce (fun i => Z.of_nat i) 4.
Proof.
  exact (proj1 (proj2 (generateNonce_partitions_by_worker
                         (fun i => Z.of_nat i) (fun i => Z.of_nat i) 3 4))
           ltac:(discriminate)).
Defined.



End NonceRoundTrip.

(** ** The dev fee manager, further *)

Section DevFeeMore.
Import JS DevFee.

Lemma truthy_length s : truthy s = true -> (0 <? String.length s)%nat = true.
Proof. destruct s; [discriminate | reflexivity]. Qed.

Lemma orDefault_nonempty given fallback :
  truthy fallback = true -> truthy (orDefault given fallback) = true.
Proof.
  intros Hf. unfold orDefault. destruct given as [s|]; [| exact Hf].
  destruct (truthy s) eqn:Hs; [exact Hs | exact Hf].
Qed.

(** X4. A manager as its constructor builds it: the API URL is never
    empty (an empty one is replaced by the default), so the manager is
    enabled unless [enabled: false] was given; and because the cache file
    is read before the configuration is assigned, the read fails and the
    manager starts with no cached address, zero paid fee solutions and a
    newly generated client id, whatever the cache file holds. *)
Theorem constructed_manager_starts_empty (given : PartialConfig)
    (disk : string -> option DevFeeCache) (generated cwdCacheFile : string) :
  let m := construct given disk generated cwdCacheFile in
  isEnabled m = default true (given_enabled given) /\
  getRatio m = default 25 (given_ratio given) /\
  currentAddress (cache m) = None /\
  getTotalDevFeeSolutions m = 0 /\
  clientId (config m) = generated /\
  cachedClientId (cache m) = Some generated /\
  m = construct given (fun _ => None) generated cwdCacheFile.
Proof.
  cbv zeta. unfold isEnabled, getRatio, getTotalDevFeeSolutions, construct.
  cbn [config cache enabled apiUrl ratio clientId loadCache emptyCache
       currentAddress totalDevFeeSolutions cachedClientId].
  rewrite truthy_length by (apply orDefault_nonempty; reflexivity).
  rewrite andb_true_r. repeat split.
Qed.

(** What [getDevFeeAddress] leaves alone. *)
Lemma getDevFeeAddress_frame now api m :
  config (snd (getDevFeeAddress now api m)) = config m /\
  getTotalDevFeeSolutions (snd (getDevFeeAddress now api m))
  = getTotalDevFeeSolutions m.
Proof.
  unfold getDevFeeAddress. destruct (freshAddress now m); [split; reflexivity |].
  unfold fetchDevFeeAddress. destruct (negb (isEnabled m)); [split; reflexivity |].
  destruct (fetched api) as [data|msg]; cbn [withCache cache currentAddress].
  - split; reflexivity.
  - destruct (currentAddress (cache m)); split; reflexivity.
Qed.

Lemma fetched_valid api data : fetched api = Ok data -> validFormat (devAddress data) = true.
Proof.
  unfold fetched. destruct api as [d|msg]; [| discriminate].
  destruct (validFormat (devAddress d)) eqn:Hv; cbn [negb]; [| discriminate].
  now intros [= <-].
Qed.

(** X5. An address fetched at time [now] is served from the cache for
    the next hour: any call of [getDevFeeAddress] at a time [later] with
    [later - now < ONE_HOUR] returns it without asking the assignment
    service and without changing the manager; from one hour on, the call
    fetches again. *)
Theorem fetched_address_is_cached_for_an_hour (now later : Z)
    (api api' : ApiOutcome) (m : DevFeeManager) (data : DevFeeApiResponse)
    (Henabled : isEnabled m = true) (Hfetched : fetched api = Ok data) :
  let m' := snd (fetchDevFeeAddress now api m) in
  fst (fetchDevFeeAddress now api m) = Ok (devAddress data) /\
  (later - now < ONE_HOUR ->
   getDevFeeAddress later api' m' = (Ok (devAddress data), m')) /\
  (ONE_HOUR <= later - now ->
   getDevFeeAddress later api' m' = fetchDevFeeAddress later api' m').
Proof.
  cbv zeta.
  assert (Hrun : fetchDevFeeAddress now api m
                 = (Ok (devAddress data),
                    withCache m
                      {| currentAddress :=
                           Some {| address := devAddress data;
                                   addressIndex := devAddressIndex data;
                                   fetchedAt := now; usedCount := 0 |};
                         totalDevFeeSolutions := totalDevFeeSolutions (cache m);
                         lastFetchError := None;
                         cachedClientId := cachedClientId (cache m) |})).
  { unfold fetchDevFeeAddress. now rewrite Henabled, Hfetched. }
  rewrite Hrun. cbn [fst snd]. split; [reflexivity |].
  unfold getDevFeeAddress, freshAddress.
  cbn [withCache cache currentAddress fetchedAt address]. split; intros Hage.
  - destruct (Z.ltb_spec (later - now) ONE_HOUR); [reflexivity | lia].
  - destruct (Z.ltb_spec (later - now) ONE_HOUR); [lia | reflexivity].
Qed.

Lemma fetched_address_is_cached_for_an_hour_witness :
  getDevFeeAddress (5000 + 59 * 60 * 1000) (ApiFailure "offline")
    (snd (fetchDevFeeAddress 5000 Samples.assignmentAnswer Samples.freshManager))
  = (Ok "addr1fee"%string,
     snd (fetchDevFeeAddress 5000 Samples.assignmentAnswer Samples.freshManager)).
Proof.
  exact (proj1 (proj2 (fetched_address_is_cached_for_an_hour 5000
                         (5000 + 59 * 60 * 1000) Samples.assignmentAnswer
                         (ApiFailure "offline") Samples.freshManager
                         {| devAddress := "addr1fee"; devAddressIndex := 7;
                            isNewAssignment := false |} eq_refl eq_refl))
           ltac:(reflexivity)).
Defined.

(** X6. Whenever [getDevFeeAddress] returns an address, that address is
    the one the manager holds as current afterwards; and if the address
    cached before the call, if any, had a valid format, the returned one
    has a valid format too (it starts with [tnight1] or [addr1]). The
    call never changes the configuration, the client id or the count of
    paid fee solutions. *)
Theorem returned_address_is_the_cached_one (now : Z) (api : ApiOutcome)
    (m : DevFeeManager) (a : string)
    (Hreturns : fst (getDevFeeAddress now api m) = Ok a) :
  let m' := snd (getDevFeeAddress now api m) in
  (exists cached, currentAddress (cache m') = Some cached /\ address cached = a) /\
  ((forall cached, currentAddress (cache m) = Some cached ->
                   validFormat (address cached) = true) ->
   validFormat a = true) /\
  config m' = config m /\
  cachedClientId (cache m') = cachedClientId (cache m) /\
  getTotalDevFeeSolutions m' = getTotalDevFeeSolutions m.
Proof.
  cbv zeta. revert Hreturns. unfold getDevFeeAddress.
  destruct (freshAddress now m) as [fresh|] eqn:Hfresh.
  - cbn [fst snd]. intros [= ->].
    apply freshAddress_cached in Hfresh as (cached & Hc & Ha).
    repeat split; eauto. intros Hvalid. rewrite <- Ha. eauto.
  - unfold fetchDevFeeAddress. destruct (negb (isEnabled m)); [discriminate |].
    destruct (fetched api) as [data|msg] eqn:Hf;
      cbn [withCache cache currentAddress].
    + cbn [fst snd cache currentAddress config withCache address cachedClientId].
      intros [= <-]. repeat split; eauto.
      intros _. now apply (fetched_valid api).
    + destruct (currentAddress (cache m)) as [cached|] eqn:Hc; [| discriminate].
      cbn [fst snd cache currentAddress config withCache cachedClientId].
      intros [= <-]. repeat split; eauto.
Qed.

Lemma returned_address_is_the_cached_one_witness :
  validFormat "addr1cached" = true /\
  currentAddress (cache (snd (getDevFeeAddress (3 * ONE_HOUR)
                                (ApiFailure "offline") (Samples.staleManager true))))
  = currentAddress (cache (Samples.staleManager true)).
Proof.
  destruct (returned_address_is_the_cached_one (3 * ONE_HOUR) (ApiFailure "offline")
              (Samples.staleManager true) "addr1cached" eq_refl)
    as (_ & Hvalid & _).
  split; [| reflexivity].
  apply Hvalid. intros cached [= <-]. reflexivity.
Defined.

Lemma iter_record_frame n : forall m,
  config (Nat.iter n recordDevFeeSolution m) = config m /\
  getTotalDevFeeSolutions (Nat.iter n recordDevFeeSolution m)
  = getTotalDevFeeSolutions m + Z.of_nat n /\
  currentAddress (cache (Nat.iter n recordDevFeeSolution m))
  = option_map (Frame.usedMore n) (currentAddress (cache m)).
Proof.
  induction n as [|n IH]; intros m.
  - change (Nat.iter 0 recordDevFeeSolution m) with m.
    split; [reflexivity |]. split; [cbn [Z.of_nat]; lia |].
    destruct (currentAddress (cache m)) as [[a i f u]|]; [| reflexivity].
    unfold Frame.usedMore. cbn. do 2 f_equal. lia.
  - rewrite Nat.iter_succ. destruct (IH m) as (Hc & Ht & Hu).
    set (mn := Nat.iter n recordDevFeeSolution m) in *.
    split; [| split].
    + exact Hc.
    + unfold getTotalDevFeeSolutions, recordDevFeeSolution in *.
      cbn [withCache cache totalDevFeeSolutions]. lia.
    + unfold recordDevFeeSolution. cbn [withCache cache currentAddress].
      rewrite Hu. destruct (currentAddress (cache m)) as [c|]; [| reflexivity].
      unfold Frame.usedMore. cbn. do 2 f_equal. lia.
Qed.

(** X7. Recording [n] fee solutions adds [n] to the paid count and, when
    an address is cached, [n] to its use count; it changes neither the
    configuration nor the cached address nor its age, so
    [getDevFeeAddress] answers after the recordings what it answered
    before. *)
Theorem recording_fee_solutions_counts_them (n : nat) (m : DevFeeManager)
    (now : Z) (api : ApiOutcome) :
  let m' := Nat.iter n recordDevFeeSolution m in
  getTotalDevFeeSolutions m' = getTotalDevFeeSolutions m + Z.of_nat n /\
  currentAddress (cache m')
  = option_map (fun c => {| address := address c; addressIndex := addressIndex c;
                            fetchedAt := fetchedAt c;
                            usedCount := usedCount c + Z.of_nat n |})
      (currentAddress (cache m)) /\
  config m' = config m /\
  fst (getDevFeeAddress now api m') = fst (getDevFeeAddress now api m).
Proof.
  cbv zeta. destruct (iter_record_frame n m) as (Hc & Ht & Hu).
  split; [exact Ht |]. split; [exact Hu |]. split; [exact Hc |].
  unfold getDevFeeAddress, freshAddress. rewrite Hu.
  destruct (currentAddress (cache m)) as [c|] eqn:E0; cbn [option_map Frame.usedMore fetchedAt address].
  - destruct (now - fetchedAt c <? ONE_HOUR); [reflexivity |].
    unfold fetchDevFeeAddress, isEnabled. rewrite Hc.
    destruct (negb _); [reflexivity |].
    destruct (fetched api) as [data|msg]; [reflexivity |].
    cbn [withCache cache currentAddress]. rewrite Hu, E0. reflexivity.
  - unfold fetchDevFeeAddress, isEnabled. rewrite Hc.
    destruct (negb _); [reflexivity |].
    destruct (fetched api) as [data|msg]; [reflexivity |].
    cbn [withCache cache currentAddress]. rewrite Hu, E0. reflexivity.
Qed.

End DevFeeMore.

(** ** What every method of the orchestrator preserves *)

Section OrchestratorMore.
Import Orchestrator Frame.

Lemma grows_refl w : grows w w.
Proof.
  unfold grows. split; [exists []; now rewrite app_nil_r |].
  split; [auto |]. split; [reflexivity | lia].
Qed.

Lemma grows_trans w1 w2 w3 : grows w1 w2 -> grows w2 w3 -> grows w1 w3.
Proof.
  intros ([ops1 H1] & Hs1 & Hc1 & Ht1) ([ops2 H2] & Hs2 & Hc2 & Ht2).
  unfold grows. split; [exists (ops1 ++ ops2); now rewrite H2, H1, app_assoc |].
  split; [auto |]. split; [congruence | lia].
Qed.

Lemma grows_record o w : grows w (record o w).
Proof.
  unfold grows, record. cbn [trace self fee].
  split; [eauto |]. split; [auto |]. split; [reflexivity | lia].
Qed.

Lemma grows_onSelf f w :
  (forall s, solvedAddressChallenges (f s) = solvedAddressChallenges s) ->
  grows w (onSelf f w).
Proof.
  intros Hf. unfold grows, onSelf. cbn [trace self fee].
  split; [exists []; now rewrite app_nil_r |].
  split; [| split; [reflexivity | lia]].
  intros a c. now rewrite (hasSolved_ext a c _ _ (Hf (self w))).
Qed.

Lemma grows_markSolved a c w : grows w (onSelf (markSolved a c) w).
Proof.
  unfold grows, onSelf. cbn [trace self fee].
  split; [exists []; now rewrite app_nil_r |].
  split; [| split; [reflexivity | lia]].
  intros a' c'. apply hasSolved_markSolved_mono.
Qed.

Lemma grows_recordDevFeeSolution w : grows w (onFee DevFee.recordDevFeeSolution w).
Proof.
  unfold grows, onFee. cbn [trace self fee].
  split; [exists []; now rewrite app_nil_r |].
  split; [auto |]. split; [reflexivity |].
  unfold DevFee.getTotalDevFeeSolutions, DevFee.recordDevFeeSolution. cbn. lia.
Qed.

Lemma grows_concurrent other w : grows w (concurrent other w).
Proof.
  destruct other as [| |ch|h|a c|[]|t]; cbn [concurrent];
    try (apply grows_onSelf; intros s; reflexivity).
  - apply grows_markSolved.
  - eapply grows_trans; [| apply grows_recordDevFeeSolution].
    apply grows_onSelf; intros s; reflexivity.
  - unfold grows, setClock. cbn [trace self fee].
    split; [exists []; now rewrite app_nil_r |].
    split; [auto |]. split; [reflexivity | lia].
Qed.

Lemma grows_resume during : forall w, grows w (resume during w).
Proof.
  unfold resume. induction during as [|other during IH]; intros w; cbn [fold_left].
  - apply grows_refl.
  - eapply grows_trans; [apply grows_concurrent | apply IH].
Qed.

Lemma keeps_ret {A} (a : A) : keeps (ret a).
Proof. intros w. apply grows_refl. Qed.

Lemma keeps_raise {A} e : keeps (@raise A e).
Proof. intros w. apply grows_refl. Qed.

Lemma keeps_get : keeps get.
Proof. intros w. apply grows_refl. Qed.

Lemma keeps_now : keeps now.
Proof. intros w. apply grows_refl. Qed.

Lemma keeps_suspended {A} : keeps (fun w => (@Suspended A, w)).
Proof. intros w. apply grows_refl. Qed.

Lemma keeps_perform o : keeps (perform o).
Proof. intros w. apply grows_record. Qed.

Lemma keeps_emit e : keeps (emit e).
Proof. intros w. apply grows_record. Qed.

Lemma keeps_modify f :
  (forall s, solvedAddressChallenges (f s) = solvedAddressChallenges s) ->
  keeps (modify f).
Proof. intros Hf w. now apply grows_onSelf. Qed.

Lemma keeps_markSolved a c : keeps (modify (markSolved a c)).
Proof. intros w. apply grows_markSolved. Qed.

Lemma keeps_await during : keeps (await during).
Proof. intros w. apply grows_resume. Qed.

Lemma keeps_bind {A B} (m : M A) (k : A -> M B) :
  keeps m -> (forall a, keeps (k a)) -> keeps (bind m k).
Proof.
  intros Hm Hk w. unfold bind. specialize (Hm w).
  destruct (m w) as [[a|e|] w1]; cbn [snd] in *; [| exact Hm | exact Hm].
  eapply grows_trans; [exact Hm | apply Hk].
Qed.

Lemma keeps_tryCatch {A} (body : M A) handler :
  keeps body -> (forall e, keeps (handler e)) -> keeps (tryCatch body handler).
Proof.
  intros Hb Hh w. unfold tryCatch. specialize (Hb w).
  destruct (body w) as [[a|e|] w1]; cbn [snd] in *; [exact Hb | | exact Hb].
  eapply grows_trans; [exact Hb | apply Hh].
Qed.

Lemma keeps_forEach {A} (l : list A) body :
  (forall x, keeps (body x)) -> keeps (forEach l body).
Proof.
  intros Hb. induction l as [|x l IH]; cbn [forEach].
  - apply keeps_ret.
  - apply keeps_bind; [apply Hb | intros _; exact IH].
Qed.

(** Take a computation apart along its binds, handlers and branches. *)
Ltac keeping :=
  repeat match goal with
    | |- keeps (ret _) => apply keeps_ret
    | |- keeps (raise _) => apply keeps_raise
    | |- keeps get => apply keeps_get
    | |- keeps now => apply keeps_now
    | |- keeps (perform _) => apply keeps_perform
    | |- keeps (emit _) => apply keeps_emit
    | |- keeps (await _) => apply keeps_await
    | |- keeps (fun w => (Suspended, w)) => apply keeps_suspended
    | |- keeps (modify (markSolved _ _)) => apply keeps_markSolved
    | |- keeps (modify _) => apply keeps_modify; intros ?; reflexivity
    | |- keeps (bind _ _) => apply keeps_bind; [| intros ?]
    | |- keeps (tryCatch _ _) => apply keeps_tryCatch; [| intros ?]
    | |- keeps (if ?b then _ else _) => destruct b
    | |- keeps (match ?x with _ => _ end) => destruct x
    end.

Lemma keeps_loadSubmittedSolutions journal : keeps (loadSubmittedSolutions journal).
Proof.
  unfold loadSubmittedSolutions. apply keeps_tryCatch; [| intros e; keeping].
  destruct journal as [allReceipts|msg]; [| keeping].
  apply keeps_bind; [keeping | intros _].
  apply keeps_forEach. intros receipt.
  unfold loadReceipt, submittedSolutions_add, solvedAddressChallenges_add. keeping.
Qed.

Lemma keeps_axiosPost env : keeps (axiosPost env).
Proof. unfold axiosPost. keeping. Qed.

Lemma keeps_submitSolution env addr nonce hash preimage isDevFee :
  keeps (submitSolution env addr nonce hash preimage isDevFee).
Proof.
  unfold submitSolution. keeping; try apply keeps_axiosPost.
  intros w. apply grows_recordDevFeeSolution.
Qed.

Section MiningFrame.

Variable matchesDifficulty : string -> string -> bool.
Variable buildPreimage : string -> string -> option Challenge -> string.

Lemma keeps_scanHashes env addr challengeId difficulty isDevFee digests :
  forall batchData,
  keeps (scanHashes matchesDifficulty env addr challengeId difficulty isDevFee
           digests batchData).
Proof.
  induction digests as [|hash digests IH]; intros batchData;
    cbn [scanHashes]; [keeping |].
  destruct batchData as [|candidate batchData]; [keeping |].
  destruct (matchesDifficulty hash difficulty); [| apply IH].
  apply keeps_bind; [keeping | intros s].
  destruct (bool_decide (hash ∈ submittedSolutions s)); [apply IH |].
  unfold submittedSolutions_add, solvedAddressChallenges_add.
  keeping. apply keeps_submitSolution.
Qed.

Lemma keeps_hashAndScan env addr challengeId difficulty isDevFee step hashCount
    batchData :
  keeps (hashAndScan matchesDifficulty env addr challengeId difficulty isDevFee
           step hashCount batchData).
Proof.
  unfold hashAndScan.
  apply keeps_bind; [keeping | intros _].
  apply keeps_bind; [keeping | intros _].
  destruct (hashes step) as [digests|msg]; [| keeping].
  apply keeps_bind; [keeping | intros _].
  apply keeps_bind; [keeping | intros _].
  apply keeps_scanHashes.
Qed.

Lemma keeps_mineLoop env addr challengeId difficulty isDevFee rounds :
  forall hashCount,
  keeps (mineLoop matchesDifficulty buildPreimage env addr challengeId difficulty
           isDevFee rounds hashCount).
Proof.
  induction rounds as [|step rounds IH]; intros hashCount; cbn [mineLoop].
  - keeping.
  - apply keeps_bind; [keeping | intros s].
    destruct (negb (stillMining challengeId s)); [keeping |].
    destruct (buildBatch buildPreimage (random step) addr challengeId s 0 BATCH_SIZE)
      as [batchData|msg]; [| keeping].
    destruct (length batchData =? 0)%nat; [keeping |].
    apply keeps_bind.
    + apply keeps_tryCatch; [apply keeps_hashAndScan | intros e; keeping].
    + intros [|]; [keeping |].
      apply keeps_bind; [keeping | intros _].
      apply keeps_bind; [keeping | intros _]. apply IH.
Qed.

Lemma keeps_mineForAddress env addr isDevFee :
  keeps (mineForAddress matchesDifficulty buildPreimage env addr isDevFee).
Proof.
  unfold mineForAddress.
  apply keeps_bind; [keeping | intros _].
  apply keeps_bind; [keeping | intros s].
  destruct (currentChallenge s) as [current|]; [| keeping].
  destruct (negb (truthyId (currentChallengeId s))); [keeping |].
  destruct (negb (romReady env)); [keeping |].
  apply keeps_bind; [keeping | intros _].
  apply keeps_bind; [keeping | intros _].
  apply keeps_mineLoop.
Qed.

Lemma keeps_getDevFeeAddress api : keeps (Orchestrator.getDevFeeAddress api).
Proof.
  unfold Orchestrator.getDevFeeAddress.
  apply keeps_bind; [keeping | intros _]. intros w.
  pose proof (getDevFeeAddress_frame (clock w) api (fee w)) as [Hc Ht].
  destruct (DevFee.getDevFeeAddress (clock w) api (fee w)) as [[a|msg] m];
    cbn [snd] in *; unfold grows, onFee; cbn [trace self fee];
    (split; [exists []; now rewrite app_nil_r |]);
    (split; [auto |]); (split; [exact Hc | lia]).
Qed.

Lemma keeps_feeRounds rounds remaining :
  forall i, keeps (feeRounds matchesDifficulty buildPreimage rounds i remaining).
Proof.
  induction remaining as [|remaining IH]; intros i; cbn [feeRounds]; [keeping |].
  apply keeps_bind; [| intros _; apply IH].
  apply keeps_tryCatch; [| intros e; keeping].
  apply keeps_bind; [apply keeps_getDevFeeAddress | intros a].
  apply keeps_mineForAddress.
Qed.

Lemma keeps_checkAndMineDevFee rounds :
  keeps (checkAndMineDevFee matchesDifficulty buildPreimage rounds).
Proof.
  intros w. unfold checkAndMineDevFee.
  destruct (negb (DevFee.isEnabled (fee w))); [apply grows_refl |].
  destruct (devFeesNeeded w >? 0).
  - apply (keeps_bind (perform (OpConsole "Dev fee payment needed"))
             (fun _ => feeRounds matchesDifficulty buildPreimage rounds 0
                         (Z.to_nat (devFeesNeeded w)))).
    + keeping.
    + intros _. apply keeps_feeRounds.
  - destruct (devFeesNeeded w =? 0); apply grows_record.
Qed.

End MiningFrame.

Lemma keeps_stop : keeps stop.
Proof. unfold stop. keeping. Qed.

Lemma keeps_waitForRom probe fuel : forall k, keeps (waitForRom probe fuel k).
Proof.
  induction fuel as [|fuel IH]; intros k; cbn [waitForRom]; [keeping |].
  destruct (negb (probe k) && (500 * Z.of_nat k <? maxWait)); [| keeping].
  apply keeps_bind; [keeping | intros _; apply IH].
Qed.

Lemma keeps_newChallengeTransition env found :
  keeps (newChallengeTransition env found).
Proof.
  unfold newChallengeTransition.
  do 7 (apply keeps_bind; [keeping | intros ?]).
  destruct (initRom env); [| keeping].
  apply keeps_bind; [apply keeps_waitForRom | intros probes]. keeping.
Qed.

Lemma keeps_pollAndMine env : keeps (pollAndMine env).
Proof.
  unfold pollAndMine. destruct (fetched env) as [response|msg]; [| keeping].
  destruct (code response); [keeping | | apply keeps_stop].
  destruct (challenge response) as [found|]; [| keeping].
  apply keeps_bind; [keeping | intros s].
  destruct (bool_decide _); [keeping | apply keeps_newChallengeTransition].
Qed.

Lemma keeps_pollLoop env : keeps (pollLoop env).
Proof.
  unfold pollLoop. apply keeps_bind; [keeping | intros s].
  destruct (negb (isRunning s)); [keeping |].
  apply keeps_bind; [| intros _; keeping].
  apply keeps_tryCatch; [apply keeps_pollAndMine | intros e; keeping].
Qed.

Lemma keeps_registerAddress outcome p addr : keeps (registerAddress outcome p addr).
Proof. unfold registerAddress. keeping. Qed.

Lemma keeps_registerAll env total todo :
  forall registeredCount, keeps (registerAll env total todo registeredCount).
Proof.
  induction todo as [|[p addr] todo IH]; intros registeredCount;
    cbn [registerAll]; [keeping |].
  apply keeps_bind; [| intros count; apply IH].
  apply keeps_tryCatch; [| intros e; keeping].
  apply keeps_bind; [keeping | intros _].
  apply keeps_bind; [apply keeps_registerAddress | intros _]. keeping.
Qed.

Lemma keeps_ensureAddressesRegistered env : keeps (ensureAddressesRegistered env).
Proof.
  unfold ensureAddressesRegistered. apply keeps_bind; [keeping | intros s].
  cbv zeta. destruct (length _ =? 0)%nat; [keeping | apply keeps_registerAll].
Qed.

Lemma keeps_start env password : keeps (start env password).
Proof.
  unfold start. apply keeps_bind; [keeping | intros s].
  destruct (isRunning s); [keeping |].
  apply keeps_bind; [keeping | intros _].
  apply keeps_bind; [keeping | intros _].
  destruct (loadWallet env password) as [loaded|msg]; [| keeping].
  apply keeps_bind; [keeping | intros _].
  apply keeps_bind; [apply keeps_loadSubmittedSolutions | intros _].
  apply keeps_bind; [apply keeps_ensureAddressesRegistered | intros _].
  keeping.
Qed.

Lemma keeps_startMining_begin : keeps Scheduler.startMining_begin.
Proof.
  unfold Scheduler.startMining_begin. apply keeps_bind; [keeping | intros s].
  destruct (_ || _); [keeping |].
  do 5 (apply keeps_bind; [keeping | intros ?]).
  apply keeps_bind; [keeping | intros s'].
  cbv zeta. destruct (length _ =? 0)%nat; keeping.
Qed.

(** X8. No method of the orchestrator forgets a solved pair, lowers the
    count of paid fee solutions, changes the fee configuration or rewrites
    the trace: whatever the environment answers and whatever the other
    tasks do at each await, after [start], [stop], a poll tick, the entry
    of the scheduler, a miner, a submission, the reload of the journal or
    a fee check, the trace extends the former one, every pair recorded as
    solved is still recorded, the fee configuration is the same and the
    paid count is at least the former one. *)
Theorem methods_never_forget_solved_pairs
    (matchesDifficulty : string -> string -> bool)
    (buildPreimage : string -> string -> option Challenge -> string) :
  (forall env password, keeps (start env password)) /\
  keeps stop /\
  (forall env, keeps (pollLoop env)) /\
  (forall env, keeps (pollAndMine env)) /\
  keeps Scheduler.startMining_begin /\
  (forall env addr isDevFee,
     keeps (mineForAddress matchesDifficulty buildPreimage env addr isDevFee)) /\
  (forall env addr nonce hash preimage isDevFee,
     keeps (submitSolution env addr nonce hash preimage isDevFee)) /\
  (forall journal, keeps (loadSubmittedSolutions journal)) /\
  (forall rounds,
     keeps (checkAndMineDevFee matchesDifficulty buildPreimage rounds)) /\
  (forall env, keeps (ensureAddressesRegistered env)).
Proof.
  split; [intros; apply keeps_start |].
  split; [apply keeps_stop |].
  split; [intros; apply keeps_pollLoop |].
  split; [intros; apply keeps_pollAndMine |].
  split; [apply keeps_startMining_begin |].
  split; [intros; apply keeps_mineForAddress |].
  split; [intros; apply keeps_submitSolution |].
  split; [intros; apply keeps_loadSubmittedSolutions |].
  split; [intros; apply keeps_checkAndMineDevFee |].
  intros; apply keeps_ensureAddressesRegistered.
Qed.

(** *** Which calls come to an end *)

Lemma settles_ret {A} (a : A) : settles (ret a).
Proof. intros w. discriminate. Qed.







Lemma settles_bind {A B} (m : M A) (k : A -> M B) :
  settles m -> (forall a, settles (k a)) -> settles (bind m k).
Proof.
  intros Hm Hk w. unfold bind. specialize (Hm w).
  destruct (m w) as [[a|e|] w1]; cbn [fst] in *;
    [apply Hk | discriminate | congruence].
Qed.


Lemma settles_forEach {A} (l : list A) body :
  (forall x, settles (body x)) -> settles (forEach l body).
Proof.
  intros Hb. induction l as [|x l IH]; cbn [forEach].
  - apply settles_ret.
  - apply settles_bind; [apply Hb | intros _; exact IH].
Qed.






(** Evaluate the straight-line prefix of a computation. *)
Ltac mstep :=
  repeat (cbv beta;
          first [ rewrite bind_bind | rewrite bind_perform | rewrite bind_emit
                | rewrite bind_modify | rewrite bind_get | rewrite bind_ret
                | rewrite bind_now | rewrite bind_raise ]).

(** *** [stop], and what still runs after it *)



Section Cancellation.

Variable matchesDifficulty : string -> string -> bool.
Variable buildPreimage : string -> string -> option Challenge -> string.




End Cancellation.

(** *** The poll tick *)





(** *** The wait for the ROM and a failed initialisation *)

Lemma waitForRom_trace probe fuel : forall k w,
  exists n,
    waitForRom probe fuel k w
    = (Done (S (k + n)),
       {| self := self w; fee := fee w; clock := clock w;
          trace := trace w ++ repeat (OpSleep 500) n |}) /\
    (n <= fuel)%nat /\
    (forall j, (j < n)%nat -> probe (k + j)%nat = false) /\
    (forall j, (j < n)%nat -> 500 * Z.of_nat (k + j) < maxWait) /\
    ((n < fuel)%nat ->
     probe (k + n)%nat = true \/ maxWait <= 500 * Z.of_nat (k + n)).
Proof.
  induction fuel as [|fuel IH]; intros k w; cbn [waitForRom].
  - exists 0%nat. cbn [repeat]. rewrite app_nil_r, Nat.add_0_r.
    destruct w. repeat split; intros; lia.
  - destruct (probe k) eqn:Hprobe; cbn [negb andb].
    + exists 0%nat. cbn [repeat]. rewrite app_nil_r, Nat.add_0_r.
      destruct w. repeat split; intros; try lia. now left.
    + destruct (Z.ltb_spec (500 * Z.of_nat k) maxWait) as [Hlt|Hge].
      * rewrite bind_perform.
        destruct (IH (S k) (record (OpSleep 500) w)) as (n & Hrun & Hn & Hf & Ht & Hend).
        exists (S n). rewrite Hrun. cbn [record self fee clock trace repeat].
        rewrite <- app_assoc. cbn [app].
        replace (k + S n)%nat with (S k + n)%nat by lia.
        split; [reflexivity |]. split; [lia |].
        split; [| split].
        -- intros [|j] Hj; [now rewrite Nat.add_0_r |].
           replace (k + S j)%nat with (S k + j)%nat by lia. apply Hf. lia.
        -- intros [|j] Hj; [rewrite Nat.add_0_r; exact Hlt |].
           replace (k + S j)%nat with (S k + j)%nat by lia. apply Ht. lia.
        -- intros Hlt'. apply Hend. lia.
      * exists 0%nat. cbn [repeat]. rewrite app_nil_r, Nat.add_0_r.
        destruct w. repeat split; intros; lia.
Qed.

(** X12. The wait for the ROM, counting each sleep as 500 ms: from the
    first probe on it sleeps 500 ms after every probe that answers "not
    ready", stops at the first probe that answers "ready", and gives up
    after 120 sleeps, one minute; it changes nothing but the trace. *)
Theorem rom_wait_ends_within_a_minute (probe : nat -> bool) (w : World) :
  exists sleeps,
    waitForRom probe 121 0 w
    = (Done (S sleeps),
       {| self := self w; fee := fee w; clock := clock w;
          trace := trace w ++ repeat (OpSleep 500) sleeps |}) /\
    (sleeps <= 120)%nat /\
    (forall j, (j < sleeps)%nat -> probe j = false) /\
    ((sleeps < 120)%nat -> probe sleeps = true).
Proof.
  destruct (waitForRom_trace probe 121 0 w) as (n & Hrun & Hn & Hf & Ht & Hend).
  exists n. cbn [Nat.add] in *. split; [exact Hrun |].
  assert (Hbound : (n <= 120)%nat).
  { destruct (Nat.le_gt_cases n 120) as [|Hgt]; [assumption |].
    specialize (Ht 120%nat Hgt). unfold maxWait in Ht. lia. }
  split; [exact Hbound |]. split; [exact Hf |].
  intros Hlt. destruct Hend as [Hready|Hlate]; [lia | exact Hready |].
  unfold maxWait in Hlate. lia.
Qed.

Lemma newChallengeTransition_cases env found w :
  exists out w' sleeps,
    newChallengeTransition env found w = (out, w') /\
    isMining (self w') = false /\
    ((out = Done tt /\
      currentChallengeId (self w') = Some (challenge_id found) /\
      currentChallenge (self w') = Some found /\
      trace w' = trace w
        ++ (if isMining (self w) then [OpSleep 1000] else [])
        ++ [OpProcessedClear; OpSubmittedClear; OpInitRom (no_pre_mine found)]
        ++ repeat (OpSleep 500) sleeps
        ++ [OpEmit (EvStatus true (Some (challenge_id found))); OpSpawnMining]) \/
     ((exists error, out = Raised error) /\
      currentChallengeId (self w') = currentChallengeId (self w) /\
      currentChallenge (self w') = currentChallenge (self w) /\
      trace w' = trace w
        ++ (if isMining (self w) then [OpSleep 1000] else [])
        ++ [OpProcessedClear; OpSubmittedClear; OpInitRom (no_pre_mine found)]
        ++ repeat (OpSleep 500) sleeps)).
Proof.
  unfold newChallengeTransition. rewrite bind_get.
  destruct (isMining (self w)) eqn:Hm; mstep;
    (destruct (initRom env) as [[]|msg];
     [ match goal with
       | |- context [bind (waitForRom ?p ?f ?k) _ ?W] =>
           destruct (waitForRom_trace p f k W) as (n & Hrun & _);
           rewrite (bind_run _ _ _ _ _ Hrun); clear Hrun
       end;
       destruct (negb (isRomReady env (S (0 + n)))); mstep;
       cbn [self record onSelf isMining set_currentChallenge
            set_currentChallengeId set_submittedSolutions
            set_addressesProcessed set_isMining negb];
       rewrite ?Hm; cbn [negb]; rewrite ?bind_perform;
       eexists; eexists; exists n; (split; [reflexivity |]);
       cbn [self record onSelf trace isMining currentChallengeId
            currentChallenge set_currentChallenge set_currentChallengeId
            set_submittedSolutions set_addressesProcessed set_isMining];
       rewrite <- ?app_assoc; cbn [app];
       (split; [first [reflexivity | exact Hm] |]);
       [ right | left ]; repeat split; eauto
     | eexists; eexists; exists 0%nat; (split; [reflexivity |]);
       cbn [self record onSelf trace isMining currentChallengeId
            currentChallenge set_currentChallenge set_currentChallengeId
            set_submittedSolutions set_addressesProcessed set_isMining repeat];
       rewrite <- ?app_assoc; cbn [app];
       (split; [first [reflexivity | exact Hm] |]);
       right; repeat split; eauto ]).
Qed.



(** X11. A transition to a new challenge that does not complete (the ROM
    cannot be built, or is not ready after the wait) throws, and leaves
    the orchestrator on the old challenge: the current challenge and its
    id are unchanged, the mining flag is off and the scheduler is not
    started. As the id still differs from the one polled, the next tick
    takes the transition again. *)
Theorem failed_transition_keeps_old_challenge (env : PollEnv)
    (response : ChallengeResponse) (found : Challenge) (w : World)
    (Hfetched : fetched env = Ok response)
    (Hactive : code response = active)
    (Hchallenge : challenge response = Some found)
    (Hnew : Some (challenge_id found) <> currentChallengeId (self w))
    (Hfails : fst (pollAndMine env w) <> Done tt) :
  let w' := snd (pollAndMine env w) in
  (exists error, fst (pollAndMine env w) = Raised error) /\
  currentChallengeId (self w') = currentChallengeId (self w) /\
  currentChallenge (self w') = currentChallenge (self w) /\
  isMining (self w') = false /\
  ~ In OpSpawnMining (performed (pollAndMine env) w) /\
  pollAndMine env w' = newChallengeTransition env found w'.
Proof.
  cbv zeta.
  pose proof (pollAndMine_new_challenge env response found w
                Hfetched Hactive Hchallenge Hnew) as Hpoll.
  destruct (newChallengeTransition_cases env found w)
    as (out & w' & sleeps & Hrun & Hmining & Hcases).
  rewrite <- Hpoll in Hrun. rewrite Hrun in Hfails.
  rewrite (performed_app (pollAndMine env) w
             ((if isMining (self w) then [OpSleep 1000] else [])
              ++ [OpProcessedClear; OpSubmittedClear; OpInitRom (no_pre_mine found)]
              ++ repeat (OpSleep 500) sleeps));
    rewrite Hrun; cbn [fst snd] in *;
    destruct Hcases as [(-> & _)|([error ->] & Hid & Hch & Htrace)];
    try congruence.
  split; [now exists error |]. split; [exact Hid |]. split; [exact Hch |].
  split; [exact Hmining |]. split.
  - rewrite !in_app_iff. intros [Hin|[Hin|Hin]].
    + destruct (isMining (self w)); cbn [In] in Hin; intuition discriminate.
    + cbn [In] in Hin. intuition discriminate.
    + apply repeat_spec in Hin. discriminate.
  - apply (pollAndMine_new_challenge env response found w');
      [assumption .. |]. now rewrite Hid.
Qed.

Lemma failed_transition_keeps_old_challenge_witness :
  let w' := snd (pollAndMine Samples.brokenRomPoll Samples.solvedWorld) in
  fst (pollAndMine Samples.brokenRomPoll Samples.solvedWorld)
  = Raised (plainError "ROM allocation failed") /\
  currentChallengeId (self w') = Some "**D07C10"%string /\
  pollAndMine Samples.brokenRomPoll w'
  = newChallengeTransition Samples.brokenRomPoll Samples.challengeC11 w'.
Proof.
  destruct (failed_transition_keeps_old_challenge Samples.brokenRomPoll
              {| code := active; challenge := Some Samples.challengeC11;
                 starts_at := None |}
              Samples.challengeC11 Samples.solvedWorld
              eq_refl eq_refl eq_refl ltac:(discriminate) ltac:(discriminate))
    as (_ & Hid & _ & _ & _ & Hnext).
  cbv zeta. split; [reflexivity |]. split; [| exact Hnext].
  rewrite Hid. reflexivity.
Defined.


(** *** Registration of the wallet's addresses *)

Lemma registerOne_run env total p addr count w :
  exists count' w1 ops,
    tryCatch
      (emit (EvRegistrationProgress (index addr) (bech32 addr) count total false) ;;
       registerAddress (registration env p) p addr ;;
       emit (EvRegistrationProgress (index addr) (bech32 addr)
               (count + 1) total true) ;;
       perform (OpSleep 1500) ;;
       ret (count + 1))
      (fun error =>
         perform (OpLoggerError "Failed to register address") ;;
         emit (EvRegistrationProgress (index addr) (bech32 addr) count total false) ;;
         ret count) w
    = (Done count', w1) /\
    trace w1 = trace w ++ ops /\
    List.filter isRegister ops
    = (if walletManager (self w) then [OpRegister (index addr)] else []) /\
    walletManager (self w1) = walletManager (self w) /\
    addresses (self w1)
    = (if walletManager (self w) && isOk (registration env p)
       then <[p := markRegistered addr]> (addresses (self w))
       else addresses (self w)).
Proof.
  unfold tryCatch, registerAddress. mstep.
  change (self (record (OpEmit (EvRegistrationProgress (index addr) (bech32 addr)
                                  count total false)) w)) with (self w).
  destruct (walletManager (self w)) eqn:Hw; cbn [negb andb]; mstep.
  - destruct (registration env p) as [[]|msg]; cbn [isOk]; mstep;
      cbv beta iota delta [ret raise]; mstep;
      do 3 eexists; (split; [reflexivity |]);
      cbn [record onSelf self trace walletManager addresses set_addresses];
      rewrite <- ?app_assoc; cbn [app];
      (split; [reflexivity |]); (split; [reflexivity |]);
      (split; [exact Hw | reflexivity]).
  - cbv beta iota delta [ret raise]; mstep.
    do 3 eexists; (split; [reflexivity |]);
      cbn [record onSelf self trace walletManager addresses set_addresses];
      rewrite <- ?app_assoc; cbn [app];
      (split; [reflexivity |]); (split; [reflexivity |]);
      (split; [exact Hw | reflexivity]).
Qed.

Lemma registerAll_run env total : forall todo count w,
  exists w' ops,
    registerAll env total todo count w = (Done tt, w') /\
    trace w' = trace w ++ ops /\
    List.filter isRegister ops
    = (if walletManager (self w)
       then map (fun e => OpRegister (index (snd e))) todo else []) /\
    walletManager (self w') = walletManager (self w) /\
    addresses (self w')
    = fold_left
        (fun l e =>
           if walletManager (self w) && isOk (registration env (fst e))
           then <[fst e := markRegistered (snd e)]> l else l)
        todo (addresses (self w)).
Proof.
  induction todo as [|[p addr] todo IH]; intros count w; cbn [registerAll].
  - exists w, []. rewrite app_nil_r. destruct (walletManager (self w)); repeat split.
  - cbn [fold_left map fst snd].
    destruct (registerOne_run env total p addr count w)
      as (count' & w1 & ops1 & Hone & Htrace1 & Hreg1 & Hw1 & Haddr1).
    rewrite (bind_run _ _ _ _ _ Hone).
    destruct (IH count' w1) as (w' & ops & Hrun & Htrace & Hreg & Hw & Haddr).
    exists w', (ops1 ++ ops). split; [exact Hrun |].
    split; [now rewrite Htrace, Htrace1, app_assoc |].
    split; [| split; [congruence |]].
    + rewrite List.filter_app, Hreg1, Hreg, Hw1.
      now destruct (walletManager (self w)).
    + now rewrite Haddr, Hw1, Haddr1.
Qed.

Lemma fold_register (ok : nat -> bool) : forall l0 pre,
  fold_left
    (fun l e => if ok (fst e) then <[fst e := markRegistered (snd e)]> l else l)
    (unregisteredFrom (length pre) l0) (pre ++ l0)
  = pre ++ imap (fun j a => if negb (registered a) && ok (length pre + j)%nat
                            then markRegistered a else a) l0.
Proof.
  assert (Hshift : forall pre (a : DerivedAddress) l0,
            imap (fun j x => if negb (registered x) && ok (length (pre ++ [a]) + j)%nat
                             then markRegistered x else x) l0
            = imap ((fun j x => if negb (registered x) && ok (length pre + j)%nat
                                then markRegistered x else x) ∘ S) l0).
  { intros pre a l0. apply imap_ext. intros j x _. cbn [compose].
    rewrite length_app. cbn [length].
    now replace (length pre + 1 + j)%nat with (length pre + S j)%nat by lia. }
  induction l0 as [|a l0 IH]; intros pre; cbn [unregisteredFrom imap];
    [reflexivity |].
  rewrite Nat.add_0_r.
  destruct (registered a) eqn:Hr; cbn [negb andb].
  - replace (pre ++ a :: l0) with ((pre ++ [a]) ++ l0)
      by (now rewrite <- app_assoc).
    replace (S (length pre)) with (length (pre ++ [a]))
      by (rewrite length_app; cbn [length]; lia).
    rewrite IH, Hshift, <- app_assoc. reflexivity.
  - cbn [fold_left fst snd].
    destruct (ok (length pre)) eqn:Hok.
    + rewrite insert_app_r_alt by lia. rewrite Nat.sub_diag. cbn [insert list_insert].
      replace (pre ++ markRegistered a :: l0)
        with ((pre ++ [markRegistered a]) ++ l0) by (now rewrite <- app_assoc).
      replace (S (length pre)) with (length (pre ++ [markRegistered a]))
        by (rewrite length_app; cbn [length]; lia).
      rewrite IH, Hshift, <- app_assoc. reflexivity.
    + replace (pre ++ a :: l0) with ((pre ++ [a]) ++ l0)
        by (now rewrite <- app_assoc).
      replace (S (length pre)) with (length (pre ++ [a]))
        by (rewrite length_app; cbn [length]; lia).
      rewrite IH, Hshift, <- app_assoc. reflexivity.
Qed.

Lemma unregisteredFrom_indexes l : forall p,
  map (fun e => OpRegister (index (snd e))) (unregisteredFrom p l)
  = map (fun a => OpRegister (index a))
        (List.filter (fun a => negb (registered a)) l).
Proof.
  induction l as [|a l IH]; intros p; cbn [unregisteredFrom List.filter map];
    [reflexivity |].
  destruct (registered a); cbn [negb map snd]; now rewrite IH.
Qed.

Lemma ensureAddressesRegistered_run env w :
  exists w' ops,
    ensureAddressesRegistered env w = (Done tt, w') /\
    trace w' = trace w ++ ops /\
    List.filter isRegister ops
    = (if walletManager (self w)
       then map (fun e => OpRegister (index (snd e)))
              (unregisteredFrom 0 (addresses (self w))) else []) /\
    addresses (self w')
    = fold_left
        (fun l e =>
           if walletManager (self w) && isOk (registration env (fst e))
           then <[fst e := markRegistered (snd e)]> l else l)
        (unregisteredFrom 0 (addresses (self w))) (addresses (self w)).
Proof.
  unfold ensureAddressesRegistered. rewrite bind_get. cbv zeta.
  destruct (length (unregisteredFrom 0 (addresses (self w))) =? 0)%nat eqn:Hlen.
  - apply Nat.eqb_eq, nil_length_inv in Hlen. rewrite Hlen.
    exists w, []. rewrite app_nil_r.
    destruct (walletManager (self w)); repeat split.
  - destruct (registerAll_run env
                (Z.of_nat (length (unregisteredFrom 0 (addresses (self w)))))
                (unregisteredFrom 0 (addresses (self w))) 0 w)
      as (w' & ops & Hall & Htrace & Hreg & _ & Haddr).
    exists w', ops. repeat split; assumption.
Qed.

(** X13. Registration at start-up never throws. With a wallet manager
    it tries each address of the wallet that is not registered once, in
    wallet order, and afterwards exactly the addresses that were
    registered before or whose registration succeeded are marked as
    registered; every address keeps its position, index, bech32 form and
    public key. A failed registration does not stop the ones after it.
    Without a wallet manager no registration is tried and no address is
    marked. *)
Theorem registration_marks_what_succeeded (env : StartEnv) (w : World) :
  exists w',
    ensureAddressesRegistered env w = (Done tt, w') /\
    addresses (self w')
    = imap (fun p a =>
              if negb (registered a)
                 && (walletManager (self w) && isOk (registration env p))
              then markRegistered a else a)
        (addresses (self w)) /\
    List.filter isRegister (performed (ensureAddressesRegistered env) w)
    = (if walletManager (self w)
       then map (fun a => OpRegister (index a))
              (List.filter (fun a => negb (registered a)) (addresses (self w)))
       else []).
Proof.
  pose proof (fold_register
                (fun p => walletManager (self w) && isOk (registration env p))
                (addresses (self w)) []) as Hfold.
  cbn [length app Nat.add fst snd] in Hfold.
  destruct (ensureAddressesRegistered_run env w)
    as (w' & ops & Hrun & Htrace & Hreg & Haddr).
  exists w'. split; [exact Hrun |]. split.
  - rewrite Haddr. exact Hfold.
  - rewrite (performed_app _ _ ops) by (now rewrite Hrun).
    rewrite Hreg. now rewrite unregisteredFrom_indexes.
Qed.

(** *** [start] *)

Lemma loadSubmittedSolutions_returns journal w :
  exists w', loadSubmittedSolutions journal w = (Done tt, w').
Proof.
  destruct journal as [allReceipts|msg].
  - unfold loadSubmittedSolutions. cbv zeta.
    destruct (forEach_loadReceipt (userReceiptsOf allReceipts)
                (onSelf (set_userSolutionsCount
                           (Z.of_nat (length (userReceiptsOf allReceipts)))) w))
      as (w' & Hrun & _).
    exists w'. apply tryCatch_done. now rewrite bind_modify.
  - rewrite load_failure_is_swallowed. eauto.
Qed.

Lemma start_run env password w :
  isRunning (self w) = false ->
  exists w',
    snd (start env password w) = w' /\
    match loadWallet env password with
    | Ok loaded =>
        exists ops,
          fst (start env password w) = Done tt /\
          isRunning (self w') = true /\
          solutionsFound (self w') = 0 /\
          startTime (self w') = Some (clock w') /\
          trace w' = trace w ++ OpLoadWallet :: ops
                     ++ [OpSpawnPollLoop;
                         OpEmit (EvStatus true (currentChallengeId (self w')))]
    | Throw msg =>
        fst (start env password w) = Raised (plainError msg) /\
        isRunning (self w') = false /\
        trace w' = trace w ++ [OpLoadWallet]
    end.
Proof.
  intros Hstopped. unfold start. rewrite bind_get, Hstopped. mstep.
  destruct (loadWallet env password) as [loaded|msg].
  - mstep.
    match goal with
    | |- context [bind (loadSubmittedSolutions ?j) _ ?W] =>
        destruct (loadSubmittedSolutions_returns j W) as (w1 & Hload);
        pose proof (keeps_loadSubmittedSolutions j W) as ([ops1 Htrace1] & _);
        rewrite (bind_run _ _ _ _ _ Hload)
    end.
    rewrite Hload in Htrace1. cbn [snd] in Htrace1.
    destruct (ensureAddressesRegistered_run env w1)
      as (w2 & ops2 & Hensure & Htrace2 & _).
    rewrite (bind_run _ _ _ _ _ Hensure). mstep. unfold emit, perform.
    eexists. split; [reflexivity |]. exists (ops1 ++ ops2).
    cbn [fst snd record onSelf self trace clock isRunning solutionsFound startTime
         currentChallengeId set_isRunning set_startTime set_solutionsFound].
    repeat split.
    rewrite Htrace2, Htrace1. cbn [record onSelf trace].
    rewrite <- !app_assoc. reflexivity.
  - eexists. split; [reflexivity |]. cbn [fst snd record onSelf self trace].
    repeat split. exact Hstopped.
Qed.

(** X14. [start] on a stopped orchestrator runs exactly when the wallet
    loads. If [loadWallet] throws, [start] throws the same error, the
    orchestrator is still not running and no poll loop is started, so a
    later [start] tries again. Otherwise [start] returns, whatever the
    receipt journal and the registrations do: the orchestrator is
    running, the count of solutions found is zero, the start time is the
    current time, and the last two operations start the poll loop and
    publish the status. *)
Theorem start_runs_iff_wallet_loads (env : StartEnv) (password : string)
    (w : World) (Hstopped : isRunning (self w) = false) :
  let w' := snd (start env password w) in
  match loadWallet env password with
  | Ok loaded =>
      exists ops,
        fst (start env password w) = Done tt /\
        isRunning (self w') = true /\
        solutionsFound (self w') = 0 /\
        startTime (self w') = Some (clock w') /\
        performed (start env password) w
        = OpLoadWallet :: ops
          ++ [OpSpawnPollLoop;
              OpEmit (EvStatus true (currentChallengeId (self w')))]
  | Throw msg =>
      fst (start env password w) = Raised (plainError msg) /\
      isRunning (self w') = false /\
      performed (start env password) w = [OpLoadWallet]
  end.
Proof.
  cbv zeta. destruct (start_run env password w Hstopped) as (w' & Hw' & Hcases).
  rewrite Hw'. destruct (loadWallet env password) as [loaded|msg].
  - destruct Hcases as (ops & Hdone & Hrunning & Hfound & Htime & Htrace).
    exists ops. repeat split; try assumption.
    apply performed_app. now rewrite Hw'.
  - destruct Hcases as (Hraised & Hrunning & Htrace).
    repeat split; try assumption. apply performed_app. now rewrite Hw'.
Qed.

Lemma start_runs_iff_wallet_loads_witness :
  fst (start Samples.sampleStartEnv "hunter2" Samples.stoppedWorld) = Done tt /\
  isRunning (self (snd (start Samples.sampleStartEnv "hunter2" Samples.stoppedWorld)))
  = true.
Proof.
  destruct (start_runs_iff_wallet_loads Samples.sampleStartEnv "hunter2"
              Samples.stoppedWorld eq_refl)
    as (ops & Hdone & Hrunning & _).
  split; assumption.
Defined.

(** *** The scheduler *)

Lemma batchesFrom_partition fuel : forall l,
  (length l <= fuel)%nat ->
  concat (batchesFrom fuel l) = l /\
  Forall (fun batch => (0 < length batch <= workerThreads)%nat)
    (batchesFrom fuel l).
Proof.
  induction fuel as [|fuel IH]; intros l Hlen; cbn [batchesFrom].
  - destruct l; [split; [reflexivity | constructor] | cbn in Hlen; lia].
  - destruct l as [|a l]; [split; [reflexivity | constructor] |].
    destruct (IH (drop workerThreads (a :: l))) as [Hconcat Hall].
    { rewrite length_drop. unfold workerThreads. cbn [length] in *. lia. }
    cbn [concat]. rewrite Hconcat. split; [apply take_drop |].
    constructor; [| exact Hall].
    rewrite length_take. unfold workerThreads. cbn [length]. lia.
Qed.

Lemma addressesToMine_spec challengeId s addr :
  In addr (addressesToMine challengeId s) <->
  In addr (addresses s) /\ registered addr = true /\
  hasSolved (bech32 addr) challengeId s = false.
Proof.
  unfold addressesToMine. rewrite !filter_In, negb_true_iff. tauto.
Qed.

(** X15. The entry of the scheduler. When mining is already on, or no
    challenge is current, [startMining] returns without any effect.
    Otherwise it resets the hash counter and cuts the addresses to mine
    into slices of at most [workerThreads] addresses: the slices are not
    empty and, put end to end, are exactly the registered addresses of
    the wallet that have not solved the current challenge, in wallet
    order. The mining flag is on afterwards exactly when there is such
    an address. *)
Theorem scheduler_slices_the_unsolved_addresses (w : World) :
  exists slices w',
    Scheduler.startMining_begin w = (Done slices, w') /\
    if isMining (self w)
       || negb (match currentChallenge (self w) with
                | Some _ => true | None => false end)
       || negb (truthyId (currentChallengeId (self w)))
    then slices = [] /\ w' = w
    else
      let challengeId := default "" (currentChallengeId (self w)) in
      let toMine := addressesToMine challengeId (self w) in
      concat slices = toMine /\
      Forall (fun batch => (0 < length batch <= workerThreads)%nat) slices /\
      (forall addr,
         In addr toMine <->
         In addr (addresses (self w)) /\ registered addr = true /\
         hasSolved (bech32 addr) challengeId (self w) = false) /\
      isMining (self w') = negb (length toMine =? 0)%nat /\
      totalHashesComputed (self w') = 0.
Proof.
  unfold Scheduler.startMining_begin. rewrite bind_get.
  destruct (isMining (self w)
            || negb (match currentChallenge (self w) with
                     | Some _ => true | None => false end)
            || negb (truthyId (currentChallengeId (self w)))).
  - exists [], w. repeat split.
  - mstep. cbv zeta.
    cbn [self record onSelf clock].
    change (currentChallengeId
              (set_lastHashRateUpdate (clock w)
                 (set_totalHashesComputed 0 (set_isMining true (self w)))))
      with (currentChallengeId (self w)).
    change (addressesToMine (default "" (currentChallengeId (self w)))
              (set_lastHashRateUpdate (clock w)
                 (set_totalHashesComputed 0 (set_isMining true (self w)))))
      with (addressesToMine (default "" (currentChallengeId (self w))) (self w)).
    destruct (batchesFrom_partition
                (length (addressesToMine (default "" (currentChallengeId (self w)))
                           (self w)))
                (addressesToMine (default "" (currentChallengeId (self w))) (self w))
                (le_n _)) as [Hconcat Hall].
    destruct (length (addressesToMine (default "" (currentChallengeId (self w)))
                        (self w)) =? 0)%nat eqn:Hlen.
    + apply Nat.eqb_eq, nil_length_inv in Hlen.
      mstep. eexists; eexists. split; [reflexivity |]. cbv zeta.
      split; [now rewrite Hlen |]. split; [constructor |].
      split; [intros addr; apply addressesToMine_spec |].
      split; reflexivity.
    + eexists; eexists. split; [reflexivity |]. cbv zeta.
      split; [exact Hconcat |]. split; [exact Hall |].
      split; [intros addr; apply addressesToMine_spec |].
      split; reflexivity.
Qed.

(** *** The scan of a batch of digests *)

Section Scan.

Variable matchesDifficulty : string -> string -> bool.

(** X16. The scan of the digests of a batch submits the first digest
    that meets the difficulty and is not in the Submitted-Hash Set,
    together with the nonce of the candidate at the same position of the
    batch, and stops there; the digests before it are skipped without any
    effect. With no such digest the scan does nothing at all. It throws
    only when the hash service returned more digests than the batch has
    candidates. *)
Theorem scan_submits_the_first_fresh_match (env : SubmitEnv)
    (addr : DerivedAddress) (challengeId difficulty : string) (isDevFee : bool)
    (digests : list string) (batchData : list Candidate) (w : World) :
  exists out w',
    scanHashes matchesDifficulty env addr challengeId difficulty isDevFee
      digests batchData w = (out, w') /\
    match out with
    | Done true =>
        exists i hash candidate post,
          digests !! i = Some hash /\ batchData !! i = Some candidate /\
          matchesDifficulty hash difficulty = true /\
          (hash ∉ submittedSolutions (self w)) /\
          (forall j h, (j < i)%nat -> digests !! j = Some h ->
             matchesDifficulty h difficulty = false \/
             h ∈ submittedSolutions (self w)) /\
          trace w' = trace w ++
            solutionFound addr challengeId (nonce candidate) hash isDevFee ++ post
    | Done false =>
        w' = w /\ (length digests <= length batchData)%nat /\
        forall h, In h digests ->
          matchesDifficulty h difficulty = false \/ h ∈ submittedSolutions (self w)
    | Raised _ => w' = w /\ (length batchData < length digests)%nat
    | Suspended => False
    end.
Proof.
  revert batchData w.
  induction digests as [|hash digests IH]; intros batchData w; cbn [scanHashes].
  - exists (Done false), w. split; [reflexivity |].
    split; [reflexivity |]. split; [cbn [length]; lia |]. intros h [].
  - destruct batchData as [|candidate batchData].
    { eexists; exists w. split; [reflexivity |]. cbn [length]. split; [reflexivity | lia]. }
    assert (Hskip :
      matchesDifficulty hash difficulty = false \/ hash ∈ submittedSolutions (self w) ->
      exists out w',
        scanHashes matchesDifficulty env addr challengeId difficulty isDevFee
          digests batchData w = (out, w') /\
        match out with
        | Done true =>
            exists i hash0 candidate0 post,
              (hash :: digests) !! i = Some hash0 /\
              (candidate :: batchData) !! i = Some candidate0 /\
              matchesDifficulty hash0 difficulty = true /\
              (hash0 ∉ submittedSolutions (self w)) /\
              (forall j h, (j < i)%nat -> (hash :: digests) !! j = Some h ->
                 matchesDifficulty h difficulty = false \/
                 h ∈ submittedSolutions (self w)) /\
              trace w' = trace w ++
                solutionFound addr challengeId (nonce candidate0) hash0 isDevFee
                ++ post
        | Done false =>
            w' = w /\ (length (hash :: digests) <= length (candidate :: batchData))%nat /\
            forall h, In h (hash :: digests) ->
              matchesDifficulty h difficulty = false \/
              h ∈ submittedSolutions (self w)
        | Raised _ =>
            w' = w /\ (length (candidate :: batchData) < length (hash :: digests))%nat
        | Suspended => False
        end).
    { intros Hnot. destruct (IH batchData w) as (out & w' & Hrun & Hout).
      exists out, w'. split; [exact Hrun |].
      destruct out as [[|]|e|]; [| | | exact Hout].
      - destruct Hout as (i & h0 & c0 & post & Hd & Hb & Hm & Hf & Hbefore & Ht).
        exists (S i), h0, c0, post. repeat split; try assumption.
        intros [|j] h Hj Hh; [cbn in Hh; injection Hh as <-; exact Hnot |].
        apply (Hbefore j); [lia | exact Hh].
      - destruct Hout as (-> & Hlen & Hall). cbn [length].
        split; [reflexivity |]. split; [lia |].
        intros h [<-|Hin]; [exact Hnot | now apply Hall].
      - destruct Hout as (-> & Hlen). cbn [length]. split; [reflexivity | lia]. }
    destruct (matchesDifficulty hash difficulty) eqn:Hmatch; [| apply Hskip; now left].
    rewrite bind_get.
    destruct (bool_decide (hash ∈ submittedSolutions (self w))) eqn:Hseen.
    { apply Hskip. right. now apply bool_decide_eq_true in Hseen. }
    apply bool_decide_eq_false in Hseen.
    unfold submittedSolutions_add, solvedAddressChallenges_add. mstep.
    match goal with
    | |- context [bind (submitSolution ?e ?a ?n ?h ?p ?f) _ ?W] =>
        destruct (submitSolution_shape e a n h p f W)
          as (post & w' & Hrun & Htrace & _);
        rewrite (bind_run _ _ _ _ _ Hrun)
    end.
    exists (Done true), w'. split; [reflexivity |].
    exists 0%nat, hash, candidate, post. repeat split; try assumption.
    + intros j h Hj. lia.
    + rewrite Htrace. cbn [record onSelf trace solutionFound].
      rewrite <- !app_assoc. reflexivity.
Qed.

Lemma submitSolution_posts env addr nonce hash preimage isDevFee w :
  truthyId (currentChallengeId (self w)) = true ->
  walletManager (self w) = true ->
  exists w' rest,
    submitSolution env addr nonce hash preimage isDevFee w = (Done tt, w') /\
    trace w' = trace w ++
      OpSubmitSolution (bech32 addr) nonce hash isDevFee ::
      OpPost (bech32 addr) (default "" (currentChallengeId (self w))) nonce :: rest /\
    List.filter isPost rest = [].
Proof.
  intros Hid Hwallet. destruct (rejection (post env)) as [error|] eqn:Hrej.
  - rewrite (submitSolution_rejected env addr nonce hash preimage isDevFee w error
               Hid Hwallet Hrej).
    eexists; eexists. split; [reflexivity |]. cbn [trace]. split; reflexivity.
  - apply rejection_None in Hrej as (st & text & receipt & msg & Hpost & Hrange).
    apply accepted_range in Hrange.
    destruct (submitSolution_accepted env addr nonce hash preimage isDevFee w
                st text receipt msg Hid Hwallet Hpost Hrange)
      as (w' & Hrun & Htrace & _).
    exists w'. eexists. split; [exact Hrun |]. split; [exact Htrace |].
    destruct isDevFee; reflexivity.
Qed.

Lemma hashAndScan_found env addr challengeId difficulty isDevFee step hashCount
    candidate batchData hash digests current w :
  hashes step = Ok (hash :: digests) ->
  matchesDifficulty hash difficulty = true ->
  hash ∉ submittedSolutions (self (resume (during_hash step) w)) ->
  currentChallengeId (self (resume (during_hash step) w)) = Some current ->
  JS.truthy current = true ->
  walletManager (self (resume (during_hash step) w)) = true ->
  exists w' rest,
    hashAndScan matchesDifficulty env addr challengeId difficulty isDevFee
      step hashCount (candidate :: batchData) w = (Done true, w') /\
    trace w' = trace w ++
      OpHashBatch (length (candidate :: batchData)) ::
      solutionFound addr challengeId (nonce candidate) hash isDevFee ++
      OpPost (bech32 addr) current (nonce candidate) :: rest /\
    List.filter isPost rest = [] /\
    hasSolved (bech32 addr) challengeId (self w') = true.
Proof.
  intros Hhashes Hmatch Hfresh Hcurrent Htruthy Hwallet.
  unfold hashAndScan. rewrite bind_perform, bind_await, Hhashes, bind_modify.
  rewrite resume_record.
  assert (Hscan : forall W,
            self W = set_totalHashesComputed
                       (totalHashesComputed (self (resume (during_hash step) w))
                        + Z.of_nat (length (hash :: digests)))
                       (self (resume (during_hash step) w)) ->
            trace W = trace w ++ [OpHashBatch (length (candidate :: batchData))] ->
            exists w' rest,
              scanHashes matchesDifficulty env addr challengeId difficulty isDevFee
                (hash :: digests) (candidate :: batchData) W = (Done true, w') /\
              trace w' = trace w ++
                OpHashBatch (length (candidate :: batchData)) ::
                solutionFound addr challengeId (nonce candidate) hash isDevFee ++
                OpPost (bech32 addr) current (nonce candidate) :: rest /\
              List.filter isPost rest = [] /\
              hasSolved (bech32 addr) challengeId (self w') = true).
  { intros W Hself Htrace. cbn [scanHashes]. rewrite Hmatch, bind_get.
    rewrite bool_decide_eq_false_2 by (now rewrite Hself).
    unfold submittedSolutions_add, solvedAddressChallenges_add. mstep.
    match goal with
    | |- context [bind (submitSolution ?e ?a ?n ?h ?p ?f) _ ?W1] =>
        pose proof (keeps_submitSolution e a n h p f W1) as (_ & Hkept & _);
        destruct (submitSolution_posts e a n h p f W1)
          as (w' & rest & Hrun & Htrace' & Hrest)
    end.
    - cbn [record onSelf self]. rewrite Hself.
      change (currentChallengeId _)
        with (currentChallengeId (self (resume (during_hash step) w))).
      now rewrite Hcurrent.
    - cbn [record onSelf self]. rewrite Hself. exact Hwallet.
    - rewrite (bind_run _ _ _ _ _ Hrun). rewrite Hrun in Hkept. cbn [snd] in Hkept.
      exists w', rest. split; [reflexivity |]. split; [| split; [exact Hrest |]].
      + rewrite Htrace'. cbn [record onSelf trace self solutionFound].
        rewrite Htrace, Hself.
        change (currentChallengeId _)
          with (currentChallengeId (self (resume (during_hash step) w))).
        rewrite Hcurrent, <- !app_assoc. reflexivity.
      + apply Hkept. cbn [record onSelf self]. apply hasSolved_markSolved_same. }
  match goal with
  | |- context [bind _ _ ?W] =>
      destruct (Hscan W) as (w' & rest & Hrun & Hrest)
  end.
  - reflexivity.
  - cbn [record onSelf trace]. now rewrite trace_resume.
  - exists w', rest. split; [| exact Hrest].
    destruct (countAfter hashCount (Ok (hash :: digests))
              =? Z.of_nat (length (hash :: digests))); rewrite bind_ret; exact Hrun.
Qed.

(** X17. A solution found in a batch is recorded as solved under the
    challenge id the miner started with, but it is posted under the
    challenge id that is current when the digests come back. If the
    poller has switched to another challenge while the batch was hashed,
    the miner still scans the digests, marks its address as solved for
    the old challenge and posts the nonce to the new one. *)
Theorem solution_is_posted_under_the_current_challenge (env : SubmitEnv)
    (addr : DerivedAddress) (challengeId difficulty : string) (isDevFee : bool)
    (step : MineStep) (hashCount : Z) (candidate : Candidate)
    (batchData : list Candidate) (hash : string) (digests : list string)
    (current : string) (w : World)
    (Hhashes : hashes step = Ok (hash :: digests))
    (Hmatch : matchesDifficulty hash difficulty = true)
    (Hfresh : hash ∉ submittedSolutions (self (resume (during_hash step) w)))
    (Hcurrent : currentChallengeId (self (resume (during_hash step) w))
                = Some current)
    (Htruthy : JS.truthy current = true)
    (Hwallet : walletManager (self (resume (during_hash step) w)) = true) :
  let run := hashAndScan matchesDifficulty env addr challengeId difficulty
               isDevFee step hashCount (candidate :: batchData) in
  let ops := performed run w in
  fst (run w) = Done true /\
  In (OpSolvedAdd (bech32 addr) challengeId) ops /\
  List.filter isPost ops = [OpPost (bech32 addr) current (nonce candidate)] /\
  hasSolved (bech32 addr) challengeId (self (snd (run w))) = true.
Proof.
  cbv zeta.
  destruct (hashAndScan_found env addr challengeId difficulty isDevFee step
              hashCount candidate batchData hash digests current w
              Hhashes Hmatch Hfresh Hcurrent Htruthy Hwallet)
    as (w' & rest & Hrun & Htrace & Hrest & Hsolved).
  rewrite (performed_app _ _ _ ltac:(rewrite Hrun; exact Htrace)).
  rewrite Hrun. cbn [fst snd]. split; [reflexivity |].
  split; [cbn [solutionFound In app]; tauto |].
  split; [| exact Hsolved].
  cbn [solutionFound app List.filter isPost]. now rewrite Hrest.
Qed.

End Scan.

Lemma solution_is_posted_under_the_current_challenge_witness :
  let run := hashAndScan Samples.leadingZeros Samples.acceptedAnswer Samples.alice
               "**D07C10" "000FFFFF" false Samples.lateStep 0
               [{| nonce := "0001010101010101"; preimage := "preimage" |}] in
  In (OpSolvedAdd "addr1alice" "**D07C10") (performed run Samples.runningWorld) /\
  List.filter isPost (performed run Samples.runningWorld)
  = [OpPost "addr1alice" "**D07C11" "0001010101010101"].
Proof.
  destruct (solution_is_posted_under_the_current_challenge Samples.leadingZeros
              Samples.acceptedAnswer Samples.alice "**D07C10" "000FFFFF" false
              Samples.lateStep 0
              {| nonce := "0001010101010101"; preimage := "preimage" |} []
              "000a77" (repeat "77aa"%string 999) "**D07C11" Samples.runningWorld
              eq_refl eq_refl ltac:(apply not_elem_of_empty)
              eq_refl eq_refl eq_refl)
    as (_ & Hin & Hpost & _).
  split; assumption.
Defined.




(** *** The counters of an accepted solution *)

(** X18. An accepted solution is counted once, and on one side only.
    The count of solutions found grows by one. A user solution adds one
    to the count of user solutions and starts a fee check, and leaves the
    count of paid fee solutions alone; a fee solution adds one to the
    count of paid fee solutions, leaves the count of user solutions alone
    and starts no fee check. Neither dedup structure is written. The
    receipt is logged under the challenge id that is current when the
    response arrives, while the POST went to the id that was current
    when the request left. *)
Theorem accepted_solution_is_counted_once (env : SubmitEnv)
    (addr : DerivedAddress) (nonce hash preimage : string) (isDevFee : bool)
    (w : World) (st : Z) (text : string) (receipt msg : option string)
    (Hid : truthyId (currentChallengeId (self w)) = true)
    (Hwallet : walletManager (self w) = true)
    (Hpost : post env = Responded st text receipt msg)
    (Haccepted : 200 <= st < 300) :
  let run := submitSolution env addr nonce hash preimage isDevFee in
  let w1 := resume (during_post env) w in
  let w' := snd (run w) in
  solutionsFound (self w') = solutionsFound (self w1) + 1 /\
  userSolutionsCount (self w')
  = userSolutionsCount (self w1) + (if isDevFee then 0 else 1) /\
  DevFee.getTotalDevFeeSolutions (fee w')
  = DevFee.getTotalDevFeeSolutions (fee w1) + (if isDevFee then 1 else 0) /\
  solvedAddressChallenges (self w') = solvedAddressChallenges (self w1) /\
  submittedSolutions (self w') = submittedSolutions (self w1) /\
  performed run w
  = [ OpSubmitSolution (bech32 addr) nonce hash isDevFee;
      OpPost (bech32 addr) (default "" (currentChallengeId (self w))) nonce ]
    ++ (if isDevFee then [] else [OpSpawnDevFeeCheck])
    ++ [ OpLogReceipt {| r_ts := clock w1; r_address := bech32 addr;
                         r_challenge_id := default "" (currentChallengeId (self w1));
                         r_nonce := nonce; r_hash := hash;
                         r_crypto_receipt := receipt;
                         r_isDevFee := isDevFee |};
         OpEmit (EvSolutionResult (bech32 addr) (index addr) true
                   "Solution accepted");
         OpEmit (EvSolution (bech32 addr) (currentChallengeId (self w1)) nonce) ].
Proof.
  cbv zeta. apply accepted_range in Haccepted.
  destruct (submitSolution_accepted env addr nonce hash preimage isDevFee w
              st text receipt msg Hid Hwallet Hpost Haccepted)
    as (w' & Hrun & Htrace & Hfound & Huser & Hfee & Hsolved & Hsubmitted).
  rewrite (performed_app _ _ _ ltac:(rewrite Hrun; exact Htrace)).
  rewrite Hrun. cbn [snd]. repeat split; assumption.
Qed.

Lemma accepted_solution_is_counted_once_witness :
  let run := submitSolution Samples.acceptedAnswer Samples.alice
               "00a1b2c3d4e5f607" "000a77" "preimage" false in
  userSolutionsCount (self (snd (run Samples.runningWorld))) = 1 /\
  DevFee.getTotalDevFeeSolutions (fee (snd (run Samples.runningWorld))) = 0 /\
  In OpSpawnDevFeeCheck (performed run Samples.runningWorld).
Proof.
  destruct (accepted_solution_is_counted_once Samples.acceptedAnswer Samples.alice
              "00a1b2c3d4e5f607" "000a77" "preimage" false Samples.runningWorld
              201 "Created" (Some "receipt-9"%string) None
              eq_refl eq_refl eq_refl ltac:(lia))
    as (_ & Huser & Hfee & _ & _ & Hops).
  cbv zeta. split; [exact Huser |]. split; [exact Hfee |].
  rewrite Hops. cbn [app In]. tauto.
Defined.

End OrchestratorMore.

(** ** Statistics and the dashboard *)

Section StatsFacts.
Import Stats.

Lemma countSolution_fold hourStart previousStart todayStart yesterdayStart ts :
  forall acc,
  let r := fold_left (countSolution hourStart previousStart todayStart yesterdayStart)
             ts acc in
  thisHour r
  = thisHour acc
    + Z.of_nat (length (List.filter (fun t => hourStart <=? t) ts)) /\
  previousHour r
  = previousHour acc
    + Z.of_nat (length (List.filter
                          (fun t => negb (hourStart <=? t)
                                    && ((previousStart <=? t) && (t <? hourStart)))
                          ts)) /\
  today r
  = today acc + Z.of_nat (length (List.filter (fun t => todayStart <=? t) ts)) /\
  yesterday r
  = yesterday acc
    + Z.of_nat (length (List.filter
                          (fun t => negb (todayStart <=? t)
                                    && ((yesterdayStart <=? t) && (t <? todayStart)))
                          ts)).
Proof.
  induction ts as [|t ts IH]; intros acc; cbn [fold_left List.filter].
  - cbn [length Z.of_nat]. repeat split; lia.
  - cbv zeta in IH |- *.
    destruct (IH (countSolution hourStart previousStart todayStart yesterdayStart
                    acc t)) as (H1 & H2 & H3 & H4).
    rewrite H1, H2, H3, H4. unfold countSolution.
    destruct (hourStart <=? t); destruct (todayStart <=? t);
      cbn [negb andb];
      destruct ((previousStart <=? t) && (t <? hourStart));
      destruct ((yesterdayStart <=? t) && (t <? todayStart));
      cbn [thisHour previousHour today yesterday length];
      repeat split; lia.
Qed.

(** X19. The four solution counters of the statistics. Each counter is
    the number of recorded solution times in its period: from the start
    of the current hour on (times in the future included), the hour
    before, from local midnight on, and the 24 hours before midnight.
    The current hour starts at a multiple of one hour and contains the
    present time, and no solution is counted both in this hour and in
    the previous one, or both today and yesterday. *)
Theorem solution_counters_count_their_periods (now todayStart : Z)
    (solutionTimestamps : list Z) :
  let r := calculateTimePeriodSolutions now todayStart solutionTimestamps in
  let hourStart := now / oneHour * oneHour in
  let count := fun inPeriod : Z -> bool =>
                 Z.of_nat (length (List.filter inPeriod solutionTimestamps)) in
  hourStart <= now < hourStart + oneHour /\
  thisHour r = count (fun t => hourStart <=? t) /\
  previousHour r
  = count (fun t => (hourStart - oneHour <=? t) && (t <? hourStart)) /\
  today r = count (fun t => todayStart <=? t) /\
  yesterday r
  = count (fun t => (todayStart - 24 * oneHour <=? t) && (t <? todayStart)) /\
  thisHour r + previousHour r <= Z.of_nat (length solutionTimestamps) /\
  today r + yesterday r <= Z.of_nat (length solutionTimestamps).
Proof.
  cbv zeta.
  assert (Hhour : now / oneHour * oneHour <= now < now / oneHour * oneHour + oneHour).
  { unfold oneHour. pose proof (Z.div_mod now (60 * 60 * 1000) ltac:(lia)).
    pose proof (Z.mod_pos_bound now (60 * 60 * 1000) ltac:(lia)). lia. }
  split; [exact Hhour |].
  unfold calculateTimePeriodSolutions. cbv zeta.
  destruct (countSolution_fold (now / oneHour * oneHour)
              (now / oneHour * oneHour - oneHour) todayStart
              (todayStart - 24 * 60 * 60 * 1000) solutionTimestamps
              {| thisHour := 0; previousHour := 0; today := 0; yesterday := 0 |})
    as (H1 & H2 & H3 & H4).
  cbv zeta in H1, H2, H3, H4. cbn [thisHour previousHour today yesterday] in *.
  rewrite H1, H2, H3, H4.
  assert (Hsame : forall (p q : Z -> bool) (l : list Z),
            (forall t, p t = q t) -> List.filter p l = List.filter q l).
  { intros p q l Hpq. induction l as [|t l IHl]; cbn [List.filter];
      [reflexivity |]. rewrite Hpq, IHl. reflexivity. }
  assert (Hdisjoint : forall (p q : Z -> bool) (l : list Z),
            (forall t, p t = true -> q t = false) ->
            Z.of_nat (length (List.filter p l)) + Z.of_nat (length (List.filter q l))
            <= Z.of_nat (length l)).
  { intros p q l Hpq. induction l as [|t l IHl]; cbn [List.filter length];
      [lia |].
    specialize (Hpq t). destruct (p t); destruct (q t); cbn [length]; lia. }
  rewrite !Z.add_0_l.
  assert (Hprevious :
    List.filter (fun t => negb (now / oneHour * oneHour <=? t)
                          && ((now / oneHour * oneHour - oneHour <=? t)
                              && (t <? now / oneHour * oneHour)))
      solutionTimestamps
    = List.filter (fun t => (now / oneHour * oneHour - oneHour <=? t)
                            && (t <? now / oneHour * oneHour))
        solutionTimestamps).
  { apply Hsame. intros t.
    destruct (Z.leb_spec (now / oneHour * oneHour) t);
      destruct (Z.leb_spec (now / oneHour * oneHour - oneHour) t);
      destruct (Z.ltb_spec t (now / oneHour * oneHour));
      cbn [negb andb]; try reflexivity; lia. }
  assert (Hyesterday :
    List.filter (fun t => negb (todayStart <=? t)
                          && ((todayStart - 24 * 60 * 60 * 1000 <=? t)
                              && (t <? todayStart)))
      solutionTimestamps
    = List.filter (fun t => (todayStart - 24 * oneHour <=? t) && (t <? todayStart))
        solutionTimestamps).
  { apply Hsame. intros t. unfold oneHour.
    replace (todayStart - 24 * (60 * 60 * 1000))
      with (todayStart - 24 * 60 * 60 * 1000) by lia.
    destruct (Z.leb_spec todayStart t);
      destruct (Z.leb_spec (todayStart - 24 * 60 * 60 * 1000) t);
      destruct (Z.ltb_spec t todayStart);
      cbn [negb andb]; try reflexivity; lia. }
  rewrite Hprevious, Hyesterday.
  split; [reflexivity |]. split; [reflexivity |].
  split; [reflexivity |]. split; [reflexivity |].
  split; apply Hdisjoint; intros t Ht.
  - destruct (Z.leb_spec (now / oneHour * oneHour) t); [| discriminate].
    destruct (Z.ltb_spec t (now / oneHour * oneHour)); [lia |].
    apply andb_false_r.
  - destruct (Z.leb_spec todayStart t); [| discriminate].
    destruct (Z.ltb_spec t todayStart); [lia |].
    apply andb_false_r.
Qed.

End StatsFacts.

Section DashboardFacts.
Import Dashboard.


(** X21. The uptime shown on the dashboard is the real one rounded
    down to the unit displayed: with hours, the hours and minutes shown
    are the whole minutes elapsed; below one hour, the minutes and
    seconds shown are the whole seconds elapsed. The minutes after the
    hours and the seconds after the minutes are below 60, hours are
    shown only from one hour on and minutes only from one minute on. *)
Theorem uptime_is_shown_rounded_down (ms : Z) :
  formatUptime ms = render (uptimeShown ms) /\
  match uptimeShown ms with
  | HoursMinutes hours minutes =>
      0 < hours /\ 0 <= minutes < 60 /\
      (60 * hours + minutes) * 60000 <= ms < (60 * hours + minutes + 1) * 60000
  | MinutesSeconds minutes seconds =>
      0 < minutes < 60 /\ 0 <= seconds < 60 /\
      (60 * minutes + seconds) * 1000 <= ms < (60 * minutes + seconds + 1) * 1000
  | Seconds seconds =>
      seconds < 60 /\ seconds * 1000 <= ms < (seconds + 1) * 1000
  end.
Proof.
  split; [reflexivity |]. unfold uptimeShown. cbv zeta.
  rewrite !Z.gtb_ltb.
  destruct (Z.ltb_spec 0 (ms / 1000 / 60 / 60));
    [| destruct (Z.ltb_spec 0 (ms / 1000 / 60))];
    Z.div_mod_to_equations; lia.
Qed.

End DashboardFacts.

(** ** What the scheduler does not dispatch again *)

Section Dispatch.
Import Orchestrator.

Variable matchesDifficulty : string -> string -> bool.
Variable buildPreimage : string -> string -> option Challenge -> string.

Lemma load_marks_user_receipts allReceipts r w :
  In r allReceipts -> r_isDevFee r = false ->
  hasSolved (r_address r) (r_challenge_id r)
    (self (snd (loadSubmittedSolutions (Ok allReceipts) w))) = true.
Proof.
  intros Hin Huser. unfold loadSubmittedSolutions. cbv zeta.
  destruct (forEach_loadReceipt (userReceiptsOf allReceipts)
              (onSelf (set_userSolutionsCount
                         (Z.of_nat (length (userReceiptsOf allReceipts)))) w))
    as (w' & Hrun & _ & Hsolved & _).
  erewrite tryCatch_done by (rewrite bind_modify; exact Hrun).
  cbn [snd]. apply Hsolved. right. exists r.
  split; [now apply In_userReceiptsOf | split; reflexivity].
Qed.

(** X22. After a restart, an address with a user receipt in the journal
    for a challenge is not dispatched for that challenge: once the
    journal is loaded, no address of the wallet with the receipt's
    bech32 form is among the addresses to mine for the receipt's
    challenge. *)
Theorem restart_skips_addresses_with_a_receipt (allReceipts : list Receipt)
    (r : Receipt) (w : World)
    (Hin : In r allReceipts) (Huser : r_isDevFee r = false) :
  let w' := snd (loadSubmittedSolutions (Ok allReceipts) w) in
  forall addr, bech32 addr = r_address r ->
    ~ In addr (addressesToMine (r_challenge_id r) (self w')).
Proof.
  cbv zeta. intros addr Haddr Hmine.
  apply addressesToMine_unsolved in Hmine as (_ & _ & Hunsolved).
  rewrite Haddr, (load_marks_user_receipts allReceipts r w Hin Huser) in Hunsolved.
  discriminate.
Qed.

(** X23. An address for which a miner has submitted a solution is not
    dispatched again for that challenge, whatever the server answered:
    if a call of [mineForAddress] reaches [submitSolution], it returns,
    and afterwards no address with the same bech32 form is among the
    addresses to mine for the challenge that was current when the miner
    started. *)
Theorem submitted_address_is_not_dispatched_again (env : MineEnv)
    (addr : DerivedAddress) (isDevFee : bool) (w : World)
    (Hsubmitted :
       List.filter isSubmitCall
         (performed (mineForAddress matchesDifficulty buildPreimage env addr isDevFee) w)
       <> []) :
  let run := mineForAddress matchesDifficulty buildPreimage env addr isDevFee in
  exists challengeId,
    currentChallengeId (self w) = Some challengeId /\
    fst (run w) = Done tt /\
    forall other, bech32 other = bech32 addr ->
      ~ In other (addressesToMine challengeId (self (snd (run w)))).
Proof.
  cbv zeta.
  destruct (mineForAddress_shape matchesDifficulty buildPreimage env addr isDevFee w)
    as (out & w' & ops & Hrun & Htrace & _ & Hcases).
  rewrite (performed_app _ _ (OpMineForAddress (bech32 addr) isDevFee :: ops))
    in Hsubmitted by (now rewrite Hrun).
  cbn [List.filter isSubmitCall] in Hsubmitted.
  destruct Hcases as [Hsearching|(-> & pre & challengeId & nonce & hash & post
                                  & _ & Hid & _ & _ & _ & Hsolved)].
  - exfalso. apply Hsubmitted.
    apply (filter_none searching); [apply searching_not_submitCall | exact Hsearching].
  - exists challengeId. rewrite Hrun. cbn [fst snd].
    split; [exact Hid |]. split; [reflexivity |].
    intros other Hother Hmine.
    apply addressesToMine_unsolved in Hmine as (_ & _ & Hunsolved).
    rewrite Hother, Hsolved in Hunsolved. discriminate.
Qed.

End Dispatch.

Lemma restart_skips_addresses_with_a_receipt_witness :
  ~ In Samples.alice
      (Orchestrator.addressesToMine "**D07C10"
         (Orchestrator.self
            (snd (Orchestrator.loadSubmittedSolutions
                    (Ok [Samples.userReceipt; Samples.feeReceipt])
                    Samples.runningWorld)))).
Proof.
  exact (restart_skips_addresses_with_a_receipt
           [Samples.userReceipt; Samples.feeReceipt] Samples.userReceipt
           Samples.runningWorld (or_introl eq_refl) eq_refl Samples.alice eq_refl).
Defined.

Lemma submitted_address_is_not_dispatched_again_witness :
  ~ In Samples.alice
      (Orchestrator.addressesToMine "**D07C10"
         (Orchestrator.self
            (snd (Orchestrator.mineForAddress Samples.leadingZeros
                    Samples.concatPreimage Samples.rejectedMining Samples.alice
                    false Samples.runningWorld)))).
Proof.
  destruct (submitted_address_is_not_dispatched_again Samples.leadingZeros
              Samples.concatPreimage Samples.rejectedMining Samples.alice false
              Samples.runningWorld ltac:(vm_compute; discriminate))
    as (challengeId & Hid & _ & Hnot).
  injection Hid as <-. apply Hnot. reflexivity.
Defined.

(** ** A round of the miner that fails *)

Section FailedRound.
Import Orchestrator.

Variable matchesDifficulty : string -> string -> bool.
Variable buildPreimage : string -> string -> option Challenge -> string.

Lemma buildBatch_full draws addr challengeId s remaining :
  stillMining challengeId s = true ->
  forall i,
  exists batch,
    buildBatch buildPreimage draws addr challengeId s i remaining = Ok batch /\
    length batch = remaining.
Proof.
  intros Hmining. induction remaining as [|remaining IH]; intros i;
    cbn [buildBatch].
  - exists []. split; reflexivity.
  - rewrite Hmining. cbn [negb].
    destruct (generateNonce_default_shape (draws i)) as (nonceHex & -> & _).
    destruct (IH (S i)) as (rest & -> & Hlen).
    eexists. split; [reflexivity |]. cbn [length]. now rewrite Hlen.
Qed.

(** X24. A round of the miner whose hash service call throws is skipped:
    the error is logged, no hash is counted, the progress events are
    published with the count unchanged, and the miner goes on with the
    next batch of 1000 candidates. The exception does not leave
    [mineForAddress]. *)
Theorem failed_hash_batch_is_skipped (env : SubmitEnv) (addr : DerivedAddress)
    (challengeId difficulty : string) (isDevFee : bool) (step : MineStep)
    (rounds : list MineStep) (hashCount : Z) (msg : string) (w : World)
    (Hmining : stillMining challengeId (self w) = true)
    (Hfails : hashes step = Throw msg) :
  mineLoop matchesDifficulty buildPreimage env addr challengeId difficulty
    isDevFee (step :: rounds) hashCount w
  = mineLoop matchesDifficulty buildPreimage env addr challengeId difficulty
      isDevFee rounds hashCount
      (record (OpEmit EvStats)
         (record (OpEmit (EvHashProgress (bech32 addr) (index addr) hashCount))
            (record (OpLoggerError "Batch hash computation error")
               (resume (during_hash step) (record (OpHashBatch BATCH_SIZE) w))))).
Proof.
  cbn [mineLoop]. rewrite bind_get, Hmining. cbn [negb].
  destruct (buildBatch_full (random step) addr challengeId (self w) BATCH_SIZE
              Hmining 0%nat) as (batchData & -> & Hlen).
  rewrite Hlen. cbn [BATCH_SIZE Nat.eqb].
  assert (Hround :
            hashAndScan matchesDifficulty env addr challengeId difficulty isDevFee
              step hashCount batchData w
            = (Raised (plainError msg),
               resume (during_hash step) (record (OpHashBatch BATCH_SIZE) w))).
  { unfold hashAndScan. rewrite bind_perform, bind_await, Hfails, Hlen.
    reflexivity. }
  rewrite (bind_tryCatch_raised _ _ _ _ _ _ Hround).
  rewrite bind_bind, bind_perform, bind_ret, bind_emit, bind_emit, Hfails.
  reflexivity.
Qed.

End FailedRound.

Lemma failed_hash_batch_is_skipped_witness :
  Orchestrator.performed
    (Orchestrator.mineLoop Samples.leadingZeros Samples.concatPreimage
       Samples.acceptedAnswer Samples.alice "**D07C10" "000FFFFF" false
       [Samples.failingStep] 0)
    Samples.runningWorld
  = [ Orchestrator.OpHashBatch 1000;
      Orchestrator.OpLoggerError "Batch hash computation error";
      Orchestrator.OpEmit (Orchestrator.EvHashProgress "addr1alice" 0 0);
      Orchestrator.OpEmit Orchestrator.EvStats ].
Proof.
  unfold Orchestrator.performed.
  rewrite (failed_hash_batch_is_skipped Samples.leadingZeros Samples.concatPreimage
             Samples.acceptedAnswer Samples.alice "**D07C10" "000FFFFF" false
             Samples.failingStep [] 0 "connect ECONNREFUSED 127.0.0.1:9001"
             Samples.runningWorld eq_refl eq_refl).
  reflexivity.
Defined.
